(** * asbplayer Subtitle Streamer: the background service worker

    A shallow embedding of [background.js]: the module-level state
    ([settings], [transport], [connectionStatus]), the three transport
    classes and the message, socket, timer, request and port callbacks
    that the browser runs to completion one after another.

    JavaScript objects that callbacks keep a reference to (transport
    instances, sockets, timers, ports, in-flight [send] calls of the HTTP
    transport) live in finite maps keyed by a handle, so that a callback
    of an instance that the manager has already released still finds, and
    mutates, that instance. *)

From Stdlib Require Import ZArith Lia.
From stdpp Require Import base decidable option list strings gmap fin_maps.

Local Open Scope string_scope.
Local Open Scope list_scope.
Local Open Scope Z_scope.

(** ** JavaScript values held by the settings object *)

(** The values a settings object carries after it has crossed the
    message channel or the storage API: primitive values, and arrays and
    objects, which [!==] tells apart by identity and which are therefore
    kept as a reference.  A property that is absent reads as
    [undefined], which is [None] below. *)
Inductive jsval :=
| JNull
| JBool (b : bool)
| JNum (n : Z)
| JStr (s : string)
| JObject (ref : nat).

#[global] Instance jsval_eq_dec : EqDecision jsval.
Proof. solve_decision. Defined.

(** [a !== b] on two property reads. *)
Definition strict_ne (a b : option jsval) : bool := negb (bool_decide (a = b)).

(** Truthiness, as used by [if (settings.enabled)]. *)
Definition truthy (v : option jsval) : bool :=
  match v with
  | Some (JBool b) => b
  | Some (JNum n) => negb (Z.eqb n 0)
  | Some (JStr s) => negb (String.eqb s EmptyString)
  | Some (JObject _) => true
  | Some JNull | None => false
  end.

(** [{ ...a, ...b }]: the properties of [b] win. *)
Definition spread (a b : gmap string jsval) : gmap string jsval := b ∪ a.

Definition VERSION : string := "1.0.0".

(** The initial [settings] object of the module. *)
Definition default_settings : gmap string jsval :=
  <["enabled" := JBool true]>
  (<["transportType" := JStr "websocket"]>
  (<["wsUrl" := JStr "ws://localhost:8767"]>
  (<["httpUrl" := JStr "http://localhost:8080/subtitle"]>
  (<["nativeHost" := JStr "com.subtitle.streamer"]> ∅)))).

(** ** Data model *)

(** ['connected'], ['disconnected'], ['connecting']. *)
Inductive Status := Disconnected | Connecting | Connected.

#[global] Instance Status_eq_dec : EqDecision Status.
Proof. solve_decision. Defined.

(** [WebSocket.readyState]. *)
Inductive ReadyState := CONNECTING | OPEN | CLOSING | CLOSED.

#[global] Instance ReadyState_eq_dec : EqDecision ReadyState.
Proof. solve_decision. Defined.

(** The records handed to [send]; timestamps are left out. *)
Inductive message :=
| MsgSubtitle (payload : string)
| MsgConnected (version : string)
| MsgDisconnected
| MsgHeartbeat.

#[global] Instance message_eq_dec : EqDecision message.
Proof. solve_decision. Defined.

(** Fields of a [WebSocketTransport] instance.  [ws], [heartbeatInterval]
    and [reconnectTimeout] hold a handle or [null]; timer handles are
    positive integers, so [if (this.reconnectTimeout)] tests presence. *)
Record WsObject := {
  ws_url : option jsval;
  ws_ws : option nat;
  reconnectAttempts : nat;
  maxReconnectAttempts : nat;
  maxReconnectDelay : Z;
  heartbeatInterval : option nat;
  reconnectTimeout : option nat
}.

Record HttpObject := {
  http_url : option jsval;
  maxRetries : nat
}.

Record NativeObject := {
  hostName : option jsval;
  port : option nat
}.

Inductive Instance :=
| IWs (w : WsObject)
| IHttp (h : HttpObject)
| INative (n : NativeObject).

(** A socket and the instance its [onopen]/[onclose]/[onerror] closures
    were created by. *)
Record Socket := {
  readyState : ReadyState;
  sock_owner : nat
}.

(** What a pending timer will run. *)
Inductive Timer :=
| TReconnect (i : nat)      (* the closure set up by scheduleReconnect *)
| THeartbeat (i : nat)      (* the interval set up by startHeartbeat *)
| TRetry (r : nat)          (* the back-off pause inside HttpTransport.send *)
| TTestWait.                (* the one second pause of testConnection *)

#[global] Instance Timer_eq_dec : EqDecision Timer.
Proof. solve_decision. Defined.

(** One running call of the asynchronous [HttpTransport.send]: its
    [this], its argument, the loop variable [attempt], and whether it is
    suspended in the back-off pause ([true]) or in [await fetch]. *)
Record Request := {
  req_this : nat;
  req_msg : message;
  req_attempt : nat;
  req_sleeping : bool
}.

(** How an awaited [fetch] settles. *)
Inductive FetchOutcome :=
| ResponseOk          (* response.ok *)
| ResponseNotOk       (* a response whose status is not 2xx *)
| FetchRejected.      (* the promise rejects: the await throws *)

(** Calls into the browser, in the order they are made. *)
Inductive effect :=
| Badge (st : Status)
| StorageSet (v : gmap string jsval)
| WsNew (k : nat) (url : option jsval)
| WsSend (k : nat) (m : message)
| WsClose (k : nat)
| SetTimeout (t : nat) (delay : Z)
| ClearTimeout (t : nat)
| SetInterval (t : nat) (delay : Z)
| ClearInterval (t : nat)
| Fetch (r : nat) (url : option jsval) (m : message)
| ConnectNative (p : nat) (host : option jsval)
| PostMessage (p : nat) (m : message)
| PortDisconnect (p : nat)
| SendResponse (st : Status).

(** What the platform decides when a constructor may throw. *)
Record Platform := {
  WebSocket_accepts : option jsval → bool;      (* [new WebSocket(url)] returns *)
  URL_accepts : option jsval → bool;            (* [new URL(url)] returns *)
  connectNative_accepts : option jsval → bool   (* [connectNative(host)] returns *)
}.

Record State := {
  platform : Platform;
  settings : gmap string jsval;
  transport : option nat;
  connectionStatus : Status;
  heap : gmap nat Instance;
  sockets : gmap nat Socket;
  ports : gmap nat bool;               (* [true] while the port is connected *)
  timers : gmap nat Timer;
  requests : gmap nat Request;
  nextId : nat;
  trace : list effect
}.

Definition set_settings (v : gmap string jsval) (s : State) : State :=
  {| platform := platform s; settings := v; transport := transport s;
     connectionStatus := connectionStatus s; heap := heap s;
     sockets := sockets s; ports := ports s; timers := timers s;
     requests := requests s; nextId := nextId s; trace := trace s |}.

Definition set_transport (v : option nat) (s : State) : State :=
  {| platform := platform s; settings := settings s; transport := v;
     connectionStatus := connectionStatus s; heap := heap s;
     sockets := sockets s; ports := ports s; timers := timers s;
     requests := requests s; nextId := nextId s; trace := trace s |}.

Definition set_connectionStatus (v : Status) (s : State) : State :=
  {| platform := platform s; settings := settings s; transport := transport s;
     connectionStatus := v; heap := heap s;
     sockets := sockets s; ports := ports s; timers := timers s;
     requests := requests s; nextId := nextId s; trace := trace s |}.

Definition set_heap (v : gmap nat Instance) (s : State) : State :=
  {| platform := platform s; settings := settings s; transport := transport s;
     connectionStatus := connectionStatus s; heap := v;
     sockets := sockets s; ports := ports s; timers := timers s;
     requests := requests s; nextId := nextId s; trace := trace s |}.

Definition set_sockets (v : gmap nat Socket) (s : State) : State :=
  {| platform := platform s; settings := settings s; transport := transport s;
     connectionStatus := connectionStatus s; heap := heap s;
     sockets := v; ports := ports s; timers := timers s;
     requests := requests s; nextId := nextId s; trace := trace s |}.

Definition set_ports (v : gmap nat bool) (s : State) : State :=
  {| platform := platform s; settings := settings s; transport := transport s;
     connectionStatus := connectionStatus s; heap := heap s;
     sockets := sockets s; ports := v; timers := timers s;
     requests := requests s; nextId := nextId s; trace := trace s |}.

Definition set_timers (v : gmap nat Timer) (s : State) : State :=
  {| platform := platform s; settings := settings s; transport := transport s;
     connectionStatus := connectionStatus s; heap := heap s;
     sockets := sockets s; ports := ports s; timers := v;
     requests := requests s; nextId := nextId s; trace := trace s |}.

Definition set_requests (v : gmap nat Request) (s : State) : State :=
  {| platform := platform s; settings := settings s; transport := transport s;
     connectionStatus := connectionStatus s; heap := heap s;
     sockets := sockets s; ports := ports s; timers := timers s;
     requests := v; nextId := nextId s; trace := trace s |}.

(** Take the next unused handle. *)
Definition bump (s : State) : State :=
  {| platform := platform s; settings := settings s; transport := transport s;
     connectionStatus := connectionStatus s; heap := heap s;
     sockets := sockets s; ports := ports s; timers := timers s;
     requests := requests s; nextId := S (nextId s); trace := trace s |}.

(** Record a call into the browser. *)
Definition emit (e : effect) (s : State) : State :=
  {| platform := platform s; settings := settings s; transport := transport s;
     connectionStatus := connectionStatus s; heap := heap s;
     sockets := sockets s; ports := ports s; timers := timers s;
     requests := requests s; nextId := nextId s; trace := (trace s ++ [e])%list |}.

(** The state of the module when the worker starts. *)
Definition init (P : Platform) : State :=
  {| platform := P; settings := default_settings; transport := None;
     connectionStatus := Disconnected; heap := ∅; sockets := ∅; ports := ∅;
     timers := ∅; requests := ∅; nextId := 1; trace := [] |}.

(** ** Module-level functions that the transports call *)

(** [updateBadge(status)]: writes the status cell and the badge. *)
Definition updateBadge (st : Status) (s : State) : State :=
  emit (Badge st) (set_connectionStatus st s).

(** [saveSettings()]: hands the settings to [chrome.storage.sync.set]. *)
Definition saveSettings (s : State) : State :=
  emit (StorageSet (settings s)) s.

(** ** class WebSocketTransport *)

Module WebSocketTransport.

(** [new WebSocketTransport(url)], the constructor's field values. *)
Definition new (url : option jsval) : WsObject :=
  {| ws_url := url; ws_ws := None; reconnectAttempts := 0;
     maxReconnectAttempts := 3; maxReconnectDelay := 30000;
     heartbeatInterval := None; reconnectTimeout := None |}.

Definition with_ws (v : option nat) (w : WsObject) : WsObject :=
  {| ws_url := ws_url w; ws_ws := v;
     reconnectAttempts := reconnectAttempts w;
     maxReconnectAttempts := maxReconnectAttempts w;
     maxReconnectDelay := maxReconnectDelay w;
     heartbeatInterval := heartbeatInterval w;
     reconnectTimeout := reconnectTimeout w |}.

Definition with_reconnectAttempts (v : nat) (w : WsObject) : WsObject :=
  {| ws_url := ws_url w; ws_ws := ws_ws w;
     reconnectAttempts := v;
     maxReconnectAttempts := maxReconnectAttempts w;
     maxReconnectDelay := maxReconnectDelay w;
     heartbeatInterval := heartbeatInterval w;
     reconnectTimeout := reconnectTimeout w |}.

Definition with_heartbeatInterval (v : option nat) (w : WsObject) : WsObject :=
  {| ws_url := ws_url w; ws_ws := ws_ws w;
     reconnectAttempts := reconnectAttempts w;
     maxReconnectAttempts := maxReconnectAttempts w;
     maxReconnectDelay := maxReconnectDelay w;
     heartbeatInterval := v;
     reconnectTimeout := reconnectTimeout w |}.

Definition with_reconnectTimeout (v : option nat) (w : WsObject) : WsObject :=
  {| ws_url := ws_url w; ws_ws := ws_ws w;
     reconnectAttempts := reconnectAttempts w;
     maxReconnectAttempts := maxReconnectAttempts w;
     maxReconnectDelay := maxReconnectDelay w;
     heartbeatInterval := heartbeatInterval w;
     reconnectTimeout := v |}.

(** Read and write the instance behind [this]. *)
Definition this (i : nat) (s : State) : option WsObject :=
  match heap s !! i with
  | Some (IWs w) => Some w
  | _ => None
  end.

Definition store (i : nat) (w : WsObject) (s : State) : State :=
  set_heap (<[i := IWs w]> (heap s)) s.

(** [Math.min(1000 * Math.pow(2, this.reconnectAttempts),
    this.maxReconnectDelay)]. *)
Definition delay (attempts : nat) (cap : Z) : Z :=
  Z.min (1000 * 2 ^ Z.of_nat attempts) cap.

(** [send(message)]: only through a socket that is open. *)
Definition send (i : nat) (m : message) (s : State) : State :=
  match this i s with
  | Some w =>
      match ws_ws w with
      | Some k =>
          match sockets s !! k with
          | Some sock =>
              if bool_decide (readyState sock = OPEN)
              then emit (WsSend k m) s
              else s
          | None => s
          end
      | None => s
      end
  | None => s
  end.

Definition stopHeartbeat (i : nat) (s : State) : State :=
  match this i s with
  | Some w =>
      match heartbeatInterval w with
      | Some t =>
          store i (with_heartbeatInterval None w)
            (emit (ClearInterval t) (set_timers (delete t (timers s)) s))
      | None => s
      end
  | None => s
  end.

Definition startHeartbeat (i : nat) (s : State) : State :=
  let s1 := stopHeartbeat i s in
  match this i s1 with
  | Some w =>
      let t := nextId s1 in
      store i (with_heartbeatInterval (Some t) w)
        (emit (SetInterval t 30000)
           (set_timers (<[t := THeartbeat i]> (timers s1)) (bump s1)))
  | None => s1
  end.

Definition scheduleReconnect (i : nat) (s : State) : State :=
  match this i s with
  | Some w =>
      match reconnectTimeout w with
      | Some _ => s                                   (* already scheduled *)
      | None =>
          if (maxReconnectAttempts w <=? reconnectAttempts w)%nat
          then updateBadge Disconnected s
          else
            let d := delay (reconnectAttempts w) (maxReconnectDelay w) in
            let t := nextId s in
            store i (with_reconnectTimeout (Some t) w)
              (emit (SetTimeout t d)
                 (set_timers (<[t := TReconnect i]> (timers s)) (bump s)))
      end
  | None => s
  end.

(** [connect()].  The handlers are attached to the new socket in the
    same turn, which [sock_owner] records. *)
Definition connect (i : nat) (s : State) : State :=
  let s1 := updateBadge Connecting s in
  match this i s1 with
  | Some w =>
      if WebSocket_accepts (platform s1) (ws_url w)
      then
        let k := nextId s1 in
        store i (with_ws (Some k) w)
          (emit (WsNew k (ws_url w))
             (set_sockets
                (<[k := {| readyState := CONNECTING; sock_owner := i |}]>
                   (sockets s1))
                (bump s1)))
      else
        (* the constructor threw: the catch block *)
        scheduleReconnect i (updateBadge Disconnected s1)
  | None => s1
  end.

(** [this.ws.onopen]. *)
Definition onopen (i : nat) (s : State) : State :=
  let s1 := updateBadge Connected s in
  let s2 :=
    match this i s1 with
    | Some w => store i (with_reconnectAttempts 0%nat w) s1
    | None => s1
    end in
  let s3 := send i (MsgConnected VERSION) s2 in
  startHeartbeat i s3.

(** [this.ws.onclose]. *)
Definition onclose (i : nat) (s : State) : State :=
  let s1 := updateBadge Disconnected s in
  let s2 := stopHeartbeat i s1 in
  scheduleReconnect i s2.

(** [this.ws.onerror]. *)
Definition onerror (i : nat) (s : State) : State :=
  updateBadge Disconnected s.

(** [socket.close()]: starts the closing handshake of a socket that is
    connecting or open; the close event comes later, as an event. *)
Definition socket_close (k : nat) (s : State) : State :=
  let s1 := emit (WsClose k) s in
  match sockets s1 !! k with
  | Some sock =>
      match readyState sock with
      | CONNECTING | OPEN =>
          set_sockets
            (<[k := {| readyState := CLOSING; sock_owner := sock_owner sock |}]>
               (sockets s1)) s1
      | CLOSING | CLOSED => s1
      end
  | None => s1
  end.

Definition disconnect (i : nat) (s : State) : State :=
  let s1 :=
    match this i s with
    | Some w =>
        match reconnectTimeout w with
        | Some t =>
            store i (with_reconnectTimeout None w)
              (emit (ClearTimeout t) (set_timers (delete t (timers s)) s))
        | None => s
        end
    | None => s
    end in
  let s2 := stopHeartbeat i s1 in
  let s3 :=
    match this i s2 with
    | Some w =>
        match ws_ws w with
        | Some k =>
            let s2a :=
              match sockets s2 !! k with
              | Some sock =>
                  if bool_decide (readyState sock = OPEN)
                  then send i MsgDisconnected s2
                  else s2
              | None => s2
              end in
            let s2b := socket_close k s2a in
            match this i s2b with
            | Some w' => store i (with_ws None w') s2b
            | None => s2b
            end
        | None => s2
        end
    | None => s2
    end in
  updateBadge Disconnected s3.

(** The closure handed to [setTimeout] by [scheduleReconnect]. *)
Definition reconnect_callback (i : nat) (s : State) : State :=
  let s1 :=
    match this i s with
    | Some w =>
        store i
          (with_reconnectAttempts (S (reconnectAttempts w))
             (with_reconnectTimeout None w)) s
    | None => s
    end in
  connect i s1.

(** The closure handed to [setInterval] by [startHeartbeat]. *)
Definition heartbeat_callback (i : nat) (s : State) : State :=
  send i MsgHeartbeat s.

End WebSocketTransport.

(** ** class HttpTransport *)

Module HttpTransport.

Definition new (url : option jsval) : HttpObject :=
  {| http_url := url; maxRetries := 3 |}.

Definition this (i : nat) (s : State) : option HttpObject :=
  match heap s !! i with
  | Some (IHttp h) => Some h
  | _ => None
  end.

Definition with_attempt (a : nat) (sleeping : bool) (q : Request) : Request :=
  {| req_this := req_this q; req_msg := req_msg q;
     req_attempt := a; req_sleeping := sleeping |}.

(** The head of the [for] loop of the call [r], entered with the loop
    variable at [a]: either the next [fetch] is issued and the call is
    suspended on it, or the loop, and the call, is over. *)
Definition loop (r : nat) (a : nat) (s : State) : State :=
  match requests s !! r with
  | Some q =>
      match this (req_this q) s with
      | Some h =>
          if (a <? maxRetries h)%nat
          then
            emit (Fetch r (http_url h) (req_msg q))
              (set_requests (<[r := with_attempt a false q]> (requests s)) s)
          else set_requests (delete r (requests s)) s
      | None => set_requests (delete r (requests s)) s
      end
  | None => s
  end.

(** [send(message)] up to its first [await]. *)
Definition send (i : nat) (m : message) (s : State) : State :=
  let r := nextId s in
  let q := {| req_this := i; req_msg := m;
              req_attempt := 0; req_sleeping := false |} in
  loop r 0 (set_requests (<[r := q]> (requests s)) (bump s)).

(** The call [r] resumes after its [fetch] has settled. *)
Definition resume (r : nat) (o : FetchOutcome) (s : State) : State :=
  match requests s !! r with
  | Some q =>
      match this (req_this q) s with
      | Some h =>
          let a := req_attempt q in
          match o with
          | ResponseOk =>
              let s1 :=
                if bool_decide (connectionStatus s = Connected)
                then s
                else updateBadge Connected s in
              set_requests (delete r (requests s1)) s1     (* return *)
          | ResponseNotOk =>
              loop r (S a) s
          | FetchRejected =>
              if (a =? maxRetries h - 1)%nat
              then loop r (S a) (updateBadge Disconnected s)
              else
                let t := nextId s in
                emit (SetTimeout t (1000 * (Z.of_nat a + 1)))
                  (set_timers (<[t := TRetry r]> (timers s))
                     (set_requests (<[r := with_attempt a true q]> (requests s))
                        (bump s)))
          end
      | None => set_requests (delete r (requests s)) s
      end
  | None => s
  end.

(** The call [r] resumes after its back-off pause. *)
Definition retry_callback (r : nat) (s : State) : State :=
  match requests s !! r with
  | Some q => loop r (S (req_attempt q)) s
  | None => s
  end.

Definition connect (i : nat) (s : State) : State :=
  match this i s with
  | Some h =>
      if URL_accepts (platform s) (http_url h)
      then send i (MsgConnected VERSION) (updateBadge Connected s)
      else updateBadge Disconnected s
  | None => s
  end.

Definition disconnect (i : nat) (s : State) : State :=
  updateBadge Disconnected (send i MsgDisconnected s).

End HttpTransport.

(** ** class NativeTransport *)

Module NativeTransport.

Definition new (host : option jsval) : NativeObject :=
  {| hostName := host; port := None |}.

Definition this (i : nat) (s : State) : option NativeObject :=
  match heap s !! i with
  | Some (INative n) => Some n
  | _ => None
  end.

Definition store (i : nat) (n : NativeObject) (s : State) : State :=
  set_heap (<[i := INative n]> (heap s)) s.

(** [send(message)]: [postMessage] throws on a port that has been
    disconnected, which the catch block turns into a status change. *)
Definition send (i : nat) (m : message) (s : State) : State :=
  match this i s with
  | Some n =>
      match port n with
      | Some p =>
          if bool_decide (ports s !! p = Some true)
          then emit (PostMessage p m) s
          else updateBadge Disconnected s
      | None => s
      end
  | None => s
  end.

Definition connect (i : nat) (s : State) : State :=
  let s1 := updateBadge Connecting s in
  match this i s1 with
  | Some n =>
      if connectNative_accepts (platform s1) (hostName n)
      then
        let p := nextId s1 in
        let s2 :=
          store i {| hostName := hostName n; port := Some p |}
            (emit (ConnectNative p (hostName n))
               (set_ports (<[p := true]> (ports s1)) (bump s1))) in
        send i (MsgConnected VERSION) (updateBadge Connected s2)
      else updateBadge Disconnected s1
  | None => s1
  end.

Definition disconnect (i : nat) (s : State) : State :=
  let s1 :=
    match this i s with
    | Some n =>
        match port n with
        | Some p =>
            let s0 := send i MsgDisconnected s in
            let s0' :=
              emit (PortDisconnect p) (set_ports (<[p := false]> (ports s0)) s0) in
            match this i s0' with
            | Some n' => store i {| hostName := hostName n'; port := None |} s0'
            | None => s0'
            end
        | None => s
        end
    | None => s
    end in
  updateBadge Disconnected s1.

(** The [port.onDisconnect] listener. *)
Definition onDisconnect (s : State) : State :=
  updateBadge Disconnected s.

(** The [port.onMessage] listener only logs. *)
Definition onMessage (s : State) : State := s.

End NativeTransport.

(** ** The connection manager: module-level functions *)

(** Method dispatch on the class of the instance behind a reference. *)
Definition Transport_connect (i : nat) (s : State) : State :=
  match heap s !! i with
  | Some (IWs _) => WebSocketTransport.connect i s
  | Some (IHttp _) => HttpTransport.connect i s
  | Some (INative _) => NativeTransport.connect i s
  | None => s
  end.

Definition Transport_disconnect (i : nat) (s : State) : State :=
  match heap s !! i with
  | Some (IWs _) => WebSocketTransport.disconnect i s
  | Some (IHttp _) => HttpTransport.disconnect i s
  | Some (INative _) => NativeTransport.disconnect i s
  | None => s
  end.

Definition Transport_send (i : nat) (m : message) (s : State) : State :=
  match heap s !! i with
  | Some (IWs _) => WebSocketTransport.send i m s
  | Some (IHttp _) => HttpTransport.send i m s
  | Some (INative _) => NativeTransport.send i m s
  | None => s
  end.

Definition disconnectTransport (s : State) : State :=
  let s1 :=
    match transport s with
    | Some i => set_transport None (Transport_disconnect i s)
    | None => s
    end in
  updateBadge Disconnected s1.

(** [transport = new C(arg); transport.connect()]. *)
Definition install (obj : Instance) (s : State) : State :=
  let i := nextId s in
  Transport_connect i
    (set_transport (Some i) (set_heap (<[i := obj]> (heap s)) (bump s))).

Definition connectTransport (s : State) : State :=
  let s1 := disconnectTransport s in
  let tt := settings s1 !! "transportType" in
  if bool_decide (tt = Some (JStr "websocket"))
  then install (IWs (WebSocketTransport.new (settings s1 !! "wsUrl"))) s1
  else if bool_decide (tt = Some (JStr "http"))
  then install (IHttp (HttpTransport.new (settings s1 !! "httpUrl"))) s1
  else if bool_decide (tt = Some (JStr "native"))
  then install (INative (NativeTransport.new (settings s1 !! "nativeHost"))) s1
  else s1.

(** The five comparisons of [updateSettings]. *)
Definition needsReconnect (old new : gmap string jsval) : bool :=
  strict_ne (old !! "transportType") (new !! "transportType") ||
  strict_ne (old !! "wsUrl") (new !! "wsUrl") ||
  strict_ne (old !! "httpUrl") (new !! "httpUrl") ||
  strict_ne (old !! "nativeHost") (new !! "nativeHost") ||
  strict_ne (old !! "enabled") (new !! "enabled").

Definition updateSettings (newSettings : gmap string jsval) (s : State) : State :=
  let changed := needsReconnect (settings s) newSettings in
  let s1 := set_settings (spread (settings s) newSettings) s in
  let s2 := saveSettings s1 in
  if changed
  then
    let s3 := disconnectTransport s2 in
    if truthy (settings s3 !! "enabled") then connectTransport s3 else s3
  else s2.

(** [loadSettings()] from the point where the storage has answered. *)
Definition loadSettings (result : gmap string jsval) (s : State) : State :=
  let s1 := set_settings (spread (settings s) result) s in
  if truthy (settings s1 !! "enabled") then connectTransport s1 else s1.

Definition handleSubtitle (m : message) (s : State) : State :=
  if negb (truthy (settings s !! "enabled")) then s
  else
    match transport s with
    | None => s
    | Some i => Transport_send i m s
    end.

(** [testConnection()] up to its [await]; only a [WebSocketTransport]
    has a [reconnectAttempts] property. *)
Definition testConnection (s : State) : State :=
  let s1 :=
    match transport s with
    | Some i =>
        match WebSocketTransport.this i s with
        | Some w =>
            WebSocketTransport.store i
              (WebSocketTransport.with_reconnectAttempts 0%nat w) s
        | None => s
        end
    | None => s
    end in
  let s2 :=
    match transport s1 with
    | None => connectTransport s1
    | Some _ => connectTransport (disconnectTransport s1)
    end in
  let t := nextId s2 in
  emit (SetTimeout t 1000)
    (set_timers (<[t := TTestWait]> (timers s2)) (bump s2)).

(** [testConnection()] after the pause: it answers with the status. *)
Definition testConnection_callback (s : State) : State :=
  emit (SendResponse (connectionStatus s)) s.

(** ** The callbacks the browser may run *)

Inductive event :=
| LoadSettings (result : gmap string jsval)      (* onInstalled, onStartup *)
| OnSubtitle (payload : string)                  (* message.type 'subtitle' *)
| OnGetStatus
| OnUpdateSettings (newSettings : gmap string jsval)
| OnTestConnection
| SocketOpen (k : nat)
| SocketError (k : nat)
| SocketClose (k : nat)
| TimerFire (t : nat)
| FetchSettled (r : nat) (o : FetchOutcome)
| PortDisconnected (p : nat)
| PortMessage (p : nat).

Definition set_readyState (k : nat) (rs : ReadyState) (s : State) : State :=
  match sockets s !! k with
  | Some sock =>
      set_sockets
        (<[k := {| readyState := rs; sock_owner := sock_owner sock |}]> (sockets s)) s
  | None => s
  end.

(** One turn of the event loop: [None] when the browser cannot deliver
    the event in this state (no such socket, timer, request or port). *)
Definition step (e : event) (s : State) : option State :=
  match e with
  | LoadSettings result => Some (loadSettings result s)
  | OnSubtitle payload => Some (handleSubtitle (MsgSubtitle payload) s)
  | OnGetStatus => Some (emit (SendResponse (connectionStatus s)) s)
  | OnUpdateSettings newSettings => Some (updateSettings newSettings s)
  | OnTestConnection => Some (testConnection s)
  | SocketOpen k =>
      match sockets s !! k with
      | Some sock =>
          if bool_decide (readyState sock = CONNECTING)
          then Some (WebSocketTransport.onopen (sock_owner sock)
                       (set_readyState k OPEN s))
          else None
      | None => None
      end
  | SocketError k =>
      match sockets s !! k with
      | Some sock =>
          if bool_decide (readyState sock = CLOSED)
          then None
          else Some (WebSocketTransport.onerror (sock_owner sock) s)
      | None => None
      end
  | SocketClose k =>
      match sockets s !! k with
      | Some sock =>
          if bool_decide (readyState sock = CLOSED)
          then None
          else Some (WebSocketTransport.onclose (sock_owner sock)
                       (set_readyState k CLOSED s))
      | None => None
      end
  | TimerFire t =>
      match timers s !! t with
      | Some (TReconnect i) =>
          Some (WebSocketTransport.reconnect_callback i
                  (set_timers (delete t (timers s)) s))
      | Some (THeartbeat i) =>
          Some (WebSocketTransport.heartbeat_callback i s)
      | Some (TRetry r) =>
          Some (HttpTransport.retry_callback r
                  (set_timers (delete t (timers s)) s))
      | Some TTestWait =>
          Some (testConnection_callback (set_timers (delete t (timers s)) s))
      | None => None
      end
  | FetchSettled r o =>
      match requests s !! r with
      | Some q =>
          if req_sleeping q then None
          else Some (HttpTransport.resume r o s)
      | None => None
      end
  | PortDisconnected p =>
      if bool_decide (ports s !! p = Some true)
      then Some (NativeTransport.onDisconnect
                   (set_ports (<[p := false]> (ports s)) s))
      else None
  | PortMessage p =>
      if bool_decide (ports s !! p = Some true)
      then Some (NativeTransport.onMessage s)
      else None
  end.

(** A sequence of turns. *)
Fixpoint run (es : list event) (s : State) : option State :=
  match es with
  | [] => Some s
  | e :: es' =>
      match step e s with
      | Some s' => run es' s'
      | None => None
      end
  end.

(** The states the worker can be in. *)
Inductive reachable (P : Platform) : State → Prop :=
| reachable_init : reachable P (init P)
| reachable_step s e s' :
    reachable P s → step e s = Some s' → reachable P s'.

(** ** Observations on the trace *)

(** The statuses published so far, oldest first. *)
Definition published (s : State) : list Status :=
  omap (λ e, match e with Badge st => Some st | _ => None end) (trace s).

Definition count_status (st : Status) (l : list Status) : nat :=
  length (List.filter (λ x, bool_decide (x = st)) l).

(** The number of [fetch] calls made so far by the call [r] of
    [HttpTransport.send]. *)
Definition is_fetch_of (r : nat) (e : effect) : bool :=
  match e with
  | Fetch r' _ _ => Nat.eqb r' r
  | _ => false
  end.

Definition fetches_of (r : nat) (tr : list effect) : nat :=
  length (List.filter (is_fetch_of r) tr).

(** A platform on which every constructor returns. *)
Definition permissive : Platform :=
  {| WebSocket_accepts := λ _, true;
     URL_accepts := λ _, true;
     connectNative_accepts := λ _, true |}.

(** ** What the transports leave alone *)

(** [s'] has the settings and the platform of [s]. *)
Definition same_config (s s' : State) : Prop :=
  settings s' = settings s ∧ platform s' = platform s.

(** [s'] has the active-transport reference of [s]. *)
Definition same_slot (s s' : State) : Prop :=
  transport s' = transport s.

(** No handle that [s] has handed out is handed out again in [s']. *)
Definition grows (s s' : State) : Prop :=
  (nextId s ≤ nextId s')%nat.

(** The calls into the browser that [f] makes when run in [s]. *)
Definition effects_of (f : State → State) (s : State) : list effect :=
  drop (length (trace s)) (trace (f s)).

(** ** Configurations *)

(** The five properties that [updateSettings] compares. *)
Definition compared_fields : list string :=
  ["transportType"; "wsUrl"; "httpUrl"; "nativeHost"; "enabled"].

(** A settings object that carries all five of them. *)
Definition has_compared_fields (m : gmap string jsval) : Prop :=
  Forall (λ k, is_Some (m !! k)) compared_fields.

(** The endpoint that belongs to the selected kind, and the effective
    configuration: kind, that endpoint, and the enabled flag. *)
Definition selected_endpoint (m : gmap string jsval) : option jsval :=
  let tt := m !! "transportType" in
  if bool_decide (tt = Some (JStr "websocket")) then m !! "wsUrl"
  else if bool_decide (tt = Some (JStr "http")) then m !! "httpUrl"
  else if bool_decide (tt = Some (JStr "native")) then m !! "nativeHost"
  else None.

Definition effective_config (m : gmap string jsval)
  : option jsval * option jsval * option jsval :=
  (m !! "transportType", selected_endpoint m, m !! "enabled").

(** The block that [updateSettings] runs when [needsReconnect] holds. *)
Definition teardown_and_reconnect (s : State) : State :=
  let s3 := disconnectTransport s in
  if truthy (settings s3 !! "enabled") then connectTransport s3 else s3.

(** ** An example platform and example runs *)

Definition has_prefix_in (ps : list string) (v : option jsval) : bool :=
  match v with
  | Some (JStr u) => existsb (λ p, String.prefix p u) ps
  | _ => false
  end.

(** An HTTP(S) URI: a string that starts with [http://] or [https://]. *)
Definition is_http_uri (v : option jsval) : bool :=
  has_prefix_in ["http://"; "https://"] v.

(** A platform for the worked examples: [new WebSocket] returns for
    [ws:] and [wss:] URLs and throws otherwise, [new URL] returns for
    strings that start with one of the hierarchical schemes listed and
    throws otherwise, and [connectNative] always returns a port. *)
Definition browser : Platform :=
  {| WebSocket_accepts := has_prefix_in ["ws://"; "wss://"];
     URL_accepts :=
       has_prefix_in ["http://"; "https://"; "ws://"; "wss://"; "ftp://"];
     connectNative_accepts := λ _, true |}.

(** The worker has started with the HTTP transport selected, and the
    three attempts of the first [send] have all been rejected. *)
Definition http_unreachable : list event :=
  [LoadSettings {["transportType" := JStr "http"]};
   FetchSettled 2 FetchRejected; TimerFire 3;
   FetchSettled 2 FetchRejected; TimerFire 4;
   FetchSettled 2 FetchRejected].

(** The worker has started with the default settings: a WebSocket
    transport is active and its socket is connecting. *)
Definition started : list event := [LoadSettings ∅].

(** The default settings with another [httpUrl]. *)
Definition other_httpUrl : gmap string jsval :=
  <["httpUrl" := JStr "http://localhost:9090/subtitle"]> default_settings.

(** The user disables the extension, then presses "Test Connection". *)
Definition disabled_then_tested : list event :=
  [LoadSettings ∅;
   OnUpdateSettings (<["enabled" := JBool false]> default_settings);
   OnTestConnection].

(** ** Well-formed states *)

(** What holds of every state the worker can reach: handles are never
    reused, a pending timer is the one its owner's field names, the
    counters of an instance stay within their caps, and the loop variable
    of a running [send] counts the requests it has issued. *)
Record wf (s : State) : Prop := {
  wf_heap_fresh : ∀ i x, heap s !! i = Some x → (i < nextId s)%nat;
  wf_timers_fresh : ∀ t x, timers s !! t = Some x → (t < nextId s)%nat;
  wf_requests_fresh : ∀ r q, requests s !! r = Some q → (r < nextId s)%nat;
  wf_transport_fresh : ∀ i, transport s = Some i → (i < nextId s)%nat;
  wf_fetch_fresh : ∀ r, (nextId s ≤ r)%nat → fetches_of r (trace s) = 0%nat;
  wf_ws : ∀ i w, heap s !! i = Some (IWs w) →
      maxReconnectAttempts w = 3%nat ∧ maxReconnectDelay w = 30000 ∧
      (reconnectAttempts w ≤ 3)%nat ∧
      (is_Some (reconnectTimeout w) → (reconnectAttempts w < 3)%nat);
  wf_http : ∀ i h, heap s !! i = Some (IHttp h) → maxRetries h = 3%nat;
  wf_reconnect : ∀ t i, timers s !! t = Some (TReconnect i) →
      ∃ w, heap s !! i = Some (IWs w) ∧ reconnectTimeout w = Some t;
  wf_heartbeat : ∀ t i, timers s !! t = Some (THeartbeat i) →
      ∃ w, heap s !! i = Some (IWs w) ∧ heartbeatInterval w = Some t;
  wf_request : ∀ r q, requests s !! r = Some q →
      (∃ h, heap s !! req_this q = Some (IHttp h)) ∧
      (req_attempt q + (if req_sleeping q then 1 else 0) < 3)%nat ∧
      fetches_of r (trace s) = S (req_attempt q);
  wf_finished : ∀ r, requests s !! r = None → (fetches_of r (trace s) ≤ 3)%nat;
  wf_retry : ∀ t r, timers s !! t = Some (TRetry r) →
      ∃ q, requests s !! r = Some q ∧ req_sleeping q = true;
  wf_retry_unique : ∀ t1 t2 r,
      timers s !! t1 = Some (TRetry r) → timers s !! t2 = Some (TRetry r) →
      t1 = t2;
  wf_settings : has_compared_fields (settings s)
}.

(** The instances that the three constructors build. *)
Definition constructed (obj : Instance) : Prop :=
  match obj with
  | IWs w => ∃ url, w = WebSocketTransport.new url
  | IHttp h => ∃ url, h = HttpTransport.new url
  | INative n => True
  end.

(** [this.ws.readyState === WebSocket.OPEN] for the socket [k]. *)
Definition socket_is_open (k : nat) (s : State) : bool :=
  match sockets s !! k with
  | Some sock => bool_decide (readyState sock = OPEN)
  | None => false
  end.

(** The calls that [WebSocketTransport.disconnect] makes on an instance
    with the fields of [w], as its source reads. *)
Definition disconnect_calls (w : WsObject) (s : State) : list effect :=
  match reconnectTimeout w with Some t => [ClearTimeout t] | None => [] end ++
  match heartbeatInterval w with Some t => [ClearInterval t] | None => [] end ++
  match ws_ws w with
  | Some k =>
      (if socket_is_open k s then [WsSend k MsgDisconnected] else []) ++ [WsClose k]
  | None => []
  end ++
  [Badge Disconnected].

(** The fields of an instance on which [disconnect] has run. *)
Definition stopped (w : WsObject) : WsObject :=
  WebSocketTransport.with_ws None
    (WebSocketTransport.with_heartbeatInterval None
       (WebSocketTransport.with_reconnectTimeout None w)).

(** The endpoint refuses the first three connections of the WebSocket
    transport: each attempt ends in an error and a close event, and the
    reconnect timer fires after the first two. *)
Definition refused_three_times : list event :=
  [LoadSettings ∅;
   SocketError 2; SocketClose 2; TimerFire 3;
   SocketError 4; SocketClose 4; TimerFire 5;
   SocketError 6; SocketClose 6].

(** The endpoint keeps refusing: the timer set after the third failure
    fires and the fourth attempt fails too. *)
Definition refused_forever : list event :=
  refused_three_times ++ [TimerFire 7; SocketError 8; SocketClose 8].

(** Events that come from the other parts of the extension rather than
    from a socket, timer, request or port of the worker. *)
Definition external (e : event) : bool :=
  match e with
  | LoadSettings _ | OnSubtitle _ | OnGetStatus
  | OnUpdateSettings _ | OnTestConnection => true
  | _ => false
  end.

(** The HTTP endpoint rejects the first two attempts of the first
    [send] and answers the third. *)
Definition http_third_time_lucky : list event :=
  [LoadSettings {["transportType" := JStr "http"]};
   FetchSettled 2 FetchRejected; TimerFire 3;
   FetchSettled 2 FetchRejected; TimerFire 4;
   FetchSettled 2 ResponseOk].

(** The HTTP endpoint answers every attempt of the first [send] with an
    error status. *)
Definition http_error_responses : list event :=
  [LoadSettings {["transportType" := JStr "http"]};
   FetchSettled 2 ResponseNotOk;
   FetchSettled 2 ResponseNotOk;
   FetchSettled 2 ResponseNotOk].

(** The WebSocket transport is connected; the extension is disabled,
    which releases the instance; then the close event of its socket
    arrives, the timer it sets fires, and the new socket opens. *)
Definition released_instance_revives : list event :=
  [LoadSettings ∅; SocketOpen 2;
   OnUpdateSettings (<["enabled" := JBool false]> default_settings);
   SocketClose 2; TimerFire 4; SocketOpen 5].

(** The same with a change of [wsUrl] instead: a second instance is
    connected, and the released one comes back beside it. *)
Definition two_instances_live : list event :=
  [LoadSettings ∅; SocketOpen 2;
   OnUpdateSettings (<["wsUrl" := JStr "ws://localhost:9000"]> default_settings);
   SocketOpen 5; SocketClose 2; TimerFire 7; SocketOpen 8].

(** The HTTP transport is active and the extension is disabled; the
    request that carries the Disconnected record is then answered. *)
Definition http_answer_after_release : list event :=
  [LoadSettings {["transportType" := JStr "http"]};
   FetchSettled 2 ResponseOk;
   OnUpdateSettings
     (<["enabled" := JBool false]>
        (<["transportType" := JStr "http"]> default_settings));
   FetchSettled 3 ResponseOk].

(** ** Further observations *)

(** [settings.transportType] is one of the three strings that the
    [switch] of [connectTransport] knows. *)
Definition known_type (m : gmap string jsval) : bool :=
  bool_decide (m !! "transportType" = Some (JStr "websocket")) ||
  bool_decide (m !! "transportType" = Some (JStr "http")) ||
  bool_decide (m !! "transportType" = Some (JStr "native")).

(** The status cell holds the status of the last [updateBadge] call, or
    its initial value when there has been none. *)
Definition status_ok (s : State) : Prop :=
  connectionStatus s = default Disconnected (last (published s)).

Definition is_badge (e : effect) : bool :=
  match e with
  | Badge _ => true
  | _ => false
  end.

(** ** The sockets of a WebSocket instance *)

(** [WebSocket.CONNECTING], [OPEN], [CLOSING] and [CLOSED] as numbers:
    the state of a socket only ever grows. *)
Definition rank (r : ReadyState) : nat :=
  match r with
  | CONNECTING => 0
  | OPEN => 1
  | CLOSING => 2
  | CLOSED => 3
  end.

(** The connection bookkeeping of an instance: its [ws],
    [reconnectTimeout] and [reconnectAttempts] fields. *)
Definition ws_view (o : option Instance)
    : option (option nat * option nat * nat) :=
  match o with
  | Some (IWs w) => Some (ws_ws w, reconnectTimeout w, reconnectAttempts w)
  | _ => None
  end.

(** From [a] to [b] a socket keeps its handlers, does not go back, and
    does not open. *)
Definition advance (a b : option Socket) : Prop :=
  match a, b with
  | None, None => True
  | Some x, Some y =>
      sock_owner y = sock_owner x ∧
      (rank (readyState x) ≤ rank (readyState y))%nat ∧
      (readyState y = OPEN → readyState x = OPEN)
  | _, _ => False
  end.

(** [s'] has the sockets of [s], possibly further on, and the same
    connection bookkeeping in every instance. *)
Definition same_sockets (s s' : State) : Prop :=
  (∀ k, advance (sockets s !! k) (sockets s' !! k)) ∧
  (nextId s ≤ nextId s')%nat ∧
  ∀ i, ws_view (heap s' !! i) = ws_view (heap s !! i).

(** Every socket that was created for the instance [i] is closed. *)
Definition idle (i : nat) (s : State) : Prop :=
  ∀ k sock, sockets s !! k = Some sock → sock_owner sock = i →
            readyState sock = CLOSED.

(** The instance [i] has no socket that is connecting or open. *)
Definition offline (i : nat) (s : State) : Prop :=
  ∀ k sock, sockets s !! k = Some sock → sock_owner sock = i →
            (2 ≤ rank (readyState sock))%nat.

(** What [connect] may assume: no socket of the instance is left and no
    reconnection is scheduled. *)
Definition quiet (i : nat) (s : State) : Prop :=
  idle i s ∧ ∀ v t a, ws_view (heap s !! i) = Some (v, t, a) → t = None.

(** How sockets and instances belong together in every state the worker
    can reach. *)
Record sock_ok (s : State) : Prop := {
  sk_fresh : ∀ k sock, sockets s !! k = Some sock →
      (k < nextId s)%nat ∧ (sock_owner sock < nextId s)%nat;
  sk_heap_fresh : ∀ i, is_Some (ws_view (heap s !! i)) → (i < nextId s)%nat;
  sk_mine : ∀ i k t a, ws_view (heap s !! i) = Some (Some k, t, a) →
      ∃ sock, sockets s !! k = Some sock ∧ sock_owner sock = i;
  sk_current : ∀ k sock, sockets s !! k = Some sock →
      (rank (readyState sock) ≤ 1)%nat →
      ∃ t a, ws_view (heap s !! sock_owner sock) = Some (Some k, t, a);
  sk_unique : ∀ k1 k2 a b,
      sockets s !! k1 = Some a → sockets s !! k2 = Some b →
      sock_owner a = sock_owner b →
      readyState a ≠ CLOSED → readyState b ≠ CLOSED → k1 = k2;
  sk_idle : ∀ i v t a, ws_view (heap s !! i) = Some (v, Some t, a) → idle i s;
  sk_open : ∀ k sock, sockets s !! k = Some sock → readyState sock = OPEN →
      ∃ v t, ws_view (heap s !! sock_owner sock) = Some (v, t, 0%nat)
}.

(** [chrome.storage.sync.get(defaults)]: for each key of [defaults] the
    stored value, or the default where nothing is stored. *)
Definition storage_get (defaults stored : gmap string jsval)
    : gmap string jsval :=
  map_imap (λ k d, Some (default d (stored !! k))) defaults.

(** * The settings page

    The script of the options page keeps a [settings] object of its own,
    fills it from the form, validates the endpoint of the selected
    transport, and sends the whole object to the worker. *)

Module OptionsPage.

(** The initial [settings] object of the page. *)
Definition default_settings : gmap string jsval :=
  <["enabled" := JBool true]>
  (<["transportType" := JStr "websocket"]>
  (<["wsUrl" := JStr "ws://localhost:8765"]>
  (<["httpUrl" := JStr "http://localhost:8080/subtitle"]>
  (<["nativeHost" := JStr "com.subtitle.streamer"]> ∅)))).

(** What the form elements hold when a handler runs. *)
Record Form := {
  enabledEl : bool;
  transportTypeEl : string;
  wsUrlEl : string;
  httpUrlEl : string;
  nativeHostEl : string
}.

(** Calls the page makes that leave it. *)
Inductive effect :=
| Alert (msg : string)
| StorageSet (v : gmap string jsval)
| SendUpdateSettings (v : gmap string jsval)
| SendGetStatus.

(** The page's [settings] variable, the calls made so far, and how
    many calls of [saveSettings] wait at each of its first two
    [await]s. *)
Record State := {
  settings : gmap string jsval;
  log : list effect;
  awaiting_storage : nat;
  awaiting_reply : nat
}.

Definition init : State :=
  {| settings := default_settings; log := [];
     awaiting_storage := 0; awaiting_reply := 0 |}.

Definition assign (k : string) (v : jsval) (st : State) : State :=
  {| settings := <[k := v]> (settings st); log := log st;
     awaiting_storage := awaiting_storage st;
     awaiting_reply := awaiting_reply st |}.

Definition emit (e : effect) (st : State) : State :=
  {| settings := settings st; log := log st ++ [e];
     awaiting_storage := awaiting_storage st;
     awaiting_reply := awaiting_reply st |}.

(** [loadSettings()] once the storage has answered. *)
Definition loadSettings (result : gmap string jsval) (st : State) : State :=
  {| settings := spread (settings st) result; log := log st;
     awaiting_storage := awaiting_storage st;
     awaiting_reply := awaiting_reply st |}.

(** [saveSettings()] up to [await chrome.storage.sync.set(settings)]. *)
Definition saveSettings (st : State) : State :=
  let st1 := emit (StorageSet (settings st)) st in
  {| settings := settings st1; log := log st1;
     awaiting_storage := S (awaiting_storage st1);
     awaiting_reply := awaiting_reply st1 |}.

(** [saveSettings()] from the answer of the storage up to
    [await chrome.runtime.sendMessage(...)]: the message holds the
    [settings] variable as it is now.  A rejection goes to [catch]. *)
Definition saveSettings_stored (ok : bool) (st : State) : option State :=
  match awaiting_storage st with
  | O => None
  | S n =>
      let st1 := {| settings := settings st; log := log st;
                    awaiting_storage := n;
                    awaiting_reply := awaiting_reply st |} in
      if ok then
        let st2 := emit (SendUpdateSettings (settings st1)) st1 in
        Some {| settings := settings st2; log := log st2;
                awaiting_storage := awaiting_storage st2;
                awaiting_reply := S (awaiting_reply st2) |}
      else Some st1
  end.

(** [saveSettings()] from the worker's answer on: [updateStatus()]. *)
Definition saveSettings_replied (ok : bool) (st : State) : option State :=
  match awaiting_reply st with
  | O => None
  | S n =>
      let st1 := {| settings := settings st; log := log st;
                    awaiting_storage := awaiting_storage st;
                    awaiting_reply := n |} in
      Some (if ok then emit SendGetStatus st1 else st1)
  end.

Definition handleEnabledChange (f : Form) (st : State) : State :=
  saveSettings (assign "enabled" (JBool (enabledEl f)) st).

Definition handleTransportTypeChange (f : Form) (st : State) : State :=
  assign "transportType" (JStr (transportTypeEl f)) st.

Section WithTrim.

(** [String.prototype.trim]. *)
Variable trim : string → string.

(** The first five assignments of [handleSave]. *)
Definition read_form (f : Form) (st : State) : State :=
  assign "nativeHost" (JStr (trim (nativeHostEl f)))
    (assign "httpUrl" (JStr (trim (httpUrlEl f)))
       (assign "wsUrl" (JStr (trim (wsUrlEl f)))
          (assign "transportType" (JStr (transportTypeEl f))
             (assign "enabled" (JBool (enabledEl f)) st)))).

(** The message of the alert that stops [handleSave], if any. *)
Definition complaint (f : Form) : option string :=
  if String.eqb (transportTypeEl f) "websocket" then
    if negb (String.prefix "ws://" (trim (wsUrlEl f))) &&
       negb (String.prefix "wss://" (trim (wsUrlEl f)))
    then Some "WebSocket URL must start with ws:// or wss://"
    else None
  else if String.eqb (transportTypeEl f) "http" then
    if negb (String.prefix "http://" (trim (httpUrlEl f))) &&
       negb (String.prefix "https://" (trim (httpUrlEl f)))
    then Some "HTTP URL must start with http:// or https://"
    else None
  else if String.eqb (transportTypeEl f) "native" then
    if String.eqb (trim (nativeHostEl f)) EmptyString
    then Some "Native host name is required"
    else None
  else None.

(** [handleSave()] up to [await saveSettings()]. *)
Definition handleSave (f : Form) (st : State) : State :=
  let st1 := read_form f st in
  match complaint f with
  | Some msg => emit (Alert msg) st1
  | None => saveSettings st1
  end.

(** What the user and the browser may do.  Each handler runs to its
    next [await]; the answers arrive as events of their own, so other
    handlers may run in between. *)
Inductive event :=
| Loaded (result : gmap string jsval)
| EnabledChanged (f : Form)
| TransportTypeChanged (f : Form)
| SaveClicked (f : Form)
| StorageAnswered (ok : bool)
| WorkerAnswered (ok : bool).

Definition step (e : event) (st : State) : option State :=
  match e with
  | Loaded result => Some (loadSettings result st)
  | EnabledChanged f => Some (handleEnabledChange f st)
  | TransportTypeChanged f => Some (handleTransportTypeChange f st)
  | SaveClicked f => Some (handleSave f st)
  | StorageAnswered ok => saveSettings_stored ok st
  | WorkerAnswered ok => saveSettings_replied ok st
  end.

Fixpoint run (es : list event) (st : State) : option State :=
  match es with
  | [] => Some st
  | e :: es' =>
      match step e st with
      | Some st' => run es' st'
      | None => None
      end
  end.

(** The endpoint of the selected transport in a settings object passes
    the test that [handleSave] applies. *)
Definition endpoint_checked (m : gmap string jsval) : Prop :=
  match m !! "transportType" with
  | Some (JStr t) =>
      if String.eqb t "websocket" then
        ∃ u, m !! "wsUrl" = Some (JStr u) ∧
             (String.prefix "ws://" u || String.prefix "wss://" u) = true
      else if String.eqb t "http" then
        ∃ u, m !! "httpUrl" = Some (JStr u) ∧
             (String.prefix "http://" u || String.prefix "https://" u) = true
      else if String.eqb t "native" then
        ∃ u, m !! "nativeHost" = Some (JStr u) ∧ u ≠ EmptyString
      else True
  | _ => True
  end.

End WithTrim.

End OptionsPage.

(** All five compared properties are in the page's settings and in
    every object sent so far. *)
Definition page_complete (st : OptionsPage.State) : Prop :=
  has_compared_fields (OptionsPage.settings st) ∧
  ∀ v, OptionsPage.SendUpdateSettings v ∈ OptionsPage.log st →
       has_compared_fields v.

(** * The content script

    [content.js] watches the subtitle containers of the page and hands
    each new subtitle text to the background worker.  What the DOM and
    the clock return is an input of the callback; the built-ins whose
    result the code only passes on are parameters. *)

Module ContentScript.

Section WithBuiltins.

(** [String.prototype.trim], [parseInt(_, 10)] ([None] is NaN), the
    object that [getVideoContext] returns,
    [Math.floor(videoContext.currentTime * 1000)], and [+] on two
    numbers of integral value, which rounds once the sum leaves the
    range that doubles represent exactly. *)
Variable trim : string → string.
Variable parseInt10 : string → option Z.
Context {VideoContext : Type}.
Variable floor_ms : VideoContext → Z.
Variable double_add : Z → Z → Z.

Definition DEBOUNCE_MS : Z := 50.

(** A [span[data-track]] element: its text and its [data-track]. *)
Record Span := {
  textContent : string;
  dataset_track : string
}.

Record Line := {
  line_text : string;
  line_track : option Z
}.

(** The message that [sendSubtitle] builds. *)
Record SubtitleMessage := {
  msg_timestamp : Z;
  msg_video : VideoContext;
  msg_text : string;
  msg_lines : list Line;
  msg_start : Z;
  msg_end : Z
}.

(** The variables of the script that [handleSubtitleChange] uses. *)
Record State := {
  currentSubtitle : string;
  lastSentTime : Z
}.

Definition init : State :=
  {| currentSubtitle := EmptyString; lastSentTime := 0 |}.

(** One call of the mutation callback: the spans of the container that
    [closest] found ([None] when it found none), the two readings of
    [Date.now()], and the video context. *)
Record Mutation := {
  mut_container : option (list Span);
  mut_now : Z;
  mut_video : VideoContext;
  mut_stamp : Z
}.

Definition newline : string := String (Ascii.ascii_of_nat 10) EmptyString.

(** [{ text: span.textContent.trim(),
       track: parseInt(span.dataset.track || '0', 10) }]. *)
Definition line_of (sp : Span) : Line :=
  {| line_text := trim (textContent sp);
     line_track :=
       parseInt10 (if String.eqb (dataset_track sp) EmptyString
                   then "0" else dataset_track sp) |}.

(** [lines.map(l => l.text).join('\n')]. *)
Definition joined (lines : list Line) : string :=
  String.concat newline (map line_text lines).

Definition sendSubtitle (text : string) (lines : list Line)
    (video : VideoContext) (stamp : Z) : SubtitleMessage :=
  {| msg_timestamp := stamp; msg_video := video;
     msg_text := text; msg_lines := lines;
     msg_start := floor_ms video;
     msg_end := double_add (floor_ms video) 2000 |}.

(** [handleSubtitleChange(mutations)]: the new state and the message
    handed to [chrome.runtime.sendMessage], if any. *)
Definition handleSubtitleChange (m : Mutation) (st : State)
    : State * option SubtitleMessage :=
  match mut_container m with
  | None => (st, None)
  | Some spans =>
      let lines := map line_of spans in
      let text := joined lines in
      if String.eqb text (currentSubtitle st) ||
         (mut_now m - lastSentTime st <? DEBOUNCE_MS)
      then (st, None)
      else
        let st' := {| currentSubtitle := text; lastSentTime := mut_now m |} in
        if negb (String.eqb text EmptyString)
        then (st', Some (sendSubtitle text lines (mut_video m) (mut_stamp m)))
        else (st', None)
  end.

(** A sequence of callbacks: the final state and, oldest first, the
    messages sent, each with the clock reading of the callback that
    sent it. *)
Fixpoint observe (ms : list Mutation) (st : State)
    : State * list (Z * SubtitleMessage) :=
  match ms with
  | [] => (st, [])
  | m :: ms' =>
      let '(st1, out) := handleSubtitleChange m st in
      let '(st2, rest) := observe ms' st1 in
      (st2, match out with
            | Some msg => (mut_now m, msg) :: rest
            | None => rest
            end)
  end.

(** Consecutive entries are at least [d] apart. *)
Fixpoint spaced (d : Z) (l : list (Z * SubtitleMessage)) : Prop :=
  match l with
  | [] => True
  | (t1, _) :: rest =>
      match rest with
      | [] => True
      | (t2, _) :: _ => t1 + d ≤ t2
      end ∧ spaced d rest
  end.

End WithBuiltins.

End ContentScript.

(** The native transport is connected and the host closes the port. *)
Definition native_closed_by_host : list event :=
  [LoadSettings {["transportType" := JStr "native"]}; PortDisconnected 2].

(** The HTTP transport is replaced by the native one, the host closes
    the port, and then the first request of the HTTP instance is
    answered, which publishes Connected. *)
Definition native_closed_then_connected : list event :=
  [LoadSettings {["transportType" := JStr "http"]};
   OnUpdateSettings (<["transportType" := JStr "native"]> default_settings);
   PortDisconnected 5;
   FetchSettled 2 ResponseOk].

(** ** Reconfiguration and reconnection: what is observed *)

(** The kind of an instance and the endpoint its constructor was
    given. *)
Definition kind_of (obj : Instance) : string :=
  match obj with
  | IWs _ => "websocket"
  | IHttp _ => "http"
  | INative _ => "native"
  end.

Definition endpoint_of (obj : Instance) : option jsval :=
  match obj with
  | IWs w => ws_url w
  | IHttp h => http_url h
  | INative n => hostName n
  end.

(** [s'] has the calls of [s] and possibly more after them. *)
Definition extends (s s' : State) : Prop :=
  ∃ l, trace s' = trace s ++ l.

(** The reconnection counter of an instance that has one. *)
Definition attempts_of (o : option Instance) : option nat :=
  match o with
  | Some (IWs w) => Some (reconnectAttempts w)
  | _ => None
  end.

(** How often Connecting has been published. *)
Definition connecting (s : State) : nat :=
  count_status Connecting (published s).

Definition is_connecting (e : effect) : bool :=
  match e with
  | Badge Connecting => true
  | _ => false
  end.

(** [s'] has published Connecting as often as [s], and every instance
    has the reconnection counter it has in [s]. *)
Definition steady (s s' : State) : Prop :=
  connecting s' = connecting s ∧
  ∀ i, attempts_of (heap s' !! i) = attempts_of (heap s !! i).

(** At most one WebSocket instance has been created. *)
Definition single_ws (s : State) : Prop :=
  ∀ i j a b, attempts_of (heap s !! i) = Some a →
             attempts_of (heap s !! j) = Some b → i = j.

(** The events of a worker whose endpoint accepts no connection and
    which nobody reconfigures or tests: everything but an open event,
    a load or update of the settings, and "Test Connection". *)
Definition refusing (e : event) : bool :=
  match e with
  | SocketOpen _ | LoadSettings _ | OnUpdateSettings _ | OnTestConnection => false
  | _ => true
  end.

(** The connection opens, is lost, and the endpoint refuses every
    reconnection. *)
Definition lost_then_refused : list event :=
  [LoadSettings ∅; SocketOpen 2; SocketClose 2;
   TimerFire 4; SocketError 5; SocketClose 5;
   TimerFire 6; SocketError 7; SocketClose 7;
   TimerFire 8; SocketError 9; SocketClose 9].

(** In [s] Connecting has been published [c0 - a0] times more often
    than the one WebSocket instance has reconnected. *)
Definition counted (a0 c0 : nat) (s : State) : Prop :=
  (∀ i a, attempts_of (heap s !! i) = Some a →
          (connecting s + a0 = c0 + a)%nat) ∧
  single_ws s ∧
  ((∀ i, attempts_of (heap s !! i) = None) → (connecting s + a0 ≤ c0)%nat).

(** * Properties *)

(** ** The reconnection delay *)

Section ReconnectionPolicy.

Import WebSocketTransport.

Lemma delay_le_cap attempts cap : delay attempts cap ≤ cap.
Proof. unfold delay. lia. Qed.

Lemma delay_mono m n cap : (m ≤ n)%nat → delay m cap ≤ delay n cap.
Proof.
  intros Hmn. unfold delay.
  assert (2 ^ Z.of_nat m ≤ 2 ^ Z.of_nat n) by (apply Z.pow_le_mono_r; lia).
  lia.
Qed.

(** The delay that [scheduleReconnect] hands to [setTimeout] is the
    policy applied to the fields of the instance. *)
Lemma scheduleReconnect_delay i s w :
  this i s = Some w →
  reconnectTimeout w = None →
  (reconnectAttempts w < maxReconnectAttempts w)%nat →
  trace (scheduleReconnect i s) =
    (trace s ++
     [SetTimeout (nextId s) (delay (reconnectAttempts w) (maxReconnectDelay w))])%list.
Proof.
  intros Hi Ht Ha. unfold scheduleReconnect. rewrite Hi, Ht.
  destruct (Nat.leb_spec (maxReconnectAttempts w) (reconnectAttempts w)); [lia|].
  reflexivity.
Qed.

End ReconnectionPolicy.

(** C5. The reconnection delay computed by [scheduleReconnect] is
    min(1000 * 2^attempt, 30000) milliseconds for an instance as its
    constructor builds it; it is non-decreasing in the attempt count,
    never above 30000, and is 1000, 2000 and 4000 for the attempts 0, 1
    and 2. *)
Theorem C5_reconnection_delay :
  let cap := maxReconnectDelay (WebSocketTransport.new None) in
  (∀ attempt : nat,
     WebSocketTransport.delay attempt cap = Z.min (1000 * 2 ^ Z.of_nat attempt) 30000) ∧
  (∀ m n : nat, (m ≤ n)%nat →
     WebSocketTransport.delay m cap ≤ WebSocketTransport.delay n cap) ∧
  (∀ n : nat, WebSocketTransport.delay n cap ≤ 30000) ∧
  WebSocketTransport.delay 0 cap = 1000 ∧
  WebSocketTransport.delay 1 cap = 2000 ∧
  WebSocketTransport.delay 2 cap = 4000.
Proof.
  simpl. split_and!; try reflexivity.
  - intros m n Hmn. by apply delay_mono.
  - intros n. apply delay_le_cap.
Qed.

Lemma C5_reconnection_delay_witness :
  WebSocketTransport.delay 1 30000 ≤ WebSocketTransport.delay 7 30000.
Proof.
  apply (proj1 (proj2 C5_reconnection_delay) 1%nat 7%nat). lia.
Defined.

(** ** What the transports leave alone: frame lemmas *)

#[local] Instance same_config_preorder : PreOrder same_config.
Proof.
  split.
  - by intros s.
  - intros s1 s2 s3 [? ?] [? ?]. split; congruence.
Qed.

#[local] Instance same_slot_preorder : PreOrder same_slot.
Proof.
  split.
  - by intros s.
  - intros s1 s2 s3 ? ?. unfold same_slot in *. congruence.
Qed.

#[local] Instance grows_preorder : PreOrder grows.
Proof.
  split.
  - intros s. unfold grows. lia.
  - intros s1 s2 s3 ? ?. unfold grows in *. lia.
Qed.

Create HintDb frame discriminated.

Ltac frame_step :=
  match goal with
  | |- _ ?s ?s => reflexivity
  | |- _ _ (match ?x with _ => _ end) => destruct x eqn:?
  | |- _ _ (if ?x then _ else _) => destruct x eqn:?
  | |- _ ?s (?f _ _ _ ?s') => transitivity s'; [| solve [eauto with frame]]
  | |- _ ?s (?f _ _ ?s') => transitivity s'; [| solve [eauto with frame]]
  | |- _ ?s (?f _ ?s') => transitivity s'; [| solve [eauto with frame]]
  | |- _ ?s (?f ?s') => transitivity s'; [| solve [eauto with frame]]
  end.

Ltac frame_tac := cbv zeta; repeat frame_step; eauto with frame.

Ltac frame_prim := first [done | unfold grows; simpl; lia].

Lemma same_config_set_connectionStatus v s : same_config s (set_connectionStatus v s).
Proof. frame_prim. Qed.
#[local] Hint Resolve same_config_set_connectionStatus : frame.

Lemma same_config_set_heap v s : same_config s (set_heap v s).
Proof. frame_prim. Qed.
#[local] Hint Resolve same_config_set_heap : frame.

Lemma same_config_set_sockets v s : same_config s (set_sockets v s).
Proof. frame_prim. Qed.
#[local] Hint Resolve same_config_set_sockets : frame.

Lemma same_config_set_ports v s : same_config s (set_ports v s).
Proof. frame_prim. Qed.
#[local] Hint Resolve same_config_set_ports : frame.

Lemma same_config_set_timers v s : same_config s (set_timers v s).
Proof. frame_prim. Qed.
#[local] Hint Resolve same_config_set_timers : frame.

Lemma same_config_set_requests v s : same_config s (set_requests v s).
Proof. frame_prim. Qed.
#[local] Hint Resolve same_config_set_requests : frame.

Lemma same_config_bump s : same_config s (bump s).
Proof. frame_prim. Qed.
#[local] Hint Resolve same_config_bump : frame.

Lemma same_config_emit e s : same_config s (emit e s).
Proof. frame_prim. Qed.
#[local] Hint Resolve same_config_emit : frame.

Lemma same_config_updateBadge st s : same_config s (updateBadge st s).
Proof. frame_prim. Qed.
#[local] Hint Resolve same_config_updateBadge : frame.

Lemma same_config_ws_store i w s : same_config s (WebSocketTransport.store i w s).
Proof. frame_prim. Qed.
#[local] Hint Resolve same_config_ws_store : frame.

Lemma same_config_native_store i n s : same_config s (NativeTransport.store i n s).
Proof. frame_prim. Qed.
#[local] Hint Resolve same_config_native_store : frame.

Lemma same_config_ws_send i m s : same_config s (WebSocketTransport.send i m s).
Proof. unfold WebSocketTransport.send. frame_tac. Qed.
#[local] Hint Resolve same_config_ws_send : frame.

Lemma same_config_ws_stopHeartbeat i s : same_config s (WebSocketTransport.stopHeartbeat i s).
Proof. unfold WebSocketTransport.stopHeartbeat. frame_tac. Qed.
#[local] Hint Resolve same_config_ws_stopHeartbeat : frame.

Lemma same_config_ws_startHeartbeat i s : same_config s (WebSocketTransport.startHeartbeat i s).
Proof. unfold WebSocketTransport.startHeartbeat. frame_tac. Qed.
#[local] Hint Resolve same_config_ws_startHeartbeat : frame.

Lemma same_config_ws_scheduleReconnect i s : same_config s (WebSocketTransport.scheduleReconnect i s).
Proof. unfold WebSocketTransport.scheduleReconnect. frame_tac. Qed.
#[local] Hint Resolve same_config_ws_scheduleReconnect : frame.

Lemma same_config_ws_connect i s : same_config s (WebSocketTransport.connect i s).
Proof. unfold WebSocketTransport.connect. frame_tac. Qed.
#[local] Hint Resolve same_config_ws_connect : frame.

Lemma same_config_ws_onopen i s : same_config s (WebSocketTransport.onopen i s).
Proof. unfold WebSocketTransport.onopen. frame_tac. Qed.
#[local] Hint Resolve same_config_ws_onopen : frame.

Lemma same_config_ws_onclose i s : same_config s (WebSocketTransport.onclose i s).
Proof. unfold WebSocketTransport.onclose. frame_tac. Qed.
#[local] Hint Resolve same_config_ws_onclose : frame.

Lemma same_config_ws_onerror i s : same_config s (WebSocketTransport.onerror i s).
Proof. unfold WebSocketTransport.onerror. frame_tac. Qed.
#[local] Hint Resolve same_config_ws_onerror : frame.

Lemma same_config_ws_socket_close k s : same_config s (WebSocketTransport.socket_close k s).
Proof. unfold WebSocketTransport.socket_close. frame_tac. Qed.
#[local] Hint Resolve same_config_ws_socket_close : frame.

Lemma same_config_ws_disconnect i s : same_config s (WebSocketTransport.disconnect i s).
Proof. unfold WebSocketTransport.disconnect. frame_tac. Qed.
#[local] Hint Resolve same_config_ws_disconnect : frame.

Lemma same_config_ws_reconnect_callback i s : same_config s (WebSocketTransport.reconnect_callback i s).
Proof. unfold WebSocketTransport.reconnect_callback. frame_tac. Qed.
#[local] Hint Resolve same_config_ws_reconnect_callback : frame.

Lemma same_config_ws_heartbeat_callback i s : same_config s (WebSocketTransport.heartbeat_callback i s).
Proof. unfold WebSocketTransport.heartbeat_callback. frame_tac. Qed.
#[local] Hint Resolve same_config_ws_heartbeat_callback : frame.

Lemma same_config_http_loop r a s : same_config s (HttpTransport.loop r a s).
Proof. unfold HttpTransport.loop. frame_tac. Qed.
#[local] Hint Resolve same_config_http_loop : frame.

Lemma same_config_http_send i m s : same_config s (HttpTransport.send i m s).
Proof. unfold HttpTransport.send. frame_tac. Qed.
#[local] Hint Resolve same_config_http_send : frame.

Lemma same_config_http_resume r o s : same_config s (HttpTransport.resume r o s).
Proof. unfold HttpTransport.resume. frame_tac. Qed.
#[local] Hint Resolve same_config_http_resume : frame.

Lemma same_config_http_retry_callback r s : same_config s (HttpTransport.retry_callback r s).
Proof. unfold HttpTransport.retry_callback. frame_tac. Qed.
#[local] Hint Resolve same_config_http_retry_callback : frame.

Lemma same_config_http_connect i s : same_config s (HttpTransport.connect i s).
Proof. unfold HttpTransport.connect. frame_tac. Qed.
#[local] Hint Resolve same_config_http_connect : frame.

Lemma same_config_http_disconnect i s : same_config s (HttpTransport.disconnect i s).
Proof. unfold HttpTransport.disconnect. frame_tac. Qed.
#[local] Hint Resolve same_config_http_disconnect : frame.

Lemma same_config_native_send i m s : same_config s (NativeTransport.send i m s).
Proof. unfold NativeTransport.send. frame_tac. Qed.
#[local] Hint Resolve same_config_native_send : frame.

Lemma same_config_native_connect i s : same_config s (NativeTransport.connect i s).
Proof. unfold NativeTransport.connect. frame_tac. Qed.
#[local] Hint Resolve same_config_native_connect : frame.

Lemma same_config_native_disconnect i s : same_config s (NativeTransport.disconnect i s).
Proof. unfold NativeTransport.disconnect. frame_tac. Qed.
#[local] Hint Resolve same_config_native_disconnect : frame.

Lemma same_config_Transport_connect i s : same_config s (Transport_connect i s).
Proof. unfold Transport_connect. frame_tac. Qed.
#[local] Hint Resolve same_config_Transport_connect : frame.

Lemma same_config_Transport_disconnect i s : same_config s (Transport_disconnect i s).
Proof. unfold Transport_disconnect. frame_tac. Qed.
#[local] Hint Resolve same_config_Transport_disconnect : frame.

Lemma same_config_Transport_send i m s : same_config s (Transport_send i m s).
Proof. unfold Transport_send. frame_tac. Qed.
#[local] Hint Resolve same_config_Transport_send : frame.

Lemma same_config_set_readyState k rs s : same_config s (set_readyState k rs s).
Proof. unfold set_readyState. frame_tac. Qed.
#[local] Hint Resolve same_config_set_readyState : frame.

Lemma same_config_set_transport v s : same_config s (set_transport v s).
Proof. frame_prim. Qed.
#[local] Hint Resolve same_config_set_transport : frame.

Lemma same_config_disconnectTransport s : same_config s (disconnectTransport s).
Proof. unfold disconnectTransport. frame_tac. Qed.
#[local] Hint Resolve same_config_disconnectTransport : frame.

Lemma same_config_install obj s : same_config s (install obj s).
Proof. unfold install. frame_tac. Qed.
#[local] Hint Resolve same_config_install : frame.

Lemma same_config_connectTransport s : same_config s (connectTransport s).
Proof. unfold connectTransport. frame_tac. Qed.
#[local] Hint Resolve same_config_connectTransport : frame.

Lemma same_config_handleSubtitle m s : same_config s (handleSubtitle m s).
Proof. unfold handleSubtitle. frame_tac. Qed.
#[local] Hint Resolve same_config_handleSubtitle : frame.

Lemma same_config_testConnection s : same_config s (testConnection s).
Proof. unfold testConnection. frame_tac. Qed.
#[local] Hint Resolve same_config_testConnection : frame.

Lemma same_config_testConnection_callback s : same_config s (testConnection_callback s).
Proof. unfold testConnection_callback. frame_tac. Qed.
#[local] Hint Resolve same_config_testConnection_callback : frame.


Lemma same_slot_set_connectionStatus v s : same_slot s (set_connectionStatus v s).
Proof. frame_prim. Qed.
#[local] Hint Resolve same_slot_set_connectionStatus : frame.

Lemma same_slot_set_heap v s : same_slot s (set_heap v s).
Proof. frame_prim. Qed.
#[local] Hint Resolve same_slot_set_heap : frame.

Lemma same_slot_set_sockets v s : same_slot s (set_sockets v s).
Proof. frame_prim. Qed.
#[local] Hint Resolve same_slot_set_sockets : frame.

Lemma same_slot_set_ports v s : same_slot s (set_ports v s).
Proof. frame_prim. Qed.
#[local] Hint Resolve same_slot_set_ports : frame.

Lemma same_slot_set_timers v s : same_slot s (set_timers v s).
Proof. frame_prim. Qed.
#[local] Hint Resolve same_slot_set_timers : frame.

Lemma same_slot_set_requests v s : same_slot s (set_requests v s).
Proof. frame_prim. Qed.
#[local] Hint Resolve same_slot_set_requests : frame.

Lemma same_slot_bump s : same_slot s (bump s).
Proof. frame_prim. Qed.
#[local] Hint Resolve same_slot_bump : frame.

Lemma same_slot_emit e s : same_slot s (emit e s).
Proof. frame_prim. Qed.
#[local] Hint Resolve same_slot_emit : frame.

Lemma same_slot_updateBadge st s : same_slot s (updateBadge st s).
Proof. frame_prim. Qed.
#[local] Hint Resolve same_slot_updateBadge : frame.

Lemma same_slot_ws_store i w s : same_slot s (WebSocketTransport.store i w s).
Proof. frame_prim. Qed.
#[local] Hint Resolve same_slot_ws_store : frame.

Lemma same_slot_native_store i n s : same_slot s (NativeTransport.store i n s).
Proof. frame_prim. Qed.
#[local] Hint Resolve same_slot_native_store : frame.

Lemma same_slot_ws_send i m s : same_slot s (WebSocketTransport.send i m s).
Proof. unfold WebSocketTransport.send. frame_tac. Qed.
#[local] Hint Resolve same_slot_ws_send : frame.

Lemma same_slot_ws_stopHeartbeat i s : same_slot s (WebSocketTransport.stopHeartbeat i s).
Proof. unfold WebSocketTransport.stopHeartbeat. frame_tac. Qed.
#[local] Hint Resolve same_slot_ws_stopHeartbeat : frame.

Lemma same_slot_ws_startHeartbeat i s : same_slot s (WebSocketTransport.startHeartbeat i s).
Proof. unfold WebSocketTransport.startHeartbeat. frame_tac. Qed.
#[local] Hint Resolve same_slot_ws_startHeartbeat : frame.

Lemma same_slot_ws_scheduleReconnect i s : same_slot s (WebSocketTransport.scheduleReconnect i s).
Proof. unfold WebSocketTransport.scheduleReconnect. frame_tac. Qed.
#[local] Hint Resolve same_slot_ws_scheduleReconnect : frame.

Lemma same_slot_ws_connect i s : same_slot s (WebSocketTransport.connect i s).
Proof. unfold WebSocketTransport.connect. frame_tac. Qed.
#[local] Hint Resolve same_slot_ws_connect : frame.

Lemma same_slot_ws_onopen i s : same_slot s (WebSocketTransport.onopen i s).
Proof. unfold WebSocketTransport.onopen. frame_tac. Qed.
#[local] Hint Resolve same_slot_ws_onopen : frame.

Lemma same_slot_ws_onclose i s : same_slot s (WebSocketTransport.onclose i s).
Proof. unfold WebSocketTransport.onclose. frame_tac. Qed.
#[local] Hint Resolve same_slot_ws_onclose : frame.

Lemma same_slot_ws_onerror i s : same_slot s (WebSocketTransport.onerror i s).
Proof. unfold WebSocketTransport.onerror. frame_tac. Qed.
#[local] Hint Resolve same_slot_ws_onerror : frame.

Lemma same_slot_ws_socket_close k s : same_slot s (WebSocketTransport.socket_close k s).
Proof. unfold WebSocketTransport.socket_close. frame_tac. Qed.
#[local] Hint Resolve same_slot_ws_socket_close : frame.

Lemma same_slot_ws_disconnect i s : same_slot s (WebSocketTransport.disconnect i s).
Proof. unfold WebSocketTransport.disconnect. frame_tac. Qed.
#[local] Hint Resolve same_slot_ws_disconnect : frame.

Lemma same_slot_ws_reconnect_callback i s : same_slot s (WebSocketTransport.reconnect_callback i s).
Proof. unfold WebSocketTransport.reconnect_callback. frame_tac. Qed.
#[local] Hint Resolve same_slot_ws_reconnect_callback : frame.

Lemma same_slot_ws_heartbeat_callback i s : same_slot s (WebSocketTransport.heartbeat_callback i s).
Proof. unfold WebSocketTransport.heartbeat_callback. frame_tac. Qed.
#[local] Hint Resolve same_slot_ws_heartbeat_callback : frame.

Lemma same_slot_http_loop r a s : same_slot s (HttpTransport.loop r a s).
Proof. unfold HttpTransport.loop. frame_tac. Qed.
#[local] Hint Resolve same_slot_http_loop : frame.

Lemma same_slot_http_send i m s : same_slot s (HttpTransport.send i m s).
Proof. unfold HttpTransport.send. frame_tac. Qed.
#[local] Hint Resolve same_slot_http_send : frame.

Lemma same_slot_http_resume r o s : same_slot s (HttpTransport.resume r o s).
Proof. unfold HttpTransport.resume. frame_tac. Qed.
#[local] Hint Resolve same_slot_http_resume : frame.

Lemma same_slot_http_retry_callback r s : same_slot s (HttpTransport.retry_callback r s).
Proof. unfold HttpTransport.retry_callback. frame_tac. Qed.
#[local] Hint Resolve same_slot_http_retry_callback : frame.

Lemma same_slot_http_connect i s : same_slot s (HttpTransport.connect i s).
Proof. unfold HttpTransport.connect. frame_tac. Qed.
#[local] Hint Resolve same_slot_http_connect : frame.

Lemma same_slot_http_disconnect i s : same_slot s (HttpTransport.disconnect i s).
Proof. unfold HttpTransport.disconnect. frame_tac. Qed.
#[local] Hint Resolve same_slot_http_disconnect : frame.

Lemma same_slot_native_send i m s : same_slot s (NativeTransport.send i m s).
Proof. unfold NativeTransport.send. frame_tac. Qed.
#[local] Hint Resolve same_slot_native_send : frame.

Lemma same_slot_native_connect i s : same_slot s (NativeTransport.connect i s).
Proof. unfold NativeTransport.connect. frame_tac. Qed.
#[local] Hint Resolve same_slot_native_connect : frame.

Lemma same_slot_native_disconnect i s : same_slot s (NativeTransport.disconnect i s).
Proof. unfold NativeTransport.disconnect. frame_tac. Qed.
#[local] Hint Resolve same_slot_native_disconnect : frame.

Lemma same_slot_Transport_connect i s : same_slot s (Transport_connect i s).
Proof. unfold Transport_connect. frame_tac. Qed.
#[local] Hint Resolve same_slot_Transport_connect : frame.

Lemma same_slot_Transport_disconnect i s : same_slot s (Transport_disconnect i s).
Proof. unfold Transport_disconnect. frame_tac. Qed.
#[local] Hint Resolve same_slot_Transport_disconnect : frame.

Lemma same_slot_Transport_send i m s : same_slot s (Transport_send i m s).
Proof. unfold Transport_send. frame_tac. Qed.
#[local] Hint Resolve same_slot_Transport_send : frame.

Lemma same_slot_set_readyState k rs s : same_slot s (set_readyState k rs s).
Proof. unfold set_readyState. frame_tac. Qed.
#[local] Hint Resolve same_slot_set_readyState : frame.

Lemma same_slot_handleSubtitle m s : same_slot s (handleSubtitle m s).
Proof. unfold handleSubtitle. frame_tac. Qed.
#[local] Hint Resolve same_slot_handleSubtitle : frame.


Lemma grows_set_connectionStatus v s : grows s (set_connectionStatus v s).
Proof. frame_prim. Qed.
#[local] Hint Resolve grows_set_connectionStatus : frame.

Lemma grows_set_heap v s : grows s (set_heap v s).
Proof. frame_prim. Qed.
#[local] Hint Resolve grows_set_heap : frame.

Lemma grows_set_sockets v s : grows s (set_sockets v s).
Proof. frame_prim. Qed.
#[local] Hint Resolve grows_set_sockets : frame.

Lemma grows_set_ports v s : grows s (set_ports v s).
Proof. frame_prim. Qed.
#[local] Hint Resolve grows_set_ports : frame.

Lemma grows_set_timers v s : grows s (set_timers v s).
Proof. frame_prim. Qed.
#[local] Hint Resolve grows_set_timers : frame.

Lemma grows_set_requests v s : grows s (set_requests v s).
Proof. frame_prim. Qed.
#[local] Hint Resolve grows_set_requests : frame.

Lemma grows_bump s : grows s (bump s).
Proof. frame_prim. Qed.
#[local] Hint Resolve grows_bump : frame.

Lemma grows_emit e s : grows s (emit e s).
Proof. frame_prim. Qed.
#[local] Hint Resolve grows_emit : frame.

Lemma grows_updateBadge st s : grows s (updateBadge st s).
Proof. frame_prim. Qed.
#[local] Hint Resolve grows_updateBadge : frame.

Lemma grows_ws_store i w s : grows s (WebSocketTransport.store i w s).
Proof. frame_prim. Qed.
#[local] Hint Resolve grows_ws_store : frame.

Lemma grows_native_store i n s : grows s (NativeTransport.store i n s).
Proof. frame_prim. Qed.
#[local] Hint Resolve grows_native_store : frame.

Lemma grows_ws_send i m s : grows s (WebSocketTransport.send i m s).
Proof. unfold WebSocketTransport.send. frame_tac. Qed.
#[local] Hint Resolve grows_ws_send : frame.

Lemma grows_ws_stopHeartbeat i s : grows s (WebSocketTransport.stopHeartbeat i s).
Proof. unfold WebSocketTransport.stopHeartbeat. frame_tac. Qed.
#[local] Hint Resolve grows_ws_stopHeartbeat : frame.

Lemma grows_ws_startHeartbeat i s : grows s (WebSocketTransport.startHeartbeat i s).
Proof. unfold WebSocketTransport.startHeartbeat. frame_tac. Qed.
#[local] Hint Resolve grows_ws_startHeartbeat : frame.

Lemma grows_ws_scheduleReconnect i s : grows s (WebSocketTransport.scheduleReconnect i s).
Proof. unfold WebSocketTransport.scheduleReconnect. frame_tac. Qed.
#[local] Hint Resolve grows_ws_scheduleReconnect : frame.

Lemma grows_ws_connect i s : grows s (WebSocketTransport.connect i s).
Proof. unfold WebSocketTransport.connect. frame_tac. Qed.
#[local] Hint Resolve grows_ws_connect : frame.

Lemma grows_ws_onopen i s : grows s (WebSocketTransport.onopen i s).
Proof. unfold WebSocketTransport.onopen. frame_tac. Qed.
#[local] Hint Resolve grows_ws_onopen : frame.

Lemma grows_ws_onclose i s : grows s (WebSocketTransport.onclose i s).
Proof. unfold WebSocketTransport.onclose. frame_tac. Qed.
#[local] Hint Resolve grows_ws_onclose : frame.

Lemma grows_ws_onerror i s : grows s (WebSocketTransport.onerror i s).
Proof. unfold WebSocketTransport.onerror. frame_tac. Qed.
#[local] Hint Resolve grows_ws_onerror : frame.

Lemma grows_ws_socket_close k s : grows s (WebSocketTransport.socket_close k s).
Proof. unfold WebSocketTransport.socket_close. frame_tac. Qed.
#[local] Hint Resolve grows_ws_socket_close : frame.

Lemma grows_ws_disconnect i s : grows s (WebSocketTransport.disconnect i s).
Proof. unfold WebSocketTransport.disconnect. frame_tac. Qed.
#[local] Hint Resolve grows_ws_disconnect : frame.

Lemma grows_ws_reconnect_callback i s : grows s (WebSocketTransport.reconnect_callback i s).
Proof. unfold WebSocketTransport.reconnect_callback. frame_tac. Qed.
#[local] Hint Resolve grows_ws_reconnect_callback : frame.

Lemma grows_ws_heartbeat_callback i s : grows s (WebSocketTransport.heartbeat_callback i s).
Proof. unfold WebSocketTransport.heartbeat_callback. frame_tac. Qed.
#[local] Hint Resolve grows_ws_heartbeat_callback : frame.

Lemma grows_http_loop r a s : grows s (HttpTransport.loop r a s).
Proof. unfold HttpTransport.loop. frame_tac. Qed.
#[local] Hint Resolve grows_http_loop : frame.

Lemma grows_http_send i m s : grows s (HttpTransport.send i m s).
Proof. unfold HttpTransport.send. frame_tac. Qed.
#[local] Hint Resolve grows_http_send : frame.

Lemma grows_http_resume r o s : grows s (HttpTransport.resume r o s).
Proof. unfold HttpTransport.resume. frame_tac. Qed.
#[local] Hint Resolve grows_http_resume : frame.

Lemma grows_http_retry_callback r s : grows s (HttpTransport.retry_callback r s).
Proof. unfold HttpTransport.retry_callback. frame_tac. Qed.
#[local] Hint Resolve grows_http_retry_callback : frame.

Lemma grows_http_connect i s : grows s (HttpTransport.connect i s).
Proof. unfold HttpTransport.connect. frame_tac. Qed.
#[local] Hint Resolve grows_http_connect : frame.

Lemma grows_http_disconnect i s : grows s (HttpTransport.disconnect i s).
Proof. unfold HttpTransport.disconnect. frame_tac. Qed.
#[local] Hint Resolve grows_http_disconnect : frame.

Lemma grows_native_send i m s : grows s (NativeTransport.send i m s).
Proof. unfold NativeTransport.send. frame_tac. Qed.
#[local] Hint Resolve grows_native_send : frame.

Lemma grows_native_connect i s : grows s (NativeTransport.connect i s).
Proof. unfold NativeTransport.connect. frame_tac. Qed.
#[local] Hint Resolve grows_native_connect : frame.

Lemma grows_native_disconnect i s : grows s (NativeTransport.disconnect i s).
Proof. unfold NativeTransport.disconnect. frame_tac. Qed.
#[local] Hint Resolve grows_native_disconnect : frame.

Lemma grows_Transport_connect i s : grows s (Transport_connect i s).
Proof. unfold Transport_connect. frame_tac. Qed.
#[local] Hint Resolve grows_Transport_connect : frame.

Lemma grows_Transport_disconnect i s : grows s (Transport_disconnect i s).
Proof. unfold Transport_disconnect. frame_tac. Qed.
#[local] Hint Resolve grows_Transport_disconnect : frame.

Lemma grows_Transport_send i m s : grows s (Transport_send i m s).
Proof. unfold Transport_send. frame_tac. Qed.
#[local] Hint Resolve grows_Transport_send : frame.

Lemma grows_set_readyState k rs s : grows s (set_readyState k rs s).
Proof. unfold set_readyState. frame_tac. Qed.
#[local] Hint Resolve grows_set_readyState : frame.

Lemma grows_set_transport v s : grows s (set_transport v s).
Proof. frame_prim. Qed.
#[local] Hint Resolve grows_set_transport : frame.

Lemma grows_disconnectTransport s : grows s (disconnectTransport s).
Proof. unfold disconnectTransport. frame_tac. Qed.
#[local] Hint Resolve grows_disconnectTransport : frame.

Lemma grows_install obj s : grows s (install obj s).
Proof. unfold install. frame_tac. Qed.
#[local] Hint Resolve grows_install : frame.

Lemma grows_connectTransport s : grows s (connectTransport s).
Proof. unfold connectTransport. frame_tac. Qed.
#[local] Hint Resolve grows_connectTransport : frame.

Lemma grows_handleSubtitle m s : grows s (handleSubtitle m s).
Proof. unfold handleSubtitle. frame_tac. Qed.
#[local] Hint Resolve grows_handleSubtitle : frame.

Lemma grows_testConnection s : grows s (testConnection s).
Proof. unfold testConnection. frame_tac. Qed.
#[local] Hint Resolve grows_testConnection : frame.

Lemma grows_testConnection_callback s : grows s (testConnection_callback s).
Proof. unfold testConnection_callback. frame_tac. Qed.
#[local] Hint Resolve grows_testConnection_callback : frame.

Lemma grows_set_settings v s : grows s (set_settings v s).
Proof. frame_prim. Qed.
#[local] Hint Resolve grows_set_settings : frame.

Lemma grows_saveSettings s : grows s (saveSettings s).
Proof. unfold saveSettings. frame_tac. Qed.
#[local] Hint Resolve grows_saveSettings : frame.

Lemma grows_teardown_and_reconnect s : grows s (teardown_and_reconnect s).
Proof. unfold teardown_and_reconnect. frame_tac. Qed.
#[local] Hint Resolve grows_teardown_and_reconnect : frame.

Lemma grows_updateSettings n s : grows s (updateSettings n s).
Proof. unfold updateSettings. frame_tac. Qed.
#[local] Hint Resolve grows_updateSettings : frame.

Lemma grows_loadSettings r s : grows s (loadSettings r s).
Proof. unfold loadSettings. frame_tac. Qed.
#[local] Hint Resolve grows_loadSettings : frame.

(** ** The connection manager *)

Lemma needsReconnect_false old new :
  needsReconnect old new = false ↔
  Forall (λ k, new !! k = old !! k) compared_fields.
Proof.
  unfold needsReconnect, strict_ne, compared_fields.
  rewrite !orb_false_iff, !negb_false_iff, !bool_decide_eq_true.
  rewrite !Forall_cons, Forall_nil. cbv beta.
  intuition.
Qed.

Lemma needsReconnect_omitted old new :
  has_compared_fields old →
  Exists (λ k, new !! k = None) compared_fields →
  needsReconnect old new = true.
Proof.
  intros Hold Hnew. apply not_false_iff_true. intros Hf.
  apply needsReconnect_false in Hf.
  apply Exists_exists in Hnew as (k & Hk & Hnone).
  unfold has_compared_fields in Hold.
  rewrite Forall_forall in Hold, Hf.
  specialize (Hold k Hk). specialize (Hf k Hk).
  rewrite Hnone in Hf. rewrite <- Hf in Hold. by destruct Hold.
Qed.

Lemma updateSettings_unchanged n s :
  needsReconnect (settings s) n = false →
  updateSettings n s = saveSettings (set_settings (spread (settings s) n) s).
Proof. intros H. unfold updateSettings. by rewrite H. Qed.

Lemma updateSettings_changed n s :
  needsReconnect (settings s) n = true →
  updateSettings n s =
    teardown_and_reconnect (saveSettings (set_settings (spread (settings s) n) s)).
Proof. intros H. unfold updateSettings. by rewrite H. Qed.

Lemma settings_teardown_and_reconnect s :
  settings (teardown_and_reconnect s) = settings s.
Proof.
  unfold teardown_and_reconnect. cbv zeta.
  destruct (truthy _).
  - etrans; [apply same_config_connectTransport|apply same_config_disconnectTransport].
  - apply same_config_disconnectTransport.
Qed.

Lemma settings_updateSettings n s :
  settings (updateSettings n s) = spread (settings s) n.
Proof.
  destruct (needsReconnect (settings s) n) eqn:H.
  - rewrite updateSettings_changed by done.
    by rewrite settings_teardown_and_reconnect.
  - by rewrite updateSettings_unchanged.
Qed.

Lemma spread_lookup_present a b k :
  is_Some (b !! k) → spread a b !! k = b !! k.
Proof.
  intros [v Hv]. unfold spread. rewrite Hv.
  by apply lookup_union_Some_l.
Qed.

Lemma spread_idemp a b : spread (spread a b) b = spread a b.
Proof.
  unfold spread. rewrite (assoc (∪) b b a). by rewrite (idemp (∪) b).
Qed.

(** The transport slot is empty after [disconnectTransport]. *)
Lemma transport_disconnectTransport s : transport (disconnectTransport s) = None.
Proof.
  unfold disconnectTransport.
  destruct (transport s) eqn:E; simpl; [reflexivity | exact E].
Qed.

(** C2 (as amended). [handleSubtitle] hands the event to the [send] of
    the active transport exactly when [settings.enabled] is truthy and a
    transport is active, whatever the connection status is, and otherwise
    returns without any change of state. *)
Theorem C2_submit_forwards_iff_enabled_and_active (m : message) (s : State) :
  (∀ i, truthy (settings s !! "enabled") = true → transport s = Some i →
        handleSubtitle m s = Transport_send i m s) ∧
  (truthy (settings s !! "enabled") = false ∨ transport s = None →
   handleSubtitle m s = s).
Proof.
  unfold handleSubtitle. split.
  - intros i -> ->. done.
  - intros [-> | ->]; [done|]. by destruct (negb _).
Qed.

Lemma C2_submit_witness :
  handleSubtitle (MsgSubtitle "line") (init browser) = init browser.
Proof.
  apply (proj2 (C2_submit_forwards_iff_enabled_and_active _ _)).
  right. reflexivity.
Defined.

(** C2, counterexample.  With the HTTP transport active and the status
    Disconnected (the three attempts of the previous call were rejected),
    a subtitle event is handed to the transport's [send], which issues a
    request. *)
Lemma C2_counterexample :
  option_map
    (λ s, (connectionStatus s, transport s,
           effects_of (handleSubtitle (MsgSubtitle "line")) s))
    (run http_unreachable (init browser)) =
  Some (Disconnected, Some 1%nat,
        [Fetch 5 (Some (JStr "http://localhost:8080/subtitle"))
           (MsgSubtitle "line")]).
Proof. vm_compute. reflexivity. Qed.

(** ** Every reachable state is well formed *)

Lemma ws_this_heap i s w :
  WebSocketTransport.this i s = Some w ↔ heap s !! i = Some (IWs w).
Proof.
  unfold WebSocketTransport.this.
  destruct (heap s !! i) as [[]|]; split; congruence.
Qed.

Lemma http_this_heap i s h :
  HttpTransport.this i s = Some h ↔ heap s !! i = Some (IHttp h).
Proof.
  unfold HttpTransport.this.
  destruct (heap s !! i) as [[]|]; split; congruence.
Qed.

Lemma native_this_heap i s n :
  NativeTransport.this i s = Some n ↔ heap s !! i = Some (INative n).
Proof.
  unfold NativeTransport.this.
  destruct (heap s !! i) as [[]|]; split; congruence.
Qed.

Lemma fetches_of_snoc r tr e :
  fetches_of r (tr ++ [e]) =
  (fetches_of r tr + (if is_fetch_of r e then 1 else 0))%nat.
Proof.
  unfold fetches_of. rewrite List.filter_app, length_app. simpl.
  by destruct (is_fetch_of r e).
Qed.

Create HintDb wf discriminated.

#[local] Set Warnings "-clear-no-such-hyp".

(** Turn the facts about [this] and the boolean tests into facts about
    the heap and the numbers. *)
Ltac wf_open :=
  repeat match goal with
    | E : WebSocketTransport.this _ _ = Some _ |- _ => apply ws_this_heap in E
    | E : HttpTransport.this _ _ = Some _ |- _ => apply http_this_heap in E
    | E : NativeTransport.this _ _ = Some _ |- _ => apply native_this_heap in E
    | E : (_ <=? _)%nat = true |- _ => apply Nat.leb_le in E
    | E : (_ <=? _)%nat = false |- _ => apply Nat.leb_gt in E
    | E : (_ <? _)%nat = true |- _ => apply Nat.ltb_lt in E
    | E : (_ <? _)%nat = false |- _ => apply Nat.ltb_ge in E
    | E : (_ =? _)%nat = true |- _ => apply Nat.eqb_eq in E
    | E : (_ =? _)%nat = false |- _ => apply Nat.eqb_neq in E
    end.

(** Case analysis on the keys of the lookups after an insert or delete. *)
Ltac wf_same i j E :=
  first [ subst j | subst i | rewrite <- E in * ].

Ltac wf_keys :=
  repeat match goal with
    | H : context [<[?i := _]> _ !! ?j] |- _ =>
        let E := fresh in
        destruct (decide (i = j)) as [E|E];
        [ wf_same i j E; rewrite lookup_insert_eq in H
        | rewrite lookup_insert_ne in H by done ]
    | |- context [<[?i := _]> _ !! ?j] =>
        let E := fresh in
        destruct (decide (i = j)) as [E|E];
        [ wf_same i j E; rewrite lookup_insert_eq
        | rewrite lookup_insert_ne by done ]
    | H : context [delete ?i _ !! ?j] |- _ =>
        let E := fresh in
        destruct (decide (i = j)) as [E|E];
        [ wf_same i j E; rewrite lookup_delete_eq in H
        | rewrite lookup_delete_ne in H by done ]
    | |- context [delete ?i _ !! ?j] =>
        let E := fresh in
        destruct (decide (i = j)) as [E|E];
        [ wf_same i j E; rewrite lookup_delete_eq
        | rewrite lookup_delete_ne by done ]
    end.

(** Instantiate the invariant [W : wf s] at every lookup in the context. *)
Ltac wf_sat :=
  try match goal with
    | W : wf ?s, E1 : timers ?s !! ?t1 = Some (TRetry ?r),
      E2 : timers ?s !! ?t2 = Some (TRetry ?r), N : ?t1 ≠ ?t2 |- _ =>
        destruct N; exact (wf_retry_unique s W _ _ _ E1 E2)
    end;
  repeat match goal with
    | W : wf ?s, E : timers ?s !! _ = Some (TRetry _) |- _ =>
        destruct (wf_retry s W _ _ E) as (?&?&?);
        pose proof (wf_timers_fresh s W _ _ E); revert E
    | W : wf ?s, E : timers ?s !! _ = Some (TReconnect _) |- _ =>
        destruct (wf_reconnect s W _ _ E) as (?&?&?);
        pose proof (wf_timers_fresh s W _ _ E); revert E
    | W : wf ?s, E : timers ?s !! _ = Some (THeartbeat _) |- _ =>
        destruct (wf_heartbeat s W _ _ E) as (?&?&?);
        pose proof (wf_timers_fresh s W _ _ E); revert E
    | W : wf ?s, E : timers ?s !! _ = Some _ |- _ =>
        pose proof (wf_timers_fresh s W _ _ E); revert E
    end; intros;
  repeat match goal with
    | W : wf ?s, E : requests ?s !! _ = Some _ |- _ =>
        destruct (wf_request s W _ _ E) as ((?&?)&?&?);
        pose proof (wf_requests_fresh s W _ _ E); revert E
    | W : wf ?s, E : requests ?s !! _ = None |- _ =>
        pose proof (wf_finished s W _ E); revert E
    end; intros;
  repeat match goal with
    | W : wf ?s, E : heap ?s !! _ = Some (IWs _) |- _ =>
        destruct (wf_ws s W _ _ E) as (?&?&?&?);
        pose proof (wf_heap_fresh s W _ _ E); revert E
    | W : wf ?s, E : heap ?s !! _ = Some (IHttp _) |- _ =>
        pose proof (wf_http s W _ _ E);
        pose proof (wf_heap_fresh s W _ _ E); revert E
    | W : wf ?s, E : heap ?s !! _ = Some _ |- _ =>
        pose proof (wf_heap_fresh s W _ _ E); revert E
    end; intros;
  repeat match goal with
    | W : wf ?s, E : transport ?s = Some _ |- _ =>
        pose proof (wf_transport_fresh s W _ E); revert E
    end; intros;
  try match goal with
    | W : wf ?s |- context [fetches_of ?r (trace ?s)] =>
        pose proof (wf_fetch_fresh s W r ltac:(lia))
    end.

Ltac wf_fin :=
  simplify_eq/=;
  try rewrite ?fetches_of_snoc in *; simpl in *;
  repeat match goal with
    | H : is_Some ?x → _, E : ?x = Some _ |- _ =>
        specialize (H (mk_is_Some _ _ E))
    end;
  split_and?; intros;
  repeat match goal with
    | |- context [Nat.eqb ?a ?b] => destruct (Nat.eqb_spec a b)
    | H : context [Nat.eqb ?a ?b] |- _ => destruct (Nat.eqb_spec a b)
    | H : is_Some None |- _ => by destruct H
    | H : context [if ?b then _ else _] |- _ => destruct b eqn:?
    | |- context [if ?b then _ else _] => destruct b eqn:?
    end;
  simplify_eq/=;
  rewrite ?Nat.add_0_r in *;
  try solve [ done | lia | eauto 6 ].

Ltac wf_leaf :=
  wf_open; constructor; simpl; intros;
  rewrite ?fetches_of_snoc in *;
  wf_keys; wf_sat; wf_fin;
  try match goal with W : wf _ |- _ => solve [ apply W | eapply W; eauto ] end.

Lemma wf_updateBadge st s : wf s → wf (updateBadge st s).
Proof. intros H. wf_leaf. Qed.
#[local] Hint Resolve wf_updateBadge : wf.

Lemma wf_saveSettings s : wf s → wf (saveSettings s).
Proof. intros H. wf_leaf. Qed.
#[local] Hint Resolve wf_saveSettings : wf.

Lemma wf_ws_send i m s : wf s → wf (WebSocketTransport.send i m s).
Proof.
  intros H. unfold WebSocketTransport.send.
  repeat case_match; try done. wf_leaf.
Qed.
#[local] Hint Resolve wf_ws_send : wf.

Lemma wf_stopHeartbeat i s : wf s → wf (WebSocketTransport.stopHeartbeat i s).
Proof.
  intros H. unfold WebSocketTransport.stopHeartbeat.
  repeat case_match; try done. wf_leaf.
Qed.
#[local] Hint Resolve wf_stopHeartbeat : wf.

Lemma stopHeartbeat_stopped i s w :
  WebSocketTransport.this i (WebSocketTransport.stopHeartbeat i s) = Some w →
  heartbeatInterval w = None.
Proof.
  unfold WebSocketTransport.stopHeartbeat.
  destruct (WebSocketTransport.this i s) as [w0|] eqn:E; [|congruence].
  destruct (heartbeatInterval w0) eqn:Ehb; [|congruence].
  unfold WebSocketTransport.this, WebSocketTransport.store. simpl.
  rewrite lookup_insert_eq. by intros [= <-].
Qed.

Lemma wf_startHeartbeat i s : wf s → wf (WebSocketTransport.startHeartbeat i s).
Proof.
  intros H. unfold WebSocketTransport.startHeartbeat. cbv zeta.
  apply (wf_stopHeartbeat i) in H.
  pose proof (stopHeartbeat_stopped i s) as Hstop.
  generalize dependent (WebSocketTransport.stopHeartbeat i s). clear s.
  intros s H Hstop. repeat case_match; try done.
  specialize (Hstop _ eq_refl). wf_leaf.
Qed.
#[local] Hint Resolve wf_startHeartbeat : wf.

Lemma wf_scheduleReconnect i s :
  wf s → wf (WebSocketTransport.scheduleReconnect i s).
Proof.
  intros H. unfold WebSocketTransport.scheduleReconnect.
  repeat case_match; eauto with wf. wf_leaf.
Qed.
#[local] Hint Resolve wf_scheduleReconnect : wf.

Lemma wf_ws_connect i s : wf s → wf (WebSocketTransport.connect i s).
Proof.
  intros H. unfold WebSocketTransport.connect. cbv zeta.
  apply (wf_updateBadge Connecting) in H.
  generalize dependent (updateBadge Connecting s). clear s.
  intros s H. repeat case_match; eauto with wf. wf_leaf.
Qed.
#[local] Hint Resolve wf_ws_connect : wf.

Lemma wf_ws_onopen i s : wf s → wf (WebSocketTransport.onopen i s).
Proof.
  intros H. unfold WebSocketTransport.onopen. cbv zeta.
  apply wf_startHeartbeat, wf_ws_send.
  apply (wf_updateBadge Connected) in H.
  generalize dependent (updateBadge Connected s). clear s.
  intros s H. repeat case_match; eauto with wf. wf_leaf.
Qed.

Lemma wf_ws_onclose i s : wf s → wf (WebSocketTransport.onclose i s).
Proof. intros H. unfold WebSocketTransport.onclose. eauto with wf. Qed.

Lemma wf_ws_onerror i s : wf s → wf (WebSocketTransport.onerror i s).
Proof. intros H. unfold WebSocketTransport.onerror. eauto with wf. Qed.
#[local] Hint Resolve wf_ws_onopen wf_ws_onclose wf_ws_onerror : wf.

Lemma wf_socket_close k s : wf s → wf (WebSocketTransport.socket_close k s).
Proof.
  intros H. unfold WebSocketTransport.socket_close. cbv zeta.
  assert (wf (emit (WsClose k) s)) as H' by (wf_leaf).
  clear H. generalize dependent (emit (WsClose k) s). clear s.
  intros s H. repeat case_match; eauto with wf; wf_leaf.
Qed.
#[local] Hint Resolve wf_socket_close : wf.

Lemma wf_ws_clear_reconnect i w t s :
  wf s → WebSocketTransport.this i s = Some w → reconnectTimeout w = Some t →
  wf (WebSocketTransport.store i (WebSocketTransport.with_reconnectTimeout None w)
        (emit (ClearTimeout t) (set_timers (delete t (timers s)) s))).
Proof. intros H E Et. wf_leaf. Qed.

Lemma wf_ws_forget_socket i w s :
  wf s → WebSocketTransport.this i s = Some w →
  wf (WebSocketTransport.store i (WebSocketTransport.with_ws None w) s).
Proof. intros H E. wf_leaf. Qed.

Lemma wf_ws_disconnect i s : wf s → wf (WebSocketTransport.disconnect i s).
Proof.
  intros H. unfold WebSocketTransport.disconnect. cbv zeta.
  apply wf_updateBadge.
  match goal with
  | |- context [WebSocketTransport.stopHeartbeat i ?s1] =>
      assert (wf s1) as H1
        by (repeat case_match; eauto using wf_ws_clear_reconnect with wf);
      apply (wf_stopHeartbeat i) in H1;
      generalize dependent (WebSocketTransport.stopHeartbeat i s1)
  end.
  clear. intros s H.
  repeat case_match; eauto using wf_ws_forget_socket with wf.
Qed.
#[local] Hint Resolve wf_ws_disconnect : wf.

Lemma wf_reconnect_callback t i s :
  wf s → timers s !! t = Some (TReconnect i) →
  wf (WebSocketTransport.reconnect_callback i (set_timers (delete t (timers s)) s)).
Proof.
  intros H Ht. unfold WebSocketTransport.reconnect_callback. cbv zeta.
  apply wf_ws_connect.
  destruct (wf_reconnect _ H _ _ Ht) as (w & Hw & Hrt).
  unfold WebSocketTransport.this. simpl. rewrite Hw.
  wf_leaf.
Qed.

Lemma wf_heartbeat_callback i s :
  wf s → wf (WebSocketTransport.heartbeat_callback i s).
Proof. intros H. unfold WebSocketTransport.heartbeat_callback. eauto with wf. Qed.
#[local] Hint Resolve wf_heartbeat_callback : wf.

Lemma wf_http_send i m s : wf s → wf (HttpTransport.send i m s).
Proof.
  intros H. unfold HttpTransport.send, HttpTransport.loop. cbv zeta. simpl.
  rewrite lookup_insert_eq. unfold HttpTransport.this. simpl.
  repeat case_match; wf_leaf.
Qed.
#[local] Hint Resolve wf_http_send : wf.

Lemma wf_http_resume r o q s :
  wf s → requests s !! r = Some q → req_sleeping q = false →
  wf (HttpTransport.resume r o s).
Proof.
  intros H Hq Hs. unfold HttpTransport.resume, HttpTransport.loop. rewrite Hq.
  unfold HttpTransport.this. simpl. rewrite ?Hq.
  destruct (wf_request _ H _ _ Hq) as ((h & Hh) & Ha & Hf).
  rewrite Hh. pose proof (wf_http _ H _ _ Hh) as Hmax. rewrite Hs in Ha.
  destruct o; repeat case_match; wf_leaf.
Qed.

Lemma wf_retry_callback t r s :
  wf s → timers s !! t = Some (TRetry r) →
  wf (HttpTransport.retry_callback r (set_timers (delete t (timers s)) s)).
Proof.
  intros H Ht. unfold HttpTransport.retry_callback, HttpTransport.loop. simpl.
  destruct (wf_retry _ H _ _ Ht) as (q & Hq & Hs). rewrite Hq.
  destruct (wf_request _ H _ _ Hq) as ((h & Hh) & Ha & Hf).
  unfold HttpTransport.this. simpl. rewrite Hh.
  pose proof (wf_http _ H _ _ Hh) as Hmax. rewrite Hs in Ha.
  repeat case_match; wf_leaf.
Qed.

Lemma wf_http_connect i s : wf s → wf (HttpTransport.connect i s).
Proof. intros H. unfold HttpTransport.connect. repeat case_match; eauto with wf. Qed.

Lemma wf_http_disconnect i s : wf s → wf (HttpTransport.disconnect i s).
Proof. intros H. unfold HttpTransport.disconnect. eauto with wf. Qed.
#[local] Hint Resolve wf_http_connect wf_http_disconnect : wf.

Lemma wf_native_send i m s : wf s → wf (NativeTransport.send i m s).
Proof.
  intros H. unfold NativeTransport.send.
  repeat case_match; eauto with wf. wf_leaf.
Qed.
#[local] Hint Resolve wf_native_send : wf.

Lemma wf_native_connect i s : wf s → wf (NativeTransport.connect i s).
Proof.
  intros H. unfold NativeTransport.connect. cbv zeta.
  apply (wf_updateBadge Connecting) in H.
  generalize dependent (updateBadge Connecting s). clear s.
  intros s H. repeat case_match; eauto with wf.
  apply wf_native_send, wf_updateBadge. wf_leaf.
Qed.

Lemma wf_native_disconnect i s : wf s → wf (NativeTransport.disconnect i s).
Proof.
  intros H. unfold NativeTransport.disconnect. cbv zeta.
  apply wf_updateBadge.
  destruct (NativeTransport.this i s) as [n|] eqn:En; [|done].
  destruct (port n) as [p|]; [|done].
  apply (wf_native_send i MsgDisconnected) in H.
  generalize dependent (NativeTransport.send i MsgDisconnected s). clear.
  intros s H.
  match goal with
  | |- context [NativeTransport.this i ?s1] =>
      assert (wf s1) as H1 by (wf_leaf);
      clear H; generalize dependent s1
  end.
  clear. intros s H. repeat case_match; eauto with wf. wf_leaf.
Qed.
#[local] Hint Resolve wf_native_connect wf_native_disconnect : wf.

Lemma wf_Transport_connect i s : wf s → wf (Transport_connect i s).
Proof. intros H. unfold Transport_connect. repeat case_match; eauto with wf. Qed.

Lemma wf_Transport_disconnect i s : wf s → wf (Transport_disconnect i s).
Proof. intros H. unfold Transport_disconnect. repeat case_match; eauto with wf. Qed.

Lemma wf_Transport_send i m s : wf s → wf (Transport_send i m s).
Proof. intros H. unfold Transport_send. repeat case_match; eauto with wf. Qed.
#[local] Hint Resolve wf_Transport_connect wf_Transport_disconnect
  wf_Transport_send : wf.

Lemma wf_set_transport_None s : wf s → wf (set_transport None s).
Proof. intros H. wf_leaf. Qed.
#[local] Hint Resolve wf_set_transport_None : wf.

Lemma wf_disconnectTransport s : wf s → wf (disconnectTransport s).
Proof.
  intros H. unfold disconnectTransport. cbv zeta.
  repeat case_match; eauto with wf.
Qed.
#[local] Hint Resolve wf_disconnectTransport : wf.

Lemma wf_install obj s : constructed obj → wf s → wf (install obj s).
Proof.
  intros Hobj H. unfold install. cbv zeta. apply wf_Transport_connect.
  destruct obj as [w|h|n]; simpl in Hobj;
    [destruct Hobj as [url ->] | destruct Hobj as [url ->] |]; wf_leaf.
Qed.

Lemma wf_connectTransport s : wf s → wf (connectTransport s).
Proof.
  intros H. unfold connectTransport. cbv zeta.
  apply wf_disconnectTransport in H.
  repeat case_match; eauto; apply wf_install; simpl; eauto.
Qed.
#[local] Hint Resolve wf_connectTransport : wf.

Lemma has_compared_fields_spread a b :
  has_compared_fields a → has_compared_fields (spread a b).
Proof.
  unfold has_compared_fields, spread. intros H.
  eapply Forall_impl; [exact H|]. cbv beta.
  intros k Hk. apply lookup_union_is_Some. by right.
Qed.

Lemma wf_set_settings n s : wf s → wf (set_settings (spread (settings s) n) s).
Proof.
  intros H. destruct H. constructor; simpl; eauto using has_compared_fields_spread.
Qed.
#[local] Hint Resolve wf_set_settings : wf.

Lemma wf_teardown_and_reconnect s : wf s → wf (teardown_and_reconnect s).
Proof.
  intros H. unfold teardown_and_reconnect. cbv zeta.
  repeat case_match; eauto with wf.
Qed.
#[local] Hint Resolve wf_teardown_and_reconnect : wf.

Lemma wf_updateSettings n s : wf s → wf (updateSettings n s).
Proof.
  intros H. destruct (needsReconnect (settings s) n) eqn:E.
  - rewrite updateSettings_changed by done. eauto with wf.
  - rewrite updateSettings_unchanged by done. eauto with wf.
Qed.

Lemma wf_loadSettings r s : wf s → wf (loadSettings r s).
Proof.
  intros H. unfold loadSettings. cbv zeta.
  repeat case_match; eauto with wf.
Qed.

Lemma wf_handleSubtitle m s : wf s → wf (handleSubtitle m s).
Proof.
  intros H. unfold handleSubtitle. repeat case_match; eauto with wf.
Qed.

Lemma wf_testConnection s : wf s → wf (testConnection s).
Proof.
  intros H. unfold testConnection. cbv zeta.
  match goal with
  | |- context [connectTransport ?s1] =>
      assert (wf s1) as H1 by (repeat case_match; eauto; wf_leaf);
      clear H; generalize dependent s1
  end.
  clear. intros s H.
  match goal with
  | |- context [nextId ?s2] =>
      assert (wf s2) as H2 by (repeat case_match; eauto with wf);
      clear H; generalize dependent s2
  end.
  clear. intros s H. wf_leaf.
Qed.

Lemma wf_set_readyState k rs s : wf s → wf (set_readyState k rs s).
Proof.
  intros H. unfold set_readyState. repeat case_match; eauto. wf_leaf.
Qed.

Lemma wf_init P : wf (init P).
Proof.
  constructor; simpl; intros; rewrite ?lookup_empty in *; try done;
    try (unfold fetches_of; simpl; lia).
  unfold has_compared_fields, compared_fields.
  repeat (constructor; [eexists; reflexivity|]). constructor.
Qed.

Lemma wf_step e s s' : wf s → step e s = Some s' → wf s'.
Proof.
  intros H Hstep. destruct e; simpl in Hstep.
  - injection Hstep as <-. by apply wf_loadSettings.
  - injection Hstep as <-. by apply wf_handleSubtitle.
  - injection Hstep as <-. wf_leaf.
  - injection Hstep as <-. by apply wf_updateSettings.
  - injection Hstep as <-. by apply wf_testConnection.
  - repeat case_match; simplify_eq.
    by apply wf_ws_onopen, wf_set_readyState.
  - repeat case_match; simplify_eq. by apply wf_ws_onerror.
  - repeat case_match; simplify_eq.
    by apply wf_ws_onclose, wf_set_readyState.
  - destruct (timers s !! t) as [[i|i|r|]|] eqn:Et; simplify_eq.
    + by apply wf_reconnect_callback.
    + by apply wf_heartbeat_callback.
    + by apply wf_retry_callback.
    + unfold testConnection_callback. wf_leaf.
  - destruct (requests s !! r) as [q|] eqn:Eq; [|done].
    destruct (req_sleeping q) eqn:Es; simplify_eq.
    by eapply wf_http_resume.
  - case_match; simplify_eq. unfold NativeTransport.onDisconnect.
    apply wf_updateBadge. wf_leaf.
  - case_match; simplify_eq. done.
Qed.

Lemma reachable_wf P s : reachable P s → wf s.
Proof.
  induction 1 as [|s e s' _ IH Hstep]; [apply wf_init | by eapply wf_step].
Qed.

(** ** Reconfiguration *)

Lemma default_settings_complete : has_compared_fields default_settings.
Proof.
  unfold has_compared_fields, compared_fields.
  repeat (constructor; [eexists; reflexivity|]). constructor.
Qed.

Lemma effects_of_app f s l : trace (f s) = trace s ++ l → effects_of f s = l.
Proof. intros H. unfold effects_of. rewrite H. apply drop_app_length. Qed.

Lemma connectionStatus_disconnectTransport s :
  connectionStatus (disconnectTransport s) = Disconnected.
Proof. reflexivity. Qed.

Lemma transport_install obj s : transport (install obj s) = Some (nextId s).
Proof. unfold install. by rewrite same_slot_Transport_connect. Qed.

(** After [connectTransport] the slot is empty or holds a new handle. *)
Lemma transport_connectTransport s :
  transport (connectTransport s) = None ∨
  ∃ j, transport (connectTransport s) = Some j ∧ (nextId s ≤ j)%nat.
Proof.
  unfold connectTransport. cbv zeta.
  pose proof (grows_disconnectTransport s) as Hg.
  pose proof (transport_disconnectTransport s) as Hn.
  repeat case_match; rewrite ?transport_install; eauto.
Qed.

Lemma transport_teardown_and_reconnect s i :
  wf s → transport s = Some i → transport (teardown_and_reconnect s) ≠ Some i.
Proof.
  intros Hwf Hi. pose proof (wf_transport_fresh _ Hwf _ Hi) as Hlt.
  unfold teardown_and_reconnect. cbv zeta.
  pose proof (grows_disconnectTransport s) as Hg. unfold grows in Hg.
  destruct (truthy _).
  - destruct (transport_connectTransport (disconnectTransport s))
      as [-> | (j & -> & Hj)]; [done|]. intros [= ->]. lia.
  - by rewrite transport_disconnectTransport.
Qed.

Lemma needsReconnect_repeated n s :
  has_compared_fields n →
  needsReconnect (settings (updateSettings n s)) n = false.
Proof.
  intros Hn. apply needsReconnect_false. rewrite settings_updateSettings.
  unfold has_compared_fields in Hn. eapply Forall_impl; [exact Hn|].
  cbv beta. intros k Hk. by rewrite spread_lookup_present.
Qed.



(** ** The HTTP transport: [connect] *)

Lemma http_send_first i h m s :
  HttpTransport.this i s = Some h → (0 < maxRetries h)%nat →
  trace (HttpTransport.send i m s) = trace s ++ [Fetch (nextId s) (http_url h) m] ∧
  connectionStatus (HttpTransport.send i m s) = connectionStatus s ∧
  timers (HttpTransport.send i m s) = timers s.
Proof.
  intros Hi Hmax. unfold HttpTransport.send, HttpTransport.loop. cbv zeta.
  simpl. rewrite lookup_insert_eq. simpl.
  replace (HttpTransport.this i _) with (Some h) by (by rewrite <- Hi).
  apply Nat.ltb_lt in Hmax. by rewrite Hmax.
Qed.

Lemma http_connect_accepted i h s :
  HttpTransport.this i s = Some h → URL_accepts (platform s) (http_url h) = true →
  HttpTransport.connect i s =
    HttpTransport.send i (MsgConnected VERSION) (updateBadge Connected s).
Proof. intros Hi Hu. unfold HttpTransport.connect. by rewrite Hi, Hu. Qed.

Lemma http_connect_rejected i h s :
  HttpTransport.this i s = Some h → URL_accepts (platform s) (http_url h) = false →
  HttpTransport.connect i s = updateBadge Disconnected s.
Proof. intros Hi Hu. unfold HttpTransport.connect. by rewrite Hi, Hu. Qed.

(** C8 (as amended). [HttpTransport.connect] publishes Connected and
    hands a Connected record to [send], which issues the first request,
    exactly when the URL constructor of the platform accepts the
    endpoint; when the constructor throws it publishes Disconnected and
    does nothing else: no request, no timer. *)
Theorem C8_http_connect_follows_URL_constructor
    (i : nat) (url : option jsval) (s : State) :
  heap s !! i = Some (IHttp (HttpTransport.new url)) →
  (URL_accepts (platform s) url = true →
   HttpTransport.connect i s =
     HttpTransport.send i (MsgConnected VERSION) (updateBadge Connected s) ∧
   effects_of (HttpTransport.connect i) s =
     [Badge Connected; Fetch (nextId s) url (MsgConnected VERSION)]) ∧
  (URL_accepts (platform s) url = false →
   HttpTransport.connect i s = updateBadge Disconnected s ∧
   effects_of (HttpTransport.connect i) s = [Badge Disconnected] ∧
   requests (HttpTransport.connect i s) = requests s ∧
   timers (HttpTransport.connect i s) = timers s).
Proof.
  intros Hi. apply http_this_heap in Hi. split.
  - intros Hu.
    rewrite (http_connect_accepted i _ s Hi Hu). split; [done|].
    apply effects_of_app. rewrite (http_connect_accepted i _ s Hi Hu).
    destruct (http_send_first i (HttpTransport.new url) (MsgConnected VERSION)
                (updateBadge Connected s) Hi) as (-> & _); [simpl; lia|].
    simpl. by rewrite <- app_assoc.
  - intros Hu.
    rewrite (http_connect_rejected i _ s Hi Hu). split_and!; try done.
    apply effects_of_app. by rewrite (http_connect_rejected i _ s Hi Hu).
Qed.

Lemma C8_http_connect_witness :
  let s := set_heap {[ 1%nat := IHttp (HttpTransport.new (Some (JStr "localhost"))) ]}
             (init browser) in
  HttpTransport.connect 1 s = updateBadge Disconnected s.
Proof.
  intros s.
  apply (C8_http_connect_follows_URL_constructor 1
           (Some (JStr "localhost")) s); reflexivity.
Defined.

(** C8, counterexample.  The worker starts with the HTTP transport
    selected and the endpoint [ws://localhost:8767], which is not an
    HTTP(S) URI but which the URL constructor accepts: Connected is
    published and the Connected record is sent. *)
Lemma C8_counterexample :
  let cfg : gmap string jsval :=
    <["transportType" := JStr "http"]>
      {["httpUrl" := JStr "ws://localhost:8767"]} in
  is_http_uri (Some (JStr "ws://localhost:8767")) = false ∧
  option_map (λ s, (connectionStatus s, trace s))
    (run [LoadSettings cfg] (init browser)) =
  Some (Connected,
        [Badge Disconnected; Badge Connected;
         Fetch 2 (Some (JStr "ws://localhost:8767")) (MsgConnected "1.0.0")]).
Proof. split; vm_compute; reflexivity. Qed.

(** ** The native messaging transport *)

(** C9 (as amended). The native transport never sets a timer.  When
    the port is disconnected from the far side, Disconnected is
    published, nothing else changes (the instance keeps the port), and
    no further event of that port can be delivered.  [send] does nothing
    when the instance holds no port, as a new instance and one after
    [disconnect] do; on a port that the far side has disconnected it still
    calls [postMessage], which throws, publishes Disconnected and makes
    no second attempt; otherwise it posts the message once. *)
Theorem C9_native_transport_never_reconnects
    (i : nat) (n : NativeObject) (m : message) (s : State) :
  heap s !! i = Some (INative n) →
  (* no method sets a timer *)
  (timers (NativeTransport.connect i s) = timers s ∧
   timers (NativeTransport.disconnect i s) = timers s ∧
   timers (NativeTransport.send i m s) = timers s) ∧
  (* closure from the far side *)
  (∀ p s', step (PortDisconnected p) s = Some s' →
     effects_of (λ _, s') s = [Badge Disconnected] ∧
     connectionStatus s' = Disconnected ∧
     heap s' = heap s ∧ timers s' = timers s ∧ requests s' = requests s ∧
     sockets s' = sockets s ∧ transport s' = transport s ∧
     step (PortDisconnected p) s' = None ∧ step (PortMessage p) s' = None) ∧
  (* send *)
  (port n = None → NativeTransport.send i m s = s) ∧
  (∀ p, port n = Some p → ports s !! p = Some true →
     NativeTransport.send i m s = emit (PostMessage p m) s) ∧
  (∀ p, port n = Some p → ports s !! p ≠ Some true →
     NativeTransport.send i m s = updateBadge Disconnected s) ∧
  (* a new instance holds no port, and none after [disconnect] *)
  (∀ host, port (NativeTransport.new host) = None) ∧
  (∃ n', heap (NativeTransport.disconnect i s) !! i = Some (INative n') ∧
         port n' = None ∧
         NativeTransport.send i m (NativeTransport.disconnect i s) =
         NativeTransport.disconnect i s).
Proof.
  intros Hi.
  assert (heap (NativeTransport.disconnect i s) !! i =
          Some (INative {| hostName := hostName n; port := None |})) as Hd.
  { unfold NativeTransport.disconnect, NativeTransport.send,
      NativeTransport.this, NativeTransport.store.
    cbv zeta. rewrite Hi.
    destruct n as [host [p|]]; simpl.
    - case_bool_decide; simpl; rewrite Hi; simpl; apply lookup_insert_eq.
    - exact Hi. }
  apply native_this_heap in Hi. split_and!.
  - unfold NativeTransport.connect, NativeTransport.send, NativeTransport.this.
    cbv zeta. simpl. repeat case_match; reflexivity.
  - unfold NativeTransport.disconnect, NativeTransport.send, NativeTransport.this.
    cbv zeta. simpl. repeat case_match; reflexivity.
  - unfold NativeTransport.send, NativeTransport.this.
    repeat case_match; reflexivity.
  - intros p s' Hs. simpl in Hs. case_bool_decide as Hp; [|done].
    injection Hs as <-. unfold NativeTransport.onDisconnect.
    split_and!; try reflexivity.
    + by apply effects_of_app.
    + simpl. rewrite lookup_insert_eq. by rewrite bool_decide_eq_false_2.
    + simpl. rewrite lookup_insert_eq. by rewrite bool_decide_eq_false_2.
  - intros Hp. unfold NativeTransport.send. by rewrite Hi, Hp.
  - intros p Hp Hopen. unfold NativeTransport.send.
    by rewrite Hi, Hp, bool_decide_eq_true_2.
  - intros p Hp Hclosed. unfold NativeTransport.send.
    by rewrite Hi, Hp, bool_decide_eq_false_2.
  - reflexivity.
  - eexists. split_and!; [exact Hd|reflexivity|].
    unfold NativeTransport.send at 1, NativeTransport.this. by rewrite Hd.
Qed.

Lemma C9_native_transport_witness :
  let s := default (init browser)
             (run [LoadSettings {["transportType" := JStr "native"]};
                   PortDisconnected 2] (init browser)) in
  NativeTransport.send 1 MsgHeartbeat s = updateBadge Disconnected s.
Proof.
  intros s.
  pose (n := {| hostName := Some (JStr "com.subtitle.streamer");
                port := Some 2%nat |}).
  assert (heap s !! 1%nat = Some (INative n)) as Hi by (vm_compute; reflexivity).
  destruct (C9_native_transport_never_reconnects 1 n MsgHeartbeat s Hi)
    as (_ & _ & _ & _ & Hclosed & _).
  apply (Hclosed 2%nat eq_refl). vm_compute. discriminate.
Defined.

(** C9, counterexample.  The far side has closed the port, so the
    channel is not open, and [send] is no no-op: the message that the
    content script hands in makes the worker publish Disconnected.
    When another instance has published Connected in between, that
    [send] turns the status from Connected to Disconnected. *)
Lemma C9_counterexample :
  option_map
    (λ s, (truthy (settings s !! "enabled"), transport s,
           heap s !! 1%nat, ports s !! 2%nat,
           effects_of (handleSubtitle (MsgSubtitle "text")) s))
    (run native_closed_by_host (init browser)) =
  Some (true, Some 1%nat,
        Some (INative {| hostName := Some (JStr "com.subtitle.streamer");
                         port := Some 2%nat |}),
        Some false, [Badge Disconnected]) ∧
  option_map
    (λ s, (connectionStatus s, ports s !! 5%nat,
           connectionStatus (handleSubtitle (MsgSubtitle "text") s),
           effects_of (handleSubtitle (MsgSubtitle "text")) s))
    (run native_closed_then_connected (init browser)) =
  Some (Connected, Some false, Disconnected, [Badge Disconnected]).
Proof. split; vm_compute; reflexivity. Qed.

(** ** The WebSocket transport: [disconnect] *)

Lemma ws_disconnect_first i w s :
  heap s !! i = Some (IWs w) →
  trace (WebSocketTransport.disconnect i s) = trace s ++ disconnect_calls w s ∧
  heap (WebSocketTransport.disconnect i s) = <[i := IWs (stopped w)]> (heap s) ∧
  connectionStatus (WebSocketTransport.disconnect i s) = Disconnected.
Proof.
  intros Hi. split_and!; [| |reflexivity].
  all: unfold WebSocketTransport.disconnect, WebSocketTransport.stopHeartbeat,
    WebSocketTransport.send, WebSocketTransport.socket_close,
    WebSocketTransport.this, WebSocketTransport.store, disconnect_calls,
    socket_is_open, stopped.
  all: cbv zeta; rewrite Hi.
  all: destruct w as [url ws att maxA maxD hb rt]; simpl.
  all: destruct rt as [rt|], hb as [hb|], ws as [k|];
    repeat (simpl; rewrite ?lookup_insert_eq, ?Hi, ?insert_insert_eq).
  all: try (destruct (sockets s !! k) as [[rs o]|] eqn:Hk;
            [destruct rs|];
            repeat (simpl; rewrite ?lookup_insert_eq, ?Hi, ?Hk, ?insert_insert_eq)).
  all: rewrite <- ?app_assoc; try reflexivity.
  all: try (symmetry; by apply insert_id).
Qed.

Lemma ws_disconnect_again i w s :
  heap s !! i = Some (IWs (stopped w)) →
  WebSocketTransport.disconnect i s = updateBadge Disconnected s.
Proof.
  intros Hi.
  unfold WebSocketTransport.disconnect, WebSocketTransport.stopHeartbeat,
    WebSocketTransport.this.
  cbv zeta. repeat (simpl; rewrite ?Hi). reflexivity.
Qed.

Lemma ws_disconnect_timers i s t :
  wf s → is_Some (heap s !! i) →
  timers (WebSocketTransport.disconnect i s) !! t ≠ Some (TReconnect i) ∧
  timers (WebSocketTransport.disconnect i s) !! t ≠ Some (THeartbeat i).
Proof.
  intros Hwf [x Hx].
  assert (wf (WebSocketTransport.disconnect i s)) as Hwf' by eauto with wf.
  destruct x as [w|h|n].
  - destruct (ws_disconnect_first i w s Hx) as (_ & Hheap & _).
    split; intros Ht.
    + destruct (wf_reconnect _ Hwf' _ _ Ht) as (w' & Hw' & Hrt).
      rewrite Hheap, lookup_insert_eq in Hw'. by injection Hw' as <-.
    + destruct (wf_heartbeat _ Hwf' _ _ Ht) as (w' & Hw' & Hrt).
      rewrite Hheap, lookup_insert_eq in Hw'. by injection Hw' as <-.
  - assert (heap (WebSocketTransport.disconnect i s) !! i = Some (IHttp h)) as Hh.
    { unfold WebSocketTransport.disconnect, WebSocketTransport.stopHeartbeat,
        WebSocketTransport.this. cbv zeta. repeat (simpl; rewrite ?Hx). done. }
    split; intros Ht.
    + destruct (wf_reconnect _ Hwf' _ _ Ht) as (w' & Hw' & Hrt). congruence.
    + destruct (wf_heartbeat _ Hwf' _ _ Ht) as (w' & Hw' & Hrt). congruence.
  - assert (heap (WebSocketTransport.disconnect i s) !! i = Some (INative n)) as Hh.
    { unfold WebSocketTransport.disconnect, WebSocketTransport.stopHeartbeat,
        WebSocketTransport.this. cbv zeta. repeat (simpl; rewrite ?Hx). done. }
    split; intros Ht.
    + destruct (wf_reconnect _ Hwf' _ _ Ht) as (w' & Hw' & Hrt). congruence.
    + destruct (wf_heartbeat _ Hwf' _ _ Ht) as (w' & Hw' & Hrt). congruence.
Qed.

(** The socket that the instance held is closing or closed afterwards. *)
Lemma ws_disconnect_socket i w k s sock :
  heap s !! i = Some (IWs w) → ws_ws w = Some k →
  sockets (WebSocketTransport.disconnect i s) !! k = Some sock →
  readyState sock = CLOSING ∨ readyState sock = CLOSED.
Proof.
  intros Hi Hk.
  unfold WebSocketTransport.disconnect, WebSocketTransport.stopHeartbeat,
    WebSocketTransport.send, WebSocketTransport.socket_close,
    WebSocketTransport.this, WebSocketTransport.store.
  cbv zeta. rewrite Hi.
  destruct w as [url ws att maxA maxD hb rt]; simpl in *. subst ws.
  destruct rt as [rt|], hb as [hb|];
    repeat (simpl; rewrite ?lookup_insert_eq, ?Hi, ?insert_insert_eq).
  all: destruct (sockets s !! k) as [[rs o]|] eqn:Hs;
         [destruct rs|];
         repeat (simpl; rewrite ?lookup_insert_eq, ?Hi, ?Hs, ?insert_insert_eq).
  all: intros; simplify_eq/=; eauto.
Qed.

(** C7 (as amended). [WebSocketTransport.disconnect] clears the
    reconnect timer and the heartbeat interval of the instance, sends
    the Disconnected record only through an open socket, closes the
    socket, forgets it, and publishes Disconnected; afterwards no timer
    of the instance is pending.  A second call finds nothing to stop:
    its one effect is to publish Disconnected once more, and it changes
    nothing else. *)
Theorem C7_ws_disconnect_idempotent
    (P : Platform) (i : nat) (w : WsObject) (s : State) :
  reachable P s →
  heap s !! i = Some (IWs w) →
  let s1 := WebSocketTransport.disconnect i s in
  let s2 := WebSocketTransport.disconnect i s1 in
  (* the first call *)
  effects_of (WebSocketTransport.disconnect i) s = disconnect_calls w s ∧
  heap s1 !! i = Some (IWs (stopped w)) ∧
  connectionStatus s1 = Disconnected ∧
  (∀ t, timers s1 !! t ≠ Some (TReconnect i) ∧
        timers s1 !! t ≠ Some (THeartbeat i)) ∧
  (∀ k sock, ws_ws w = Some k → sockets s1 !! k = Some sock →
     readyState sock = CLOSING ∨ readyState sock = CLOSED) ∧
  (* the second call *)
  s2 = updateBadge Disconnected s1 ∧
  effects_of (WebSocketTransport.disconnect i) s1 = [Badge Disconnected] ∧
  connectionStatus s2 = Disconnected ∧
  heap s2 = heap s1 ∧ timers s2 = timers s1 ∧ sockets s2 = sockets s1 ∧
  requests s2 = requests s1 ∧ ports s2 = ports s1 ∧
  transport s2 = transport s1 ∧ settings s2 = settings s1 ∧
  (∀ t, timers s2 !! t ≠ Some (TReconnect i) ∧
        timers s2 !! t ≠ Some (THeartbeat i)).
Proof.
  intros Hr Hi s1 s2. apply reachable_wf in Hr.
  destruct (ws_disconnect_first i w s Hi) as (Htr & Hheap & Hst).
  assert (heap s1 !! i = Some (IWs (stopped w))) as Hi1
    by (subst s1 s2; rewrite Hheap; apply lookup_insert_eq).
  assert (s2 = updateBadge Disconnected s1) as Hs2
    by (by apply (ws_disconnect_again i w)).
  assert (∀ t, timers s1 !! t ≠ Some (TReconnect i) ∧
               timers s1 !! t ≠ Some (THeartbeat i)) as Htm
    by (intros t; by apply ws_disconnect_timers).
  split_and!.
  - by apply effects_of_app.
  - exact Hi1.
  - exact Hst.
  - exact Htm.
  - intros k sock Hk Hsock.
    exact (ws_disconnect_socket i w k s sock Hi Hk Hsock).
  - exact Hs2.
  - apply effects_of_app.
    change (trace s2 = trace s1 ++ [Badge Disconnected]).
    rewrite Hs2. reflexivity.
  - rewrite Hs2. reflexivity.
  - rewrite Hs2. reflexivity.
  - rewrite Hs2. reflexivity.
  - rewrite Hs2. reflexivity.
  - rewrite Hs2. reflexivity.
  - rewrite Hs2. reflexivity.
  - rewrite Hs2. reflexivity.
  - rewrite Hs2. reflexivity.
  - rewrite Hs2. exact Htm.
Qed.

Lemma C7_ws_disconnect_witness :
  let s := loadSettings ∅ (init browser) in
  let w := WebSocketTransport.with_ws (Some 2%nat)
             (WebSocketTransport.new (Some (JStr "ws://localhost:8767"))) in
  effects_of (WebSocketTransport.disconnect 1) s = disconnect_calls w s.
Proof.
  intros s w.
  assert (reachable browser s) as Hr
    by (apply (reachable_step browser (init browser) (LoadSettings ∅));
        [apply reachable_init | reflexivity]).
  assert (heap s !! 1%nat = Some (IWs w)) as Hi by reflexivity.
  exact (proj1 (C7_ws_disconnect_idempotent browser 1 w s Hr Hi)).
Defined.

(** C7, counterexample.  The second of two calls in a row is not
    without effect: it publishes Disconnected again, so the badge is set
    once more. *)
Lemma C7_counterexample :
  let s1 := WebSocketTransport.disconnect 1 (loadSettings ∅ (init browser)) in
  let s2 := WebSocketTransport.disconnect 1 s1 in
  (effects_of (WebSocketTransport.disconnect 1) s1,
   length (trace s1), length (trace s2)) =
  ([Badge Disconnected], 5%nat, 6%nat).
Proof. vm_compute. reflexivity. Qed.

(** ** The WebSocket transport: automatic reconnection *)

Lemma scheduleReconnect_exhausted i w s :
  heap s !! i = Some (IWs w) → reconnectTimeout w = None →
  (maxReconnectAttempts w ≤ reconnectAttempts w)%nat →
  WebSocketTransport.scheduleReconnect i s = updateBadge Disconnected s.
Proof.
  intros Hi Ht Ha. apply ws_this_heap in Hi.
  unfold WebSocketTransport.scheduleReconnect. rewrite Hi, Ht.
  apply Nat.leb_le in Ha. by rewrite Ha.
Qed.

Lemma scheduleReconnect_pending i w t s :
  heap s !! i = Some (IWs w) → reconnectTimeout w = Some t →
  WebSocketTransport.scheduleReconnect i s = s.
Proof.
  intros Hi Ht. apply ws_this_heap in Hi.
  unfold WebSocketTransport.scheduleReconnect. by rewrite Hi, Ht.
Qed.

Lemma reconnect_timer_unique s i t1 t2 :
  wf s →
  timers s !! t1 = Some (TReconnect i) → timers s !! t2 = Some (TReconnect i) →
  t1 = t2.
Proof.
  intros Hwf H1 H2.
  destruct (wf_reconnect _ Hwf _ _ H1) as (w1 & Hw1 & Hr1).
  destruct (wf_reconnect _ Hwf _ _ H2) as (w2 & Hw2 & Hr2).
  congruence.
Qed.

Lemma run_reachable P es s s' :
  reachable P s → run es s = Some s' → reachable P s'.
Proof.
  revert s. induction es as [|e es IH]; intros s Hr Hrun; simpl in Hrun.
  - by injection Hrun as <-.
  - destruct (step e s) as [s1|] eqn:E; [|done].
    apply (IH s1); [|done]. by eapply reachable_step.
Qed.

(** No socket, timer, request or port event can be delivered to a state
    without pending timers, running requests and connected ports whose
    sockets are all closed. *)
Lemma quiescent s :
  timers s = ∅ → requests s = ∅ → ports s = ∅ →
  map_Forall (λ _ sock, readyState sock = CLOSED) (sockets s) →
  ∀ e, external e = false → step e s = None.
Proof.
  intros Ht Hq Hp Hs e He. destruct e; try discriminate He; simpl.
  - destruct (sockets s !! k) as [sock|] eqn:E; [|done].
    rewrite (Hs _ _ E). done.
  - destruct (sockets s !! k) as [sock|] eqn:E; [|done].
    rewrite (Hs _ _ E). done.
  - destruct (sockets s !! k) as [sock|] eqn:E; [|done].
    rewrite (Hs _ _ E). done.
  - by rewrite Ht, lookup_empty.
  - by rewrite Hq, lookup_empty.
  - by rewrite Hp, lookup_empty.
  - by rewrite Hp, lookup_empty.
Qed.

(** C1, counterexample.  After exactly three consecutive failed connect
    cycles a reconnect timer is pending (the third reconnection, due in
    4000 ms), and when the endpoint keeps refusing, Connecting is
    published a fourth time. *)
Lemma C1_counterexample :
  option_map
    (λ s, (count_status Connecting (published s),
           map_to_list (timers s),
           drop 15 (trace s)))
    (run refused_three_times (init browser)) =
  Some (3%nat, [(7%nat, TReconnect 1)], [SetTimeout 7 4000]) ∧
  option_map (λ s, count_status Connecting (published s))
    (run refused_forever (init browser)) = Some 4%nat.
Proof. split; vm_compute; reflexivity. Qed.

(** ** The HTTP transport: [send] *)

(** X18. A call of [send] never issues more requests than [maxRetries]:
    in every reachable state at most three requests have been issued for
    it, whatever the endpoint answered. *)
Lemma http_attempts_bounded P s r :
  reachable P s → (fetches_of r (trace s) ≤ 3)%nat.
Proof.
  intros Hr. apply reachable_wf in Hr.
  destruct (requests s !! r) as [q|] eqn:E.
  - destruct (wf_request _ Hr _ _ E) as (_ & Ha & ->).
    destruct (req_sleeping q); lia.
  - by apply (wf_finished _ Hr).
Qed.

(** X19. When [fetch] rejects on an attempt that is not the last, the call
    pauses for 1000 * (attempt + 1) ms and then issues the next request;
    on the last attempt it publishes Disconnected and ends. *)
Lemma http_rejected_backoff P s r q :
  reachable P s → requests s !! r = Some q → req_sleeping q = false →
  let s1 := HttpTransport.resume r FetchRejected s in
  ((req_attempt q < 2)%nat →
   effects_of (HttpTransport.resume r FetchRejected) s =
     [SetTimeout (nextId s) (1000 * (Z.of_nat (req_attempt q) + 1))] ∧
   timers s1 !! nextId s = Some (TRetry r) ∧
   ∃ url, effects_of (HttpTransport.retry_callback r)
            (set_timers (delete (nextId s) (timers s1)) s1) =
          [Fetch r url (req_msg q)]) ∧
  (req_attempt q = 2%nat →
   effects_of (HttpTransport.resume r FetchRejected) s = [Badge Disconnected] ∧
   connectionStatus s1 = Disconnected ∧ requests s1 !! r = None).
Proof.
  intros Hr Hq Hs s1. apply reachable_wf in Hr.
  destruct (wf_request _ Hr _ _ Hq) as ((h & Hh) & Ha & Hf).
  pose proof (wf_http _ Hr _ _ Hh) as Hmax. rewrite Hs in Ha.
  apply http_this_heap in Hh.
  split; intros Hatt.
  - assert (s1 = emit (SetTimeout (nextId s) (1000 * (Z.of_nat (req_attempt q) + 1)))
                   (set_timers (<[nextId s := TRetry r]> (timers s))
                      (set_requests
                         (<[r := HttpTransport.with_attempt (req_attempt q) true q]>
                            (requests s)) (bump s)))) as Hs1.
    { unfold s1, HttpTransport.resume. rewrite Hq, Hh, Hmax.
      destruct (Nat.eqb_spec (req_attempt q) (3 - 1)); [simpl in *; lia|done]. }
    split_and!.
    + apply effects_of_app. fold s1. by rewrite Hs1.
    + rewrite Hs1. simpl. apply lookup_insert_eq.
    + exists (http_url h). apply effects_of_app.
      unfold HttpTransport.retry_callback, HttpTransport.loop.
      rewrite Hs1. simpl. rewrite lookup_insert_eq. simpl.
      replace (HttpTransport.this (req_this q) _) with (Some h) by (by rewrite <- Hh).
      rewrite Hmax.
      destruct (Nat.ltb_spec (S (req_attempt q)) 3); [done|lia].
  - assert (s1 = set_requests (delete r (requests s)) (updateBadge Disconnected s))
      as Hs1.
    { unfold s1, HttpTransport.resume, HttpTransport.loop.
      rewrite Hq, Hh, Hmax, Hatt. simpl. rewrite Hq.
      replace (HttpTransport.this (req_this q) _) with (Some h) by (by rewrite <- Hh).
      by rewrite Hmax. }
    split_and!.
    + apply effects_of_app. fold s1. by rewrite Hs1.
    + by rewrite Hs1.
    + rewrite Hs1. simpl. apply lookup_delete_eq.
Qed.

(** When an attempt is answered with [response.ok], Connected is
    published unless it is the status already, and the call ends. *)
Lemma http_success_publishes_connected s r q h :
  requests s !! r = Some q → HttpTransport.this (req_this q) s = Some h →
  let s1 := HttpTransport.resume r ResponseOk s in
  connectionStatus s1 = Connected ∧ requests s1 !! r = None ∧
  effects_of (HttpTransport.resume r ResponseOk) s =
    (if bool_decide (connectionStatus s = Connected) then [] else [Badge Connected]).
Proof.
  intros Hq Hh s1.
  assert (s1 = let s0 := if bool_decide (connectionStatus s = Connected)
                         then s else updateBadge Connected s in
               set_requests (delete r (requests s0)) s0) as Hs1
    by (unfold s1, HttpTransport.resume; by rewrite Hq, Hh).
  split_and!.
  - rewrite Hs1. by case_bool_decide.
  - rewrite Hs1. case_bool_decide; simpl; apply lookup_delete_eq.
  - apply effects_of_app. fold s1. rewrite Hs1.
    case_bool_decide; simpl; by rewrite ?app_nil_r.
Qed.

(** Scenario B: two rejected attempts and an answered third. *)
Lemma http_third_attempt_succeeds :
  option_map (λ s, (connectionStatus s, fetches_of 2 (trace s), trace s))
    (run http_third_time_lucky (init browser)) =
  Some (Connected, 3%nat,
        [Badge Disconnected; Badge Connected;
         Fetch 2 (Some (JStr "http://localhost:8080/subtitle")) (MsgConnected "1.0.0");
         SetTimeout 3 1000;
         Fetch 2 (Some (JStr "http://localhost:8080/subtitle")) (MsgConnected "1.0.0");
         SetTimeout 4 2000;
         Fetch 2 (Some (JStr "http://localhost:8080/subtitle")) (MsgConnected "1.0.0")]).
Proof. vm_compute. reflexivity. Qed.

(** C4, the failing input.  When the endpoint answers each of the three
    attempts with an error status, the three requests follow one another
    with no pause between them, and after the third the status is still
    Connected: Disconnected is never published. *)
Theorem C4_error_responses_skip_backoff_and_status :
  option_map (λ s, (connectionStatus s, fetches_of 2 (trace s),
                    map_to_list (requests s), trace s))
    (run http_error_responses (init browser)) =
  Some (Connected, 3%nat, [],
        [Badge Disconnected; Badge Connected;
         Fetch 2 (Some (JStr "http://localhost:8080/subtitle")) (MsgConnected "1.0.0");
         Fetch 2 (Some (JStr "http://localhost:8080/subtitle")) (MsgConnected "1.0.0");
         Fetch 2 (Some (JStr "http://localhost:8080/subtitle")) (MsgConnected "1.0.0")]).
Proof. vm_compute. reflexivity. Qed.

(** ** One active transport *)

(** C6, the failing input.  A connected WebSocket instance is released
    because the extension is disabled.  The close event of its socket
    still runs its handler, which sets a reconnect timer; the timer
    connects the released instance again.  In the end no transport is
    active and [enabled] is false, yet the status is Connected, a socket
    of the released instance is open and its heartbeat is running. *)
Theorem C6_released_instance_reconnects :
  option_map
    (λ s, (transport s, truthy (settings s !! "enabled"), connectionStatus s,
           sockets s !! 5%nat, map_to_list (timers s), published s))
    (run released_instance_revives (init browser)) =
  Some (None, false, Connected,
        Some {| readyState := OPEN; sock_owner := 1 |},
        [(6%nat, THeartbeat 1)],
        [Disconnected; Connecting; Connected;
         Disconnected; Disconnected; Disconnected;
         Connecting; Connected]).
Proof. vm_compute. reflexivity. Qed.

(** The same defect with a change of [wsUrl]: the manager connects a
    second instance, the released one reconnects beside it, and two
    sockets are open and two heartbeats running at once. *)
Lemma released_instance_beside_active_one :
  option_map
    (λ s, (transport s, sockets s !! 5%nat, sockets s !! 8%nat,
           timers s !! 6%nat, timers s !! 9%nat))
    (run two_instances_live (init browser)) =
  Some (Some 4%nat,
        Some {| readyState := OPEN; sock_owner := 4 |},
        Some {| readyState := OPEN; sock_owner := 1 |},
        Some (THeartbeat 4), Some (THeartbeat 1)).
Proof. vm_compute. reflexivity. Qed.

(** The HTTP transport has the same flaw by another route: the request
    that [disconnect] sends is answered after the instance has been
    released, and the answer publishes Connected. *)
Lemma released_http_instance_publishes_connected :
  option_map (λ s, (transport s, truthy (settings s !! "enabled"),
                    connectionStatus s, published s))
    (run http_answer_after_release (init browser)) =
  Some (None, false, Connected,
        [Disconnected; Connected; Disconnected; Disconnected; Connected]).
Proof. vm_compute. reflexivity. Qed.

(** What does hold: [connectTransport] first runs [disconnectTransport],
    so the manager never calls [connect] on a new instance before
    [disconnect] has run on the one it held, and it holds at most one. *)
Lemma connectTransport_disconnects_first s :
  transport (disconnectTransport s) = None ∧
  (connectTransport s = disconnectTransport s ∨
   ∃ obj, connectTransport s = install obj (disconnectTransport s)).
Proof.
  split; [apply transport_disconnectTransport|].
  unfold connectTransport. cbv zeta. repeat case_match; eauto.
Qed.

(** * Further properties of the worker *)

(** ** Start-up: [loadSettings] *)

Lemma connectTransport_known s :
  known_type (settings s) = true →
  transport (connectTransport s) = Some (nextId (disconnectTransport s)).
Proof.
  intros Hk. unfold connectTransport. cbv zeta.
  rewrite (proj1 (same_config_disconnectTransport s)).
  unfold known_type in Hk.
  repeat case_bool_decide; rewrite ?transport_install; try done.
Qed.

Lemma connectTransport_unknown s :
  known_type (settings s) = false →
  connectTransport s = disconnectTransport s.
Proof.
  intros Hk. unfold connectTransport. cbv zeta.
  rewrite (proj1 (same_config_disconnectTransport s)).
  unfold known_type in Hk.
  repeat case_bool_decide; try done.
Qed.



(** X2. In every state the worker can reach, the settings object still
    carries the five properties it started with: the merges of
    [loadSettings] and [updateSettings] add or overwrite properties and
    never remove one, so none of them ever reads as [undefined]. *)
Theorem X2_settings_keep_their_properties (P : Platform) (s : State) :
  reachable P s →
  has_compared_fields (settings s) ∧
  ∀ k, k ∈ compared_fields → ∃ v, settings s !! k = Some v.
Proof.
  intros Hr. apply reachable_wf in Hr. pose proof (wf_settings _ Hr) as H.
  split; [done|]. intros k Hk.
  unfold has_compared_fields in H. rewrite Forall_forall in H.
  exact (H k Hk).
Qed.

Lemma X2_settings_witness :
  has_compared_fields (settings (loadSettings ∅ (init browser))).
Proof.
  apply (X2_settings_keep_their_properties browser).
  apply (reachable_step browser (init browser) (LoadSettings ∅));
    [apply reachable_init | reflexivity].
Defined.

(** ** The heartbeat of the WebSocket transport *)

Lemma startHeartbeat_result i w s :
  heap s !! i = Some (IWs w) →
  nextId (WebSocketTransport.startHeartbeat i s) = S (nextId s) ∧
  timers (WebSocketTransport.startHeartbeat i s) !! nextId s = Some (THeartbeat i) ∧
  heap (WebSocketTransport.startHeartbeat i s) !! i =
    Some (IWs (WebSocketTransport.with_heartbeatInterval (Some (nextId s)) w)) ∧
  trace (WebSocketTransport.startHeartbeat i s) =
    trace s ++
    match heartbeatInterval w with Some t => [ClearInterval t] | None => [] end ++
    [SetInterval (nextId s) 30000].
Proof.
  intros Hi.
  unfold WebSocketTransport.startHeartbeat, WebSocketTransport.stopHeartbeat,
    WebSocketTransport.this, WebSocketTransport.store.
  cbv zeta. rewrite Hi.
  destruct w as [url ws att maxA maxD hb rt]; simpl.
  destruct hb as [hb|]; repeat (simpl; rewrite ?lookup_insert_eq, ?Hi).
  all: split_and!; try reflexivity.
  all: try (by rewrite <- ?app_assoc).
  all: by rewrite ?insert_insert_eq.
Qed.

(** X3. An instance never has two heartbeat intervals running: in every
    reachable state a pending heartbeat interval of an instance is the
    one its [heartbeatInterval] field names, and [startHeartbeat], which
    first stops the interval it finds, leaves exactly the new one. *)
Theorem X3_one_heartbeat_per_instance
    (P : Platform) (i : nat) (w : WsObject) (s : State) :
  reachable P s →
  heap s !! i = Some (IWs w) →
  (∀ t, timers s !! t = Some (THeartbeat i) → heartbeatInterval w = Some t) ∧
  (∀ t1 t2, timers s !! t1 = Some (THeartbeat i) →
            timers s !! t2 = Some (THeartbeat i) → t1 = t2) ∧
  (∀ t, timers (WebSocketTransport.startHeartbeat i s) !! t = Some (THeartbeat i)
        ↔ t = nextId s) ∧
  effects_of (WebSocketTransport.startHeartbeat i) s =
    match heartbeatInterval w with Some t => [ClearInterval t] | None => [] end ++
    [SetInterval (nextId s) 30000].
Proof.
  intros Hr Hi. apply reachable_wf in Hr.
  assert (∀ t, timers s !! t = Some (THeartbeat i) → heartbeatInterval w = Some t)
    as Hfield.
  { intros t Ht. destruct (wf_heartbeat _ Hr _ _ Ht) as (w' & Hw' & Hhb).
    congruence. }
  destruct (startHeartbeat_result i w s Hi) as (Hn & Ht & Hh & Heff).
  apply effects_of_app in Heff.
  split_and!; try done.
  - intros t1 t2 H1 H2. apply Hfield in H1, H2. congruence.
  - intros t. split; [|by intros ->].
    intros Hpend.
    destruct (wf_heartbeat _ (wf_startHeartbeat i s Hr) _ _ Hpend)
      as (w' & Hw' & Hhb).
    rewrite Hh in Hw'. injection Hw' as <-. simpl in Hhb. congruence.
Qed.

Lemma X3_one_heartbeat_witness :
  let s := default (init browser)
             (run [LoadSettings ∅; SocketOpen 2] (init browser)) in
  effects_of (WebSocketTransport.startHeartbeat 1) s =
    [ClearInterval 3; SetInterval 4 30000].
Proof.
  intros s.
  assert (reachable browser s) as Hr
    by (apply (run_reachable browser [LoadSettings ∅; SocketOpen 2] (init browser));
        [apply reachable_init | vm_compute; reflexivity]).
  pose (w := {| ws_url := Some (JStr "ws://localhost:8767");
                ws_ws := Some 2%nat; reconnectAttempts := 0;
                maxReconnectAttempts := 3; maxReconnectDelay := 30000;
                heartbeatInterval := Some 3%nat; reconnectTimeout := None |}).
  assert (heap s !! 1%nat = Some (IWs w)) as Hi by (vm_compute; reflexivity).
  exact (proj2 (proj2 (proj2 (X3_one_heartbeat_per_instance browser 1 w s Hr Hi)))).
Defined.

(** ** Releasing an HTTP transport *)

(** X4. [HttpTransport.disconnect] has no state to look at: every call
    issues a request that carries a Disconnected record and then
    publishes Disconnected, also when the instance has been
    disconnected before, so two calls in a row send two records. *)
Theorem X4_http_disconnect_always_sends
    (P : Platform) (i : nat) (h : HttpObject) (s : State) :
  reachable P s →
  heap s !! i = Some (IHttp h) →
  let s1 := HttpTransport.disconnect i s in
  effects_of (HttpTransport.disconnect i) s =
    [Fetch (nextId s) (http_url h) MsgDisconnected; Badge Disconnected] ∧
  effects_of (HttpTransport.disconnect i) s1 =
    [Fetch (S (nextId s)) (http_url h) MsgDisconnected; Badge Disconnected] ∧
  connectionStatus s1 = Disconnected ∧
  timers s1 = timers s.
Proof.
  intros Hr Hi s1. apply reachable_wf in Hr.
  pose proof (wf_http _ Hr _ _ Hi) as Hmax.
  apply http_this_heap in Hi.
  assert (∀ s0, HttpTransport.this i s0 = Some h →
            trace (HttpTransport.disconnect i s0) =
              trace s0 ++ [Fetch (nextId s0) (http_url h) MsgDisconnected;
                           Badge Disconnected] ∧
            timers (HttpTransport.disconnect i s0) = timers s0 ∧
            nextId (HttpTransport.disconnect i s0) = S (nextId s0) ∧
            HttpTransport.this i (HttpTransport.disconnect i s0) = Some h) as Hone.
  { intros s0 H0. unfold HttpTransport.disconnect, HttpTransport.send,
      HttpTransport.loop. cbv zeta. simpl. rewrite lookup_insert_eq. simpl.
    replace (HttpTransport.this i _) with (Some h) by (by rewrite <- H0).
    rewrite Hmax. simpl. split_and!; try done.
    by rewrite <- app_assoc. }
  destruct (Hone s Hi) as (Htr & Htm & Hn & Hi1).
  destruct (Hone s1 Hi1) as (Htr1 & _ & _ & _).
  split_and!; try done.
  - by apply effects_of_app.
  - apply effects_of_app. rewrite Htr1. unfold s1. by rewrite Hn.
Qed.

Lemma X4_http_disconnect_witness :
  let s := loadSettings {["transportType" := JStr "http"]} (init browser) in
  effects_of (HttpTransport.disconnect 1) s =
    [Fetch 3 (Some (JStr "http://localhost:8080/subtitle")) MsgDisconnected;
     Badge Disconnected].
Proof.
  intros s.
  assert (reachable browser s) as Hr
    by (apply (reachable_step browser (init browser)
                 (LoadSettings {["transportType" := JStr "http"]}));
        [apply reachable_init | reflexivity]).
  assert (heap s !! 1%nat =
          Some (IHttp (HttpTransport.new (Some (JStr "http://localhost:8080/subtitle")))))
    as Hi by (vm_compute; reflexivity).
  exact (proj1 (X4_http_disconnect_always_sends browser 1 _ s Hr Hi)).
Defined.

(** ** The native messaging transport: [connect] and [disconnect] *)

Lemma native_connect_accepted i n s :
  heap s !! i = Some (INative n) →
  connectNative_accepts (platform s) (hostName n) = true →
  trace (NativeTransport.connect i s) =
    trace s ++ [Badge Connecting; ConnectNative (nextId s) (hostName n);
                Badge Connected; PostMessage (nextId s) (MsgConnected VERSION)] ∧
  connectionStatus (NativeTransport.connect i s) = Connected ∧
  heap (NativeTransport.connect i s) =
    <[i := INative {| hostName := hostName n; port := Some (nextId s) |}]> (heap s) ∧
  ports (NativeTransport.connect i s) = <[nextId s := true]> (ports s).
Proof.
  intros Hi Hacc.
  unfold NativeTransport.connect, NativeTransport.send, NativeTransport.this,
    NativeTransport.store.
  cbv zeta. simpl. rewrite Hi. simpl in Hacc. rewrite Hacc. simpl.
  repeat (simpl; rewrite ?lookup_insert_eq).
  rewrite ?bool_decide_eq_true_2 by done. simpl.
  split_and!; try reflexivity. by rewrite <- !app_assoc.
Qed.

Lemma native_disconnect_result i n s :
  heap s !! i = Some (INative n) →
  trace (NativeTransport.disconnect i s) =
    trace s ++
    match port n with
    | Some p =>
        (if bool_decide (ports s !! p = Some true)
         then [PostMessage p MsgDisconnected] else [Badge Disconnected]) ++
        [PortDisconnect p]
    | None => []
    end ++ [Badge Disconnected] ∧
  heap (NativeTransport.disconnect i s) =
    <[i := INative {| hostName := hostName n; port := None |}]> (heap s) ∧
  ports (NativeTransport.disconnect i s) =
    match port n with Some p => <[p := false]> (ports s) | None => ports s end.
Proof.
  intros Hi.
  unfold NativeTransport.disconnect, NativeTransport.send, NativeTransport.this,
    NativeTransport.store.
  cbv zeta. rewrite Hi. destruct n as [host [p|]]; simpl.
  - case_bool_decide; simpl; rewrite Hi; simpl;
      split_and!; try reflexivity; by rewrite <- !app_assoc.
  - split_and!; try reflexivity.
    symmetry. by apply insert_id.
Qed.

Lemma port_events_off p s :
  ports s !! p = Some false →
  step (PortDisconnected p) s = None ∧ step (PortMessage p) s = None.
Proof.
  intros H. simpl. rewrite H. by rewrite bool_decide_eq_false_2.
Qed.

(** X5. [NativeTransport.connect] publishes Connecting, opens the port,
    publishes Connected and posts the Connected record on the new port;
    when [connectNative] throws it publishes Disconnected instead and
    holds no port.  [NativeTransport.disconnect] posts the Disconnected
    record (which only publishes Disconnected when the far side has
    closed the port already), disconnects the port, forgets it and
    publishes Disconnected; after it the port delivers no event, and a
    second [disconnect] only publishes Disconnected again. *)
Theorem X5_native_connect_and_disconnect
    (i : nat) (n : NativeObject) (s : State) :
  heap s !! i = Some (INative n) →
  (connectNative_accepts (platform s) (hostName n) = true →
   effects_of (NativeTransport.connect i) s =
     [Badge Connecting; ConnectNative (nextId s) (hostName n);
      Badge Connected; PostMessage (nextId s) (MsgConnected VERSION)] ∧
   connectionStatus (NativeTransport.connect i s) = Connected ∧
   heap (NativeTransport.connect i s) !! i =
     Some (INative {| hostName := hostName n; port := Some (nextId s) |}) ∧
   ports (NativeTransport.connect i s) !! nextId s = Some true) ∧
  (connectNative_accepts (platform s) (hostName n) = false →
   NativeTransport.connect i s =
     updateBadge Disconnected (updateBadge Connecting s)) ∧
  let s1 := NativeTransport.disconnect i s in
  (∀ p, port n = Some p →
     effects_of (NativeTransport.disconnect i) s =
       (if bool_decide (ports s !! p = Some true)
        then [PostMessage p MsgDisconnected] else [Badge Disconnected]) ++
       [PortDisconnect p; Badge Disconnected] ∧
     ports s1 !! p = Some false ∧
     step (PortDisconnected p) s1 = None ∧ step (PortMessage p) s1 = None) ∧
  (port n = None → s1 = updateBadge Disconnected s) ∧
  heap s1 !! i = Some (INative {| hostName := hostName n; port := None |}) ∧
  connectionStatus s1 = Disconnected ∧
  NativeTransport.disconnect i s1 = updateBadge Disconnected s1.
Proof.
  intros Hi. split; [|split].
  - intros Hacc.
    destruct (native_connect_accepted i n s Hi Hacc) as (Htr & Hst & Hh & Hp).
    split_and!; [by apply effects_of_app | done | |].
    + rewrite Hh. apply lookup_insert_eq.
    + rewrite Hp. apply lookup_insert_eq.
  - intros Hrej. unfold NativeTransport.connect, NativeTransport.this.
    cbv zeta. simpl. rewrite Hi. simpl in Hrej. by rewrite Hrej.
  - intros s1.
    destruct (native_disconnect_result i n s Hi) as (Htr & Hh & Hpo).
    fold s1 in Htr, Hh, Hpo.
    split; [|split; [|split; [|split]]].
    + intros p Hp. rewrite Hp in Htr, Hpo.
      assert (ports s1 !! p = Some false) as Hoff
        by (rewrite Hpo; apply lookup_insert_eq).
      split_and!; [| done | |].
      * apply effects_of_app. fold s1. rewrite Htr. by rewrite <- !app_assoc.
      * by apply port_events_off.
      * by apply port_events_off.
    + intros Hp. unfold s1, NativeTransport.disconnect, NativeTransport.this.
      cbv zeta. by rewrite Hi, Hp.
    + rewrite Hh. apply lookup_insert_eq.
    + reflexivity.
    + unfold NativeTransport.disconnect at 1. unfold NativeTransport.this.
      cbv zeta. rewrite Hh, lookup_insert_eq. reflexivity.
Qed.

Lemma X5_native_witness :
  let s := loadSettings {["transportType" := JStr "native"]} (init browser) in
  effects_of (NativeTransport.disconnect 1) s =
    [PostMessage 2 MsgDisconnected; PortDisconnect 2; Badge Disconnected].
Proof.
  intros s.
  pose (n := {| hostName := Some (JStr "com.subtitle.streamer");
                port := Some 2%nat |}).
  assert (heap s !! 1%nat = Some (INative n)) as Hi by (vm_compute; reflexivity).
  destruct (X5_native_connect_and_disconnect 1 n s Hi) as (_ & _ & Hd & _).
  exact (proj1 (Hd 2%nat eq_refl)).
Defined.

(** ** "Test Connection" *)

Lemma testConnection_shape s :
  ∃ s2, testConnection s =
          emit (SetTimeout (nextId s2) 1000)
            (set_timers (<[nextId s2 := TTestWait]> (timers s2)) (bump s2)) ∧
        (∃ s1, s2 = connectTransport s1 ∧ settings s1 = settings s ∧
               (nextId s ≤ nextId s1)%nat).
Proof.
  unfold testConnection. cbv zeta. eexists. split; [reflexivity|].
  destruct (transport s) as [i|] eqn:Ei.
  - destruct (WebSocketTransport.this i s) as [w|] eqn:Ew; simpl.
    + rewrite Ei. eexists. split; [reflexivity|].
      split; [by rewrite (proj1 (same_config_disconnectTransport _))|].
      apply (grows_disconnectTransport (WebSocketTransport.store _ _ s)).
    + rewrite Ei. eexists. split; [reflexivity|].
      split; [by rewrite (proj1 (same_config_disconnectTransport _))|].
      apply grows_disconnectTransport.
  - rewrite Ei. eexists. split; [reflexivity|]. split; [done|]. lia.
Qed.



(** ** The status cell and the badge *)

Lemma published_emit e s :
  published (emit e s) =
  published s ++ match e with Badge st => [st] | _ => [] end.
Proof. unfold published. simpl. rewrite omap_app. by destruct e. Qed.

Create HintDb status discriminated.
#[local] Hint Extern 1 (is_badge _ = false) => reflexivity : status.

Ltac status_tac := cbv zeta; repeat case_match; eauto 40 with status.

Lemma status_ok_emit e s : is_badge e = false → status_ok s → status_ok (emit e s).
Proof.
  intros He H. unfold status_ok in *. rewrite published_emit.
  destruct e; try discriminate He; by rewrite app_nil_r.
Qed.
#[local] Hint Resolve status_ok_emit : status.

Lemma status_ok_updateBadge st s : status_ok (updateBadge st s).
Proof.
  unfold status_ok, updateBadge. rewrite published_emit. simpl.
  by rewrite last_snoc.
Qed.
#[local] Hint Resolve status_ok_updateBadge : status.

Lemma status_ok_set_heap v s : status_ok s → status_ok (set_heap v s).
Proof. done. Qed.
#[local] Hint Resolve status_ok_set_heap : status.

Lemma status_ok_set_sockets v s : status_ok s → status_ok (set_sockets v s).
Proof. done. Qed.
#[local] Hint Resolve status_ok_set_sockets : status.

Lemma status_ok_set_ports v s : status_ok s → status_ok (set_ports v s).
Proof. done. Qed.
#[local] Hint Resolve status_ok_set_ports : status.

Lemma status_ok_set_settings v s : status_ok s → status_ok (set_settings v s).
Proof. done. Qed.
#[local] Hint Resolve status_ok_set_settings : status.

Lemma status_ok_set_transport v s : status_ok s → status_ok (set_transport v s).
Proof. done. Qed.
#[local] Hint Resolve status_ok_set_transport : status.

Lemma status_ok_set_timers v s : status_ok s → status_ok (set_timers v s).
Proof. done. Qed.
#[local] Hint Resolve status_ok_set_timers : status.

Lemma status_ok_set_requests v s : status_ok s → status_ok (set_requests v s).
Proof. done. Qed.
#[local] Hint Resolve status_ok_set_requests : status.

Lemma status_ok_bump s : status_ok s → status_ok (bump s).
Proof. done. Qed.
#[local] Hint Resolve status_ok_bump : status.

Lemma status_ok_ws_store i w s : status_ok s → status_ok (WebSocketTransport.store i w s).
Proof. done. Qed.
#[local] Hint Resolve status_ok_ws_store : status.

Lemma status_ok_native_store i n s : status_ok s → status_ok (NativeTransport.store i n s).
Proof. done. Qed.
#[local] Hint Resolve status_ok_native_store : status.

Lemma status_ok_saveSettings s : status_ok s → status_ok (saveSettings s).
Proof. intros H. unfold saveSettings. status_tac. Qed.
#[local] Hint Resolve status_ok_saveSettings : status.

Lemma status_ok_ws_send i m s : status_ok s → status_ok (WebSocketTransport.send i m s).
Proof. intros H. unfold WebSocketTransport.send. status_tac. Qed.
#[local] Hint Resolve status_ok_ws_send : status.

Lemma status_ok_ws_stopHeartbeat i s : status_ok s → status_ok (WebSocketTransport.stopHeartbeat i s).
Proof. intros H. unfold WebSocketTransport.stopHeartbeat. status_tac. Qed.
#[local] Hint Resolve status_ok_ws_stopHeartbeat : status.

Lemma status_ok_ws_startHeartbeat i s : status_ok s → status_ok (WebSocketTransport.startHeartbeat i s).
Proof. intros H. unfold WebSocketTransport.startHeartbeat. status_tac. Qed.
#[local] Hint Resolve status_ok_ws_startHeartbeat : status.

Lemma status_ok_ws_scheduleReconnect i s : status_ok s → status_ok (WebSocketTransport.scheduleReconnect i s).
Proof. intros H. unfold WebSocketTransport.scheduleReconnect. status_tac. Qed.
#[local] Hint Resolve status_ok_ws_scheduleReconnect : status.

Lemma status_ok_ws_connect i s : status_ok s → status_ok (WebSocketTransport.connect i s).
Proof. intros H. unfold WebSocketTransport.connect. status_tac. Qed.
#[local] Hint Resolve status_ok_ws_connect : status.

Lemma status_ok_ws_onopen i s : status_ok s → status_ok (WebSocketTransport.onopen i s).
Proof. intros H. unfold WebSocketTransport.onopen. status_tac. Qed.
#[local] Hint Resolve status_ok_ws_onopen : status.

Lemma status_ok_ws_onclose i s : status_ok s → status_ok (WebSocketTransport.onclose i s).
Proof. intros H. unfold WebSocketTransport.onclose. status_tac. Qed.
#[local] Hint Resolve status_ok_ws_onclose : status.

Lemma status_ok_ws_onerror i s : status_ok s → status_ok (WebSocketTransport.onerror i s).
Proof. intros H. unfold WebSocketTransport.onerror. status_tac. Qed.
#[local] Hint Resolve status_ok_ws_onerror : status.

Lemma status_ok_ws_socket_close k s : status_ok s → status_ok (WebSocketTransport.socket_close k s).
Proof. intros H. unfold WebSocketTransport.socket_close. status_tac. Qed.
#[local] Hint Resolve status_ok_ws_socket_close : status.

Lemma status_ok_ws_disconnect i s : status_ok s → status_ok (WebSocketTransport.disconnect i s).
Proof. intros H. unfold WebSocketTransport.disconnect. status_tac. Qed.
#[local] Hint Resolve status_ok_ws_disconnect : status.

Lemma status_ok_ws_reconnect_callback i s : status_ok s → status_ok (WebSocketTransport.reconnect_callback i s).
Proof. intros H. unfold WebSocketTransport.reconnect_callback. status_tac. Qed.
#[local] Hint Resolve status_ok_ws_reconnect_callback : status.

Lemma status_ok_ws_heartbeat_callback i s : status_ok s → status_ok (WebSocketTransport.heartbeat_callback i s).
Proof. intros H. unfold WebSocketTransport.heartbeat_callback. status_tac. Qed.
#[local] Hint Resolve status_ok_ws_heartbeat_callback : status.

Lemma status_ok_http_loop r a s : status_ok s → status_ok (HttpTransport.loop r a s).
Proof. intros H. unfold HttpTransport.loop. status_tac. Qed.
#[local] Hint Resolve status_ok_http_loop : status.

Lemma status_ok_http_send i m s : status_ok s → status_ok (HttpTransport.send i m s).
Proof. intros H. unfold HttpTransport.send. status_tac. Qed.
#[local] Hint Resolve status_ok_http_send : status.

Lemma status_ok_http_resume r o s : status_ok s → status_ok (HttpTransport.resume r o s).
Proof. intros H. unfold HttpTransport.resume. status_tac. Qed.
#[local] Hint Resolve status_ok_http_resume : status.

Lemma status_ok_http_retry_callback r s : status_ok s → status_ok (HttpTransport.retry_callback r s).
Proof. intros H. unfold HttpTransport.retry_callback. status_tac. Qed.
#[local] Hint Resolve status_ok_http_retry_callback : status.

Lemma status_ok_http_connect i s : status_ok s → status_ok (HttpTransport.connect i s).
Proof. intros H. unfold HttpTransport.connect. status_tac. Qed.
#[local] Hint Resolve status_ok_http_connect : status.

Lemma status_ok_http_disconnect i s : status_ok s → status_ok (HttpTransport.disconnect i s).
Proof. intros H. unfold HttpTransport.disconnect. status_tac. Qed.
#[local] Hint Resolve status_ok_http_disconnect : status.

Lemma status_ok_native_send i m s : status_ok s → status_ok (NativeTransport.send i m s).
Proof. intros H. unfold NativeTransport.send. status_tac. Qed.
#[local] Hint Resolve status_ok_native_send : status.

Lemma status_ok_native_connect i s : status_ok s → status_ok (NativeTransport.connect i s).
Proof. intros H. unfold NativeTransport.connect. status_tac. Qed.
#[local] Hint Resolve status_ok_native_connect : status.

Lemma status_ok_native_disconnect i s : status_ok s → status_ok (NativeTransport.disconnect i s).
Proof. intros H. unfold NativeTransport.disconnect. status_tac. Qed.
#[local] Hint Resolve status_ok_native_disconnect : status.

Lemma status_ok_native_onDisconnect s : status_ok s → status_ok (NativeTransport.onDisconnect s).
Proof. intros H. unfold NativeTransport.onDisconnect. status_tac. Qed.
#[local] Hint Resolve status_ok_native_onDisconnect : status.

Lemma status_ok_Transport_connect i s : status_ok s → status_ok (Transport_connect i s).
Proof. intros H. unfold Transport_connect. status_tac. Qed.
#[local] Hint Resolve status_ok_Transport_connect : status.

Lemma status_ok_Transport_disconnect i s : status_ok s → status_ok (Transport_disconnect i s).
Proof. intros H. unfold Transport_disconnect. status_tac. Qed.
#[local] Hint Resolve status_ok_Transport_disconnect : status.

Lemma status_ok_Transport_send i m s : status_ok s → status_ok (Transport_send i m s).
Proof. intros H. unfold Transport_send. status_tac. Qed.
#[local] Hint Resolve status_ok_Transport_send : status.

Lemma status_ok_set_readyState k rs s : status_ok s → status_ok (set_readyState k rs s).
Proof. intros H. unfold set_readyState. status_tac. Qed.
#[local] Hint Resolve status_ok_set_readyState : status.

Lemma status_ok_disconnectTransport s : status_ok s → status_ok (disconnectTransport s).
Proof. intros H. unfold disconnectTransport. status_tac. Qed.
#[local] Hint Resolve status_ok_disconnectTransport : status.

Lemma status_ok_install obj s : status_ok s → status_ok (install obj s).
Proof. intros H. unfold install. status_tac. Qed.
#[local] Hint Resolve status_ok_install : status.

Lemma status_ok_connectTransport s : status_ok s → status_ok (connectTransport s).
Proof. intros H. unfold connectTransport. status_tac. Qed.
#[local] Hint Resolve status_ok_connectTransport : status.

Lemma status_ok_updateSettings n s : status_ok s → status_ok (updateSettings n s).
Proof. intros H. unfold updateSettings. status_tac. Qed.
#[local] Hint Resolve status_ok_updateSettings : status.

Lemma status_ok_loadSettings r s : status_ok s → status_ok (loadSettings r s).
Proof. intros H. unfold loadSettings. status_tac. Qed.
#[local] Hint Resolve status_ok_loadSettings : status.

Lemma status_ok_handleSubtitle m s : status_ok s → status_ok (handleSubtitle m s).
Proof. intros H. unfold handleSubtitle. status_tac. Qed.
#[local] Hint Resolve status_ok_handleSubtitle : status.

Lemma status_ok_testConnection s : status_ok s → status_ok (testConnection s).
Proof. intros H. unfold testConnection. status_tac. Qed.
#[local] Hint Resolve status_ok_testConnection : status.

Lemma status_ok_testConnection_callback s : status_ok s → status_ok (testConnection_callback s).
Proof. intros H. unfold testConnection_callback. status_tac. Qed.
#[local] Hint Resolve status_ok_testConnection_callback : status.

Lemma status_ok_step e s s' : status_ok s → step e s = Some s' → status_ok s'.
Proof.
  intros H Hstep. destruct e; simpl in Hstep;
    repeat case_match; simplify_eq; eauto 40 with status.
Qed.

(** X7. The status that [getStatus] reports is always the one the badge
    shows: in every reachable state [connectionStatus] is the argument
    of the last [updateBadge] call, or 'disconnected' when there has
    been none, because no other code writes it. *)
Theorem X7_status_is_last_badge (P : Platform) (s : State) :
  reachable P s →
  connectionStatus s = default Disconnected (last (published s)) ∧
  ∀ s', step OnGetStatus s = Some s' →
    last (trace s') = Some (SendResponse (default Disconnected (last (published s)))).
Proof.
  intros Hr.
  assert (status_ok s) as Hok.
  { induction Hr as [|s e s' _ IH Hstep]; [reflexivity|].
    by eapply status_ok_step. }
  split; [exact Hok|].
  intros s' [= <-]. simpl. rewrite last_snoc. by rewrite Hok.
Qed.

Lemma X7_status_witness :
  connectionStatus (loadSettings ∅ (init browser)) = Connecting.
Proof.
  apply (X7_status_is_last_badge browser).
  apply (reachable_step browser (init browser) (LoadSettings ∅));
    [apply reachable_init | reflexivity].
Defined.

(** ** The sockets of a WebSocket instance *)

#[local] Instance same_sockets_preorder : PreOrder same_sockets.
Proof.
  split.
  - intros s. split_and!; [|lia|done].
    intros k. unfold advance. destruct (sockets s !! k); [split_and!; [done|lia|done]|done].
  - intros s1 s2 s3 (Ha & Hn & Hv) (Ha' & Hn' & Hv'). split_and!; [|lia|].
    + intros k. specialize (Ha k). specialize (Ha' k). unfold advance in *.
      destruct (sockets s1 !! k), (sockets s2 !! k), (sockets s3 !! k);
        try done. destruct Ha as (? & ? & ?), Ha' as (? & ? & ?).
      split_and!; [congruence|lia|auto].
    + intros i. by rewrite Hv', Hv.
Qed.

Lemma advance_refl (m : gmap nat Socket) k : advance (m !! k) (m !! k).
Proof. unfold advance. destruct (m !! k); [split_and!; [done|lia|done]|done]. Qed.

Ltac sockets_prim := split_and!; simpl; [intros; apply advance_refl | lia | done].

Lemma same_sockets_set_connectionStatus v s : same_sockets s (set_connectionStatus v s).
Proof. sockets_prim. Qed.
#[local] Hint Resolve same_sockets_set_connectionStatus : frame.

Lemma same_sockets_set_ports v s : same_sockets s (set_ports v s).
Proof. sockets_prim. Qed.
#[local] Hint Resolve same_sockets_set_ports : frame.

Lemma same_sockets_set_timers v s : same_sockets s (set_timers v s).
Proof. sockets_prim. Qed.
#[local] Hint Resolve same_sockets_set_timers : frame.

Lemma same_sockets_set_requests v s : same_sockets s (set_requests v s).
Proof. sockets_prim. Qed.
#[local] Hint Resolve same_sockets_set_requests : frame.

Lemma same_sockets_set_settings v s : same_sockets s (set_settings v s).
Proof. sockets_prim. Qed.
#[local] Hint Resolve same_sockets_set_settings : frame.

Lemma same_sockets_set_transport v s : same_sockets s (set_transport v s).
Proof. sockets_prim. Qed.
#[local] Hint Resolve same_sockets_set_transport : frame.

Lemma same_sockets_bump s : same_sockets s (bump s).
Proof. sockets_prim. Qed.
#[local] Hint Resolve same_sockets_bump : frame.

Lemma same_sockets_emit e s : same_sockets s (emit e s).
Proof. sockets_prim. Qed.
#[local] Hint Resolve same_sockets_emit : frame.

Lemma same_sockets_updateBadge st s : same_sockets s (updateBadge st s).
Proof. sockets_prim. Qed.
#[local] Hint Resolve same_sockets_updateBadge : frame.

Lemma same_sockets_saveSettings s : same_sockets s (saveSettings s).
Proof. sockets_prim. Qed.
#[local] Hint Resolve same_sockets_saveSettings : frame.

Lemma ws_view_this i s w :
  WebSocketTransport.this i s = Some w →
  ws_view (heap s !! i) =
  Some (ws_ws w, reconnectTimeout w, reconnectAttempts w).
Proof.
  unfold WebSocketTransport.this. destruct (heap s !! i) as [[]|]; try done.
  by intros [= ->].
Qed.

Lemma ws_view_heap i s v t a :
  ws_view (heap s !! i) = Some (v, t, a) →
  ∃ w, heap s !! i = Some (IWs w) ∧ WebSocketTransport.this i s = Some w ∧
       ws_ws w = v ∧ reconnectTimeout w = t ∧ reconnectAttempts w = a.
Proof.
  unfold WebSocketTransport.this.
  destruct (heap s !! i) as [[w|h|n]|]; try done.
  simpl. intros [= <- <- <-]. by exists w.
Qed.

Lemma ws_view_native i s n :
  NativeTransport.this i s = Some n → ws_view (heap s !! i) = None.
Proof.
  unfold NativeTransport.this. by destruct (heap s !! i) as [[]|].
Qed.

Lemma ws_view_insert i j obj (h : gmap nat Instance) :
  ws_view (<[i := obj]> h !! j) =
  if decide (i = j) then ws_view (Some obj) else ws_view (h !! j).
Proof.
  destruct (decide (i = j)) as [->|].
  - by rewrite lookup_insert_eq.
  - by rewrite lookup_insert_ne.
Qed.

(** Writing a field other than [ws], [reconnectTimeout] and
    [reconnectAttempts]. *)
Lemma same_sockets_ws_store i w s :
  ws_view (heap s !! i) =
    Some (ws_ws w, reconnectTimeout w, reconnectAttempts w) →
  same_sockets s (WebSocketTransport.store i w s).
Proof.
  intros Hv. split_and!; simpl; [intros; apply advance_refl|lia|].
  intros j. rewrite ws_view_insert. by destruct (decide (i = j)) as [<-|].
Qed.

Lemma same_sockets_native_store i n s :
  ws_view (heap s !! i) = None →
  same_sockets s (NativeTransport.store i n s).
Proof.
  intros Hv. split_and!; simpl; [intros; apply advance_refl|lia|].
  intros j. rewrite ws_view_insert. by destruct (decide (i = j)) as [<-|].
Qed.

Lemma same_sockets_ws_send i m s : same_sockets s (WebSocketTransport.send i m s).
Proof. unfold WebSocketTransport.send. frame_tac. Qed.
#[local] Hint Resolve same_sockets_ws_send : frame.

Lemma same_sockets_ws_stopHeartbeat i s :
  same_sockets s (WebSocketTransport.stopHeartbeat i s).
Proof.
  unfold WebSocketTransport.stopHeartbeat.
  destruct (WebSocketTransport.this i s) as [w|] eqn:E; [|reflexivity].
  destruct (heartbeatInterval w) as [t|]; [|reflexivity].
  etransitivity; [|apply same_sockets_ws_store; simpl; by apply ws_view_this].
  frame_tac.
Qed.
#[local] Hint Resolve same_sockets_ws_stopHeartbeat : frame.

Lemma same_sockets_ws_startHeartbeat i s :
  same_sockets s (WebSocketTransport.startHeartbeat i s).
Proof.
  unfold WebSocketTransport.startHeartbeat. cbv zeta.
  transitivity (WebSocketTransport.stopHeartbeat i s); [eauto with frame|].
  generalize (WebSocketTransport.stopHeartbeat i s). intros s1.
  destruct (WebSocketTransport.this i s1) as [w|] eqn:E; [|reflexivity].
  etransitivity; [|apply same_sockets_ws_store; simpl; by apply ws_view_this].
  frame_tac.
Qed.
#[local] Hint Resolve same_sockets_ws_startHeartbeat : frame.

Lemma same_sockets_ws_onerror i s : same_sockets s (WebSocketTransport.onerror i s).
Proof. unfold WebSocketTransport.onerror. frame_tac. Qed.
#[local] Hint Resolve same_sockets_ws_onerror : frame.

Lemma same_sockets_ws_heartbeat_callback i s :
  same_sockets s (WebSocketTransport.heartbeat_callback i s).
Proof. unfold WebSocketTransport.heartbeat_callback. frame_tac. Qed.
#[local] Hint Resolve same_sockets_ws_heartbeat_callback : frame.

Lemma same_sockets_http_loop r a s : same_sockets s (HttpTransport.loop r a s).
Proof. unfold HttpTransport.loop. frame_tac. Qed.
#[local] Hint Resolve same_sockets_http_loop : frame.

Lemma same_sockets_http_send i m s : same_sockets s (HttpTransport.send i m s).
Proof. unfold HttpTransport.send. frame_tac. Qed.
#[local] Hint Resolve same_sockets_http_send : frame.

Lemma same_sockets_http_resume r o s : same_sockets s (HttpTransport.resume r o s).
Proof. unfold HttpTransport.resume. frame_tac. Qed.
#[local] Hint Resolve same_sockets_http_resume : frame.

Lemma same_sockets_http_retry_callback r s :
  same_sockets s (HttpTransport.retry_callback r s).
Proof. unfold HttpTransport.retry_callback. frame_tac. Qed.
#[local] Hint Resolve same_sockets_http_retry_callback : frame.

Lemma same_sockets_http_connect i s : same_sockets s (HttpTransport.connect i s).
Proof. unfold HttpTransport.connect. frame_tac. Qed.
#[local] Hint Resolve same_sockets_http_connect : frame.

Lemma same_sockets_http_disconnect i s : same_sockets s (HttpTransport.disconnect i s).
Proof. unfold HttpTransport.disconnect. frame_tac. Qed.
#[local] Hint Resolve same_sockets_http_disconnect : frame.

Lemma same_sockets_native_send i m s : same_sockets s (NativeTransport.send i m s).
Proof. unfold NativeTransport.send. frame_tac. Qed.
#[local] Hint Resolve same_sockets_native_send : frame.

Lemma same_sockets_native_connect i s : same_sockets s (NativeTransport.connect i s).
Proof.
  unfold NativeTransport.connect. cbv zeta.
  transitivity (updateBadge Connecting s); [eauto with frame|].
  generalize (updateBadge Connecting s). intros s1.
  destruct (NativeTransport.this i s1) as [n|] eqn:E; [|reflexivity].
  destruct (connectNative_accepts _ _); [|eauto with frame].
  etransitivity; [|apply same_sockets_native_send].
  etransitivity; [|apply same_sockets_updateBadge].
  etransitivity; [|apply same_sockets_native_store; simpl; by eapply ws_view_native].
  frame_tac.
Qed.
#[local] Hint Resolve same_sockets_native_connect : frame.

Lemma same_sockets_native_disconnect i s :
  same_sockets s (NativeTransport.disconnect i s).
Proof.
  unfold NativeTransport.disconnect. cbv zeta.
  etransitivity; [|apply same_sockets_updateBadge].
  destruct (NativeTransport.this i s) as [n|] eqn:E; [|reflexivity].
  destruct (port n) as [p|]; [|reflexivity].
  set (s0 := emit _ _).
  assert (same_sockets s s0) as H0 by (unfold s0; frame_tac).
  destruct (NativeTransport.this i s0) as [n'|] eqn:E'; [|done].
  etransitivity; [exact H0|].
  apply same_sockets_native_store. by eapply ws_view_native.
Qed.
#[local] Hint Resolve same_sockets_native_disconnect : frame.

Lemma same_sockets_native_onDisconnect s :
  same_sockets s (NativeTransport.onDisconnect s).
Proof. unfold NativeTransport.onDisconnect. frame_tac. Qed.
#[local] Hint Resolve same_sockets_native_onDisconnect : frame.

Lemma same_sockets_Transport_send i m s : same_sockets s (Transport_send i m s).
Proof. unfold Transport_send. frame_tac. Qed.
#[local] Hint Resolve same_sockets_Transport_send : frame.

Lemma same_sockets_handleSubtitle m s : same_sockets s (handleSubtitle m s).
Proof. unfold handleSubtitle. frame_tac. Qed.
#[local] Hint Resolve same_sockets_handleSubtitle : frame.

Lemma same_sockets_testConnection_callback s :
  same_sockets s (testConnection_callback s).
Proof. unfold testConnection_callback. frame_tac. Qed.
#[local] Hint Resolve same_sockets_testConnection_callback : frame.

(** [socket.close()] and the close event move a socket on. *)
Lemma same_sockets_advance k sock rs s :
  sockets s !! k = Some sock → (rank (readyState sock) ≤ rank rs)%nat →
  rs ≠ OPEN →
  same_sockets s
    (set_sockets (<[k := {| readyState := rs; sock_owner := sock_owner sock |}]>
                    (sockets s)) s).
Proof.
  intros Hk Hr Hrs. split_and!; simpl; [|lia|done].
  intros k'. destruct (decide (k = k')) as [<-|].
  - rewrite lookup_insert_eq, Hk. simpl. done.
  - rewrite lookup_insert_ne by done. apply advance_refl.
Qed.

Lemma same_sockets_ws_socket_close k s :
  same_sockets s (WebSocketTransport.socket_close k s).
Proof.
  unfold WebSocketTransport.socket_close. cbv zeta.
  transitivity (emit (WsClose k) s); [eauto with frame|].
  generalize (emit (WsClose k) s). intros s1.
  destruct (sockets s1 !! k) as [sock|] eqn:E; [|reflexivity].
  destruct (readyState sock) eqn:R; try reflexivity.
  all: apply same_sockets_advance; [done|rewrite R; simpl; lia|done].
Qed.
#[local] Hint Resolve same_sockets_ws_socket_close : frame.

Lemma same_sockets_closed k s : same_sockets s (set_readyState k CLOSED s).
Proof.
  unfold set_readyState.
  destruct (sockets s !! k) as [sock|] eqn:E; [|reflexivity].
  apply same_sockets_advance; [done| |done].
  destruct (readyState sock); simpl; lia.
Qed.

Lemma idle_frame i s s' : same_sockets s s' → idle i s → idle i s'.
Proof.
  intros (Ha & _ & _) Hi k sock Hk Ho. specialize (Ha k).
  rewrite Hk in Ha. unfold advance in Ha.
  destruct (sockets s !! k) as [a|] eqn:E; [|done]. destruct Ha as (Ho' & Hr & _).
  assert (readyState a = CLOSED) as Hc by (apply (Hi k a E); congruence).
  rewrite Hc in Hr. destruct (readyState sock); simpl in Hr; done || lia.
Qed.

Lemma sock_ok_frame s s' : same_sockets s s' → sock_ok s → sock_ok s'.
Proof.
  intros (Ha & Hn & Hv) [F HF M C U I O]. split.
  - intros k b Hk. specialize (Ha k). rewrite Hk in Ha. unfold advance in Ha.
    destruct (sockets s !! k) as [a|] eqn:E; [|done]. destruct Ha as (Ho & _).
    destruct (F k a E). rewrite Ho. lia.
  - intros i. rewrite Hv. intros H. apply HF in H. lia.
  - intros i k t a0. rewrite Hv. intros H. destruct (M i k t a0 H) as (a & Hk & Ho).
    specialize (Ha k). rewrite Hk in Ha. unfold advance in Ha.
    destruct (sockets s' !! k) as [b|]; [|done]. destruct Ha as (Ho' & _).
    exists b. split; [done|congruence].
  - intros k b Hk Hr. specialize (Ha k). rewrite Hk in Ha. unfold advance in Ha.
    destruct (sockets s !! k) as [a|] eqn:E; [|done]. destruct Ha as (Ho & Hr' & _).
    rewrite Hv, Ho. apply (C k a E). lia.
  - intros k1 k2 b1 b2 H1 H2 Ho N1 N2.
    pose proof (Ha k1) as A1. pose proof (Ha k2) as A2.
    rewrite H1 in A1. rewrite H2 in A2. unfold advance in A1, A2.
    destruct (sockets s !! k1) as [a1|] eqn:E1; [|done].
    destruct (sockets s !! k2) as [a2|] eqn:E2; [|done].
    destruct A1 as (O1 & R1 & _), A2 as (O2 & R2 & _).
    apply (U k1 k2 a1 a2 E1 E2); [congruence| |].
    + intros Hc. rewrite Hc in R1. destruct (readyState b1); simpl in R1; done || lia.
    + intros Hc. rewrite Hc in R2. destruct (readyState b2); simpl in R2; done || lia.
  - intros i v t a. rewrite Hv. intros H.
    apply (idle_frame i s s'); [by split_and!|by eapply I].
  - intros k b Hk Hb. specialize (Ha k). rewrite Hk in Ha. unfold advance in Ha.
    destruct (sockets s !! k) as [a|] eqn:E; [|done]. destruct Ha as (Ho & _ & Hop).
    rewrite Hv, Ho. apply (O k a E). by apply Hop.
Qed.

(** Writing [ws], [reconnectTimeout] or [reconnectAttempts]: [ws] may be
    set to [null] when no socket of the instance is connecting or open,
    a reconnection may be scheduled when all its sockets are closed,
    and the counter may be raised when none of them is open. *)
Lemma sock_ok_ws_store i w v0 t0 a0 s :
  ws_view (heap s !! i) = Some (v0, t0, a0) →
  ws_ws w = v0 ∨ (ws_ws w = None ∧ offline i s) →
  reconnectTimeout w = None ∨ reconnectTimeout w = t0 ∨ idle i s →
  reconnectAttempts w = 0%nat ∨ reconnectAttempts w = a0 ∨ offline i s →
  sock_ok s → sock_ok (WebSocketTransport.store i w s).
Proof.
  intros Hv Hw Ht Hatt [F HF M C U I O]. split; simpl.
  - exact F.
  - intros j. rewrite ws_view_insert. destruct (decide (i = j)) as [<-|]; [|apply HF].
    intros _. apply HF. by rewrite Hv.
  - intros j k t a. rewrite ws_view_insert.
    destruct (decide (i = j)) as [<-|]; [|apply M].
    simpl. intros [= Hk Hrt Ha]. destruct Hw as [<-|[Hw _]]; [|congruence].
    apply (M i k t0 a0). by rewrite Hv, Hk.
  - intros k sock Hk Hr. rewrite ws_view_insert.
    destruct (C k sock Hk Hr) as (t & a & Hc).
    destruct (decide (i = sock_owner sock)) as [Hi|]; [|by exists t, a].
    rewrite <- Hi, Hv in Hc. injection Hc as -> -> ->. simpl.
    destruct Hw as [->|[_ Hoff]]; [by eexists _, _|].
    specialize (Hoff k sock Hk (eq_sym Hi)). lia.
  - exact U.
  - intros j v t a. rewrite ws_view_insert. destruct (decide (i = j)) as [<-|].
    + simpl. intros [= _ Hrt _]. destruct Ht as [Ht|[Ht|Ht]]; [congruence| |done].
      apply (I i v0 t a0). by rewrite Hv, <- Ht, Hrt.
    + intros H. by eapply I.
  - intros k sock Hk Hop. rewrite ws_view_insert.
    destruct (O k sock Hk Hop) as (v & t & Hc).
    destruct (decide (i = sock_owner sock)) as [Hi|]; [|by exists v, t].
    rewrite <- Hi, Hv in Hc. injection Hc as -> -> ->. simpl.
    destruct Hatt as [->|[->|Hoff]]; [by eexists _, _|by eexists _, _|].
    specialize (Hoff k sock Hk (eq_sym Hi)). rewrite Hop in Hoff. simpl in Hoff. lia.
Qed.

Lemma idle_offline i s : idle i s → offline i s.
Proof. intros H k sock Hk Ho. rewrite (H k sock Hk Ho). simpl. lia. Qed.

Lemma sock_ok_ws_scheduleReconnect i s :
  idle i s → sock_ok s → sock_ok (WebSocketTransport.scheduleReconnect i s).
Proof.
  intros Hi Hok. unfold WebSocketTransport.scheduleReconnect.
  destruct (WebSocketTransport.this i s) as [w|] eqn:E; [|done].
  destruct (reconnectTimeout w) eqn:Ert; [done|].
  destruct (_ <=? _)%nat; [by eapply sock_ok_frame; [apply same_sockets_updateBadge|]|].
  cbv zeta. set (s0 := emit _ _).
  assert (same_sockets s s0) as H0 by (unfold s0; frame_tac).
  eapply (sock_ok_ws_store i _ (ws_ws w) None (reconnectAttempts w) s0).
  - unfold s0. simpl. rewrite (ws_view_this i s w E). by rewrite Ert.
  - by left.
  - right. right. by eapply idle_frame.
  - right. by left.
  - by eapply sock_ok_frame.
Qed.

Lemma sock_ok_ws_connect i s :
  quiet i s → sock_ok s → sock_ok (WebSocketTransport.connect i s).
Proof.
  intros [Hi Hq] Hok. unfold WebSocketTransport.connect. cbv zeta.
  assert (same_sockets s (updateBadge Connecting s)) as H1 by eauto with frame.
  assert (quiet i (updateBadge Connecting s)) as [Hi1 Hq1] by (by split).
  apply (sock_ok_frame _ _ H1) in Hok.
  revert Hi1 Hq1 Hok. generalize (updateBadge Connecting s). clear. intros s Hi Hq Hok.
  destruct (WebSocketTransport.this i s) as [w|] eqn:E; [|done].
  pose proof (ws_view_this i s w E) as Hv.
  destruct (WebSocket_accepts _ _).
  - pose proof Hok as [F HF M C U I O].
    assert (reconnectTimeout w = None) as Hrt by (by eapply Hq).
    assert (i < nextId s)%nat as Hfi by (apply HF; by rewrite Hv).
    split; simpl.
    + intros k sock. destruct (decide (nextId s = k)) as [<-|].
      * rewrite lookup_insert_eq. intros [= <-]. simpl. lia.
      * rewrite lookup_insert_ne by done. intros Hk. destruct (F k sock Hk). lia.
    + intros j. rewrite ws_view_insert. destruct (decide (i = j)) as [<-|]; [lia|].
      intros H. apply HF in H. lia.
    + intros j k t a. rewrite ws_view_insert. destruct (decide (i = j)) as [<-|].
      * simpl. intros [= <- _ _]. rewrite lookup_insert_eq. by eexists.
      * intros H. destruct (M j k t a H) as (sock & Hk & Ho).
        destruct (F k sock Hk). rewrite lookup_insert_ne by lia. by exists sock.
    + intros k sock. destruct (decide (nextId s = k)) as [<-|].
      * rewrite lookup_insert_eq. intros [= <-] _. simpl.
        rewrite ws_view_insert. destruct (decide (i = i)); [|done]. by eexists _, _.
      * rewrite lookup_insert_ne by done. intros Hk Hr.
        rewrite ws_view_insert. destruct (decide (i = sock_owner sock)) as [Ho|].
        -- rewrite (Hi k sock Hk (eq_sym Ho)) in Hr. simpl in Hr. lia.
        -- by apply C.
    + intros k1 k2 a b.
      destruct (decide (nextId s = k1)) as [<-|], (decide (nextId s = k2)) as [<-|];
        rewrite ?lookup_insert_eq, ?lookup_insert_ne by done; try done.
      * intros [= <-] Hb Ho _ Nb. simpl in Ho. by rewrite (Hi k2 b Hb) in Nb.
      * intros Ha [= <-] Ho Na _. simpl in Ho. by rewrite (Hi k1 a Ha) in Na.
      * apply U.
    + intros j v t a. rewrite ws_view_insert. destruct (decide (i = j)) as [<-|].
      * simpl. intros [= _ Ht _]. congruence.
      * intros H k sock. simpl. destruct (decide (nextId s = k)) as [<-|].
        -- rewrite lookup_insert_eq. intros [= <-] Ho. simpl in Ho. done.
        -- rewrite lookup_insert_ne by done. by eapply I.
    + intros k sock. destruct (decide (nextId s = k)) as [<-|].
      * rewrite lookup_insert_eq. by intros [= <-].
      * rewrite lookup_insert_ne by done. intros Hk Hop.
        rewrite ws_view_insert. destruct (decide (i = sock_owner sock)) as [Ho|].
        -- by rewrite (Hi k sock Hk (eq_sym Ho)) in Hop.
        -- by apply (O k sock).
  - apply sock_ok_ws_scheduleReconnect.
    + eapply idle_frame; [apply same_sockets_updateBadge|done].
    + eapply sock_ok_frame; [apply same_sockets_updateBadge|done].
Qed.

Lemma socket_close_offline k s sock :
  sockets (WebSocketTransport.socket_close k s) !! k = Some sock →
  (2 ≤ rank (readyState sock))%nat.
Proof.
  unfold WebSocketTransport.socket_close. cbv zeta. simpl.
  destruct (sockets s !! k) as [a|] eqn:E; simpl; [|by rewrite E].
  destruct (readyState a) eqn:R; simpl; rewrite ?lookup_insert_eq, ?E;
    intros [= <-]; simpl; rewrite ?R; simpl; lia.
Qed.

Lemma sock_ok_ws_disconnect i s :
  sock_ok s → sock_ok (WebSocketTransport.disconnect i s).
Proof.
  intros Hok. unfold WebSocketTransport.disconnect. cbv zeta.
  eapply sock_ok_frame; [apply same_sockets_updateBadge|].
  set (s1 := match WebSocketTransport.this i s with Some _ => _ | None => _ end).
  assert (sock_ok s1) as Hok1.
  { unfold s1. destruct (WebSocketTransport.this i s) as [w|] eqn:E; [|done].
    destruct (reconnectTimeout w) as [t|] eqn:Ert; [|done].
    set (s0 := emit _ _).
    assert (same_sockets s s0) as H0 by (unfold s0; frame_tac).
    eapply (sock_ok_ws_store i _ (ws_ws w) (Some t) (reconnectAttempts w) s0).
    - unfold s0. simpl. rewrite (ws_view_this i s w E). by rewrite Ert.
    - by left.
    - by left.
    - right. by left.
    - by eapply sock_ok_frame. }
  clearbody s1. clear Hok s.
  assert (sock_ok (WebSocketTransport.stopHeartbeat i s1)) as Hok2
    by (eapply sock_ok_frame; [apply same_sockets_ws_stopHeartbeat|done]).
  revert Hok2. generalize (WebSocketTransport.stopHeartbeat i s1). clear. intros s Hok.
  destruct (WebSocketTransport.this i s) as [w|] eqn:E; [|done].
  destruct (ws_ws w) as [k|] eqn:Ek; [|done].
  set (s2a := match sockets s !! k with Some _ => _ | None => _ end).
  assert (same_sockets s s2a) as Ha.
  { unfold s2a. destruct (sockets s !! k); [|reflexivity].
    destruct (bool_decide _); [eauto with frame|reflexivity]. }
  set (s2b := WebSocketTransport.socket_close k s2a).
  assert (same_sockets s s2b) as Hb
    by (etransitivity; [exact Ha|apply same_sockets_ws_socket_close]).
  pose proof (sock_ok_frame _ _ Hb Hok) as Hokb.
  assert (ws_view (heap s2b !! i) =
          Some (Some k, reconnectTimeout w, reconnectAttempts w)) as Hvb.
  { destruct Hb as (_ & _ & ->). rewrite (ws_view_this i s w E). by rewrite Ek. }
  destruct (WebSocketTransport.this i s2b) as [w'|] eqn:E'; [|done].
  pose proof (ws_view_this i s2b w' E') as Hv'. rewrite Hvb in Hv'.
  injection Hv' as Hk' Hrt' Hat'.
  eapply (sock_ok_ws_store i _ _ _ _ s2b Hvb);
    [|by right; left|by right; left|done].
  right. split; [done|].
  intros k' sock Hk Ho.
  destruct (decide (rank (readyState sock) ≤ 1)%nat) as [Hlive|]; [|lia].
  destruct (sk_current _ Hokb k' sock Hk Hlive) as (t & a & Hc).
  rewrite Ho, Hvb in Hc. injection Hc as <- _ _.
  by apply (socket_close_offline k s2a).
Qed.

Lemma sock_ok_ws_reconnect_callback i s :
  idle i s → sock_ok s → sock_ok (WebSocketTransport.reconnect_callback i s).
Proof.
  intros Hi Hok. unfold WebSocketTransport.reconnect_callback. cbv zeta.
  destruct (WebSocketTransport.this i s) as [w|] eqn:E.
  - pose proof (ws_view_this i s w E) as Hv.
    set (w' := WebSocketTransport.with_reconnectAttempts _ _).
    apply sock_ok_ws_connect.
    + split; [done|]. intros v t a. simpl. rewrite lookup_insert_eq. simpl.
      by intros [= _ <- _].
    + eapply (sock_ok_ws_store i w' _ _ _ s Hv); [by left|by left| |done].
      right. right. by apply idle_offline.
  - apply sock_ok_ws_connect; [|done]. split; [done|].
    intros v t a. unfold WebSocketTransport.this in E.
    by destruct (heap s !! i) as [[]|].
Qed.

Lemma sock_ok_ws_onclose i s :
  idle i s → sock_ok s → sock_ok (WebSocketTransport.onclose i s).
Proof.
  intros Hi Hok. unfold WebSocketTransport.onclose. cbv zeta.
  assert (same_sockets s
            (WebSocketTransport.stopHeartbeat i (updateBadge Disconnected s))) as H
    by (etransitivity; [apply same_sockets_updateBadge|
                        apply same_sockets_ws_stopHeartbeat]).
  apply sock_ok_ws_scheduleReconnect.
  - by eapply idle_frame.
  - by eapply sock_ok_frame.
Qed.

(** The open event: the socket opens and its handler resets the
    counter of the instance in the same turn. *)
Lemma sock_ok_open k sock w s :
  sockets s !! k = Some sock → readyState sock = CONNECTING →
  heap s !! sock_owner sock = Some (IWs w) →
  sock_ok s →
  sock_ok (WebSocketTransport.store (sock_owner sock)
             (WebSocketTransport.with_reconnectAttempts 0 w)
             (updateBadge Connected
                (set_sockets
                   (<[k := {| readyState := OPEN; sock_owner := sock_owner sock |}]>
                      (sockets s)) s))).
Proof.
  intros Hk Hc Hw [F HF M C U I O]. set (i := sock_owner sock) in *.
  assert (∀ k' b, <[k := {| readyState := OPEN; sock_owner := i |}]> (sockets s) !! k'
                  = Some b →
            ∃ a, sockets s !! k' = Some a ∧ sock_owner a = sock_owner b ∧
                 (readyState b = readyState a ∨
                  k' = k ∧ readyState a = CONNECTING ∧ readyState b = OPEN)) as Hlk.
  { intros k' b. destruct (decide (k = k')) as [<-|].
    - rewrite lookup_insert_eq. intros [= <-]. exists sock. simpl.
      split_and!; [done|done|right; by split_and!].
    - rewrite lookup_insert_ne by done. intros Hb. exists b.
      split_and!; [done|done|by left]. }
  split; simpl.
  - intros k' b Hb. destruct (Hlk k' b Hb) as (a & Ha & Ho & _).
    rewrite <- Ho. by apply F.
  - intros j. rewrite ws_view_insert. destruct (decide (i = j)) as [<-|]; [|apply HF].
    intros _. apply HF. by rewrite Hw.
  - intros j k' t a. rewrite ws_view_insert.
    assert (ws_view (heap s !! j) = Some (Some k', t, reconnectAttempts
              match heap s !! j with Some (IWs w0) => w0 | _ => w end) →
            ∃ b, <[k := {| readyState := OPEN; sock_owner := i |}]> (sockets s) !! k'
                 = Some b ∧ sock_owner b = j) as Hm.
    { intros H. destruct (M j k' t _ H) as (a1 & Ha1 & Ho1).
      destruct (decide (k = k')) as [<-|].
      - rewrite lookup_insert_eq. eexists. split; [done|]. simpl.
        rewrite Hk in Ha1. injection Ha1 as <-. done.
      - rewrite lookup_insert_ne by done. by exists a1. }
    destruct (decide (i = j)) as [<-|].
    + simpl. intros [= Hws <- <-]. apply Hm. rewrite Hw. simpl. by rewrite Hws.
    + intros H. apply Hm.
      destruct (heap s !! j) as [[w0|h0|n0]|]; try discriminate H.
      simpl in *. by injection H as -> -> ->.
  - intros k' b Hb Hr. destruct (Hlk k' b Hb) as (a & Ha & Ho & Hst).
    assert (rank (readyState a) ≤ 1)%nat as Hra
      by (destruct Hst as [<-|(_ & -> & _)]; [done|simpl; lia]).
    destruct (C k' a Ha Hra) as (t & a0 & Hv). rewrite <- Ho.
    rewrite ws_view_insert. destruct (decide (i = sock_owner a)) as [Hi|]; [|by eexists _, _].
    rewrite <- Hi, Hw in Hv. simpl in Hv. injection Hv as Hws _ _.
    simpl. rewrite Hws. by eexists _, _.
  - intros k1 k2 b1 b2 H1 H2 Ho N1 N2.
    destruct (Hlk k1 b1 H1) as (a1 & Ha1 & Ho1 & Hs1).
    destruct (Hlk k2 b2 H2) as (a2 & Ha2 & Ho2 & Hs2).
    apply (U k1 k2 a1 a2 Ha1 Ha2); [congruence| |].
    + destruct Hs1 as [<-|(_ & -> & _)]; done.
    + destruct Hs2 as [<-|(_ & -> & _)]; done.
  - intros j v t a. rewrite ws_view_insert.
    assert (idle j s → idle j
              (set_sockets (<[k := {| readyState := OPEN; sock_owner := i |}]>
                              (sockets s)) s)) as Hid.
    { intros Hj k' b Hb Hbo. simpl in Hb.
      destruct (Hlk k' b Hb) as (a1 & Ha1 & Ho1 & Hs1).
      assert (readyState a1 = CLOSED) as Hcl by (apply (Hj k' a1 Ha1); congruence).
      destruct Hs1 as [->|(_ & Hcon & _)]; [done|congruence]. }
    destruct (decide (i = j)) as [<-|].
    + simpl. intros [= _ Hrt _]. apply Hid.
      apply (I i (ws_ws w) t (reconnectAttempts w)). by rewrite Hw; simpl; rewrite Hrt.
    + intros H. apply Hid. by eapply I.
  - intros k' b Hb Hop. destruct (Hlk k' b Hb) as (a & Ha & Ho & Hst).
    rewrite <- Ho. rewrite ws_view_insert.
    destruct (decide (i = sock_owner a)) as [Hi|]; [simpl; by eexists _, _|].
    destruct Hst as [Hsame|(-> & _ & _)].
    + apply (O k' a Ha). congruence.
    + rewrite Hk in Ha. injection Ha as <-. done.
Qed.

Lemma sock_ok_ws_onopen k sock s :
  sockets s !! k = Some sock → readyState sock = CONNECTING →
  sock_ok s →
  sock_ok (WebSocketTransport.onopen (sock_owner sock) (set_readyState k OPEN s)).
Proof.
  intros Hk Hc Hok.
  destruct (sk_current _ Hok k sock Hk) as (t & a & Hv); [rewrite Hc; simpl; lia|].
  destruct (ws_view_heap _ _ _ _ _ Hv) as (w & Hw & _).
  pose proof (sock_ok_open k sock w s Hk Hc Hw Hok) as H.
  unfold WebSocketTransport.onopen, set_readyState. cbv zeta. rewrite Hk.
  unfold WebSocketTransport.this at 1. simpl heap at 1. rewrite Hw.
  eapply sock_ok_frame; [|exact H].
  etransitivity; [apply same_sockets_ws_send|apply same_sockets_ws_startHeartbeat].
Qed.

(** Constructing an instance. *)
Lemma sock_ok_alloc obj s :
  constructed obj → sock_ok s →
  let s0 := set_transport (Some (nextId s))
              (set_heap (<[nextId s := obj]> (heap s)) (bump s)) in
  sock_ok s0 ∧ quiet (nextId s) s0.
Proof.
  intros Hc Hok s0. pose proof Hok as [F HF M C U I O].
  assert (ws_view (Some obj) = None ∨ ws_view (Some obj) = Some (None, None, 0%nat))
    as Hv.
  { destruct obj as [w|h|n]; simpl; try by left. destruct Hc as [url ->]. by right. }
  split; [split; simpl|split].
  - intros k sock Hk. destruct (F k sock Hk). lia.
  - intros j. rewrite ws_view_insert. destruct (decide (nextId s = j)) as [<-|]; [lia|].
    intros H. apply HF in H. lia.
  - intros j k t a. rewrite ws_view_insert.
    destruct (decide (nextId s = j)) as [<-|]; [|apply M].
    destruct Hv as [-> | ->]; done.
  - intros k sock Hk Hr. rewrite ws_view_insert.
    destruct (F k sock Hk).
    destruct (decide (nextId s = sock_owner sock)); [lia|]. by apply C.
  - exact U.
  - intros j v t a. rewrite ws_view_insert.
    destruct (decide (nextId s = j)) as [<-|]; [|apply I].
    destruct Hv as [-> | ->]; done.
  - intros k sock Hk Hop. rewrite ws_view_insert.
    destruct (F k sock Hk).
    destruct (decide (nextId s = sock_owner sock)); [lia|]. by apply (O k sock).
  - intros k sock Hk Ho. simpl in Hk. destruct (F k sock Hk). lia.
  - intros v t a. unfold s0. simpl. rewrite lookup_insert_eq.
    destruct Hv as [-> | ->]; [done|]. by intros [= _ <- _].
Qed.

Lemma sock_ok_Transport_disconnect i s :
  sock_ok s → sock_ok (Transport_disconnect i s).
Proof.
  intros Hok. unfold Transport_disconnect.
  destruct (heap s !! i) as [[w|h|n]|]; [| | |done].
  - by apply sock_ok_ws_disconnect.
  - eapply sock_ok_frame; [apply same_sockets_http_disconnect|done].
  - eapply sock_ok_frame; [apply same_sockets_native_disconnect|done].
Qed.

Lemma sock_ok_disconnectTransport s : sock_ok s → sock_ok (disconnectTransport s).
Proof.
  intros Hok. unfold disconnectTransport. cbv zeta.
  eapply sock_ok_frame; [apply same_sockets_updateBadge|].
  destruct (transport s) as [i|]; [|done].
  eapply sock_ok_frame; [apply same_sockets_set_transport|].
  by apply sock_ok_Transport_disconnect.
Qed.

Lemma sock_ok_install obj s : constructed obj → sock_ok s → sock_ok (install obj s).
Proof.
  intros Hc Hok. unfold install. cbv zeta.
  destruct (sock_ok_alloc obj s Hc Hok) as [Hok0 Hq].
  unfold Transport_connect. simpl heap at 1. rewrite lookup_insert_eq.
  destruct obj as [w|h|n].
  - by apply sock_ok_ws_connect.
  - eapply sock_ok_frame; [apply same_sockets_http_connect|done].
  - eapply sock_ok_frame; [apply same_sockets_native_connect|done].
Qed.

Lemma sock_ok_connectTransport s : sock_ok s → sock_ok (connectTransport s).
Proof.
  intros Hok. unfold connectTransport. cbv zeta.
  apply sock_ok_disconnectTransport in Hok.
  repeat case_bool_decide; try done; apply sock_ok_install; simpl; eauto.
Qed.

Lemma sock_ok_updateSettings n s : sock_ok s → sock_ok (updateSettings n s).
Proof.
  intros Hok. unfold updateSettings. cbv zeta.
  assert (sock_ok (saveSettings (set_settings (spread (settings s) n) s))) as H1.
  { eapply sock_ok_frame; [|exact Hok].
    etransitivity; [apply same_sockets_set_settings|apply same_sockets_saveSettings]. }
  destruct (needsReconnect _ _); [|done].
  apply sock_ok_disconnectTransport in H1.
  destruct (truthy _); [by apply sock_ok_connectTransport|done].
Qed.

Lemma sock_ok_loadSettings r s : sock_ok s → sock_ok (loadSettings r s).
Proof.
  intros Hok. unfold loadSettings. cbv zeta.
  assert (sock_ok (set_settings (spread (settings s) r) s)) as H1
    by (eapply sock_ok_frame; [apply same_sockets_set_settings|done]).
  destruct (truthy _); [by apply sock_ok_connectTransport|done].
Qed.

Lemma sock_ok_testConnection s : sock_ok s → sock_ok (testConnection s).
Proof.
  intros Hok. unfold testConnection. cbv zeta.
  set (s1 := match transport s with Some _ => _ | None => _ end).
  assert (sock_ok s1) as Hok1.
  { unfold s1. destruct (transport s) as [i|]; [|done].
    destruct (WebSocketTransport.this i s) as [w|] eqn:E; [|done].
    eapply (sock_ok_ws_store i _ _ _ _ s (ws_view_this i s w E));
      [by left|by right; left|by left|done]. }
  clearbody s1.
  set (s2 := match transport s1 with Some _ => _ | None => _ end).
  assert (sock_ok s2) as Hok2.
  { unfold s2. destruct (transport s1).
    - by apply sock_ok_connectTransport, sock_ok_disconnectTransport.
    - by apply sock_ok_connectTransport. }
  clearbody s2.
  eapply sock_ok_frame; [|exact Hok2]. frame_tac.
Qed.

Lemma sock_ok_init P : sock_ok (init P).
Proof. split; simpl; try done. by intros i [x Hx]. Qed.

Lemma sock_ok_step e s s' :
  wf s → sock_ok s → step e s = Some s' → sock_ok s'.
Proof.
  intros W Hok. destruct e; simpl.
  - intros [= <-]. by apply sock_ok_loadSettings.
  - intros [= <-]. eapply sock_ok_frame; [apply same_sockets_handleSubtitle|done].
  - intros [= <-]. eapply sock_ok_frame; [apply same_sockets_emit|done].
  - intros [= <-]. by apply sock_ok_updateSettings.
  - intros [= <-]. by apply sock_ok_testConnection.
  - destruct (sockets s !! k) as [sock|] eqn:E; [|done].
    case_bool_decide as R; [|done]. intros [= <-].
    by apply sock_ok_ws_onopen.
  - destruct (sockets s !! k) as [sock|] eqn:E; [|done].
    case_bool_decide; [done|]. intros [= <-].
    eapply sock_ok_frame; [apply same_sockets_ws_onerror|done].
  - destruct (sockets s !! k) as [sock|] eqn:E; [|done].
    case_bool_decide as R; [done|]. intros [= <-].
    apply sock_ok_ws_onclose;
      [|by eapply sock_ok_frame; [apply same_sockets_closed|]].
    intros k' b. unfold set_readyState. rewrite E. simpl.
    destruct (decide (k = k')) as [<-|Hne].
    + rewrite lookup_insert_eq. by intros [= <-].
    + rewrite lookup_insert_ne by done. intros Hk' Ho.
      destruct (decide (readyState b = CLOSED)) as [|Hb]; [done|].
      destruct Hne. by apply (sk_unique _ Hok k k' sock b).
  - destruct (timers s !! t) as [[i|i|r|]|] eqn:E; [| | | |done]; intros [= <-].
    + destruct (wf_reconnect _ W _ _ E) as (w & Hw & Hrt).
      assert (same_sockets s (set_timers (delete t (timers s)) s)) as Hf
        by eauto with frame.
      apply sock_ok_ws_reconnect_callback; [|by eapply sock_ok_frame].
      eapply idle_frame; [exact Hf|].
      apply (sk_idle _ Hok i (ws_ws w) t (reconnectAttempts w)).
      by rewrite Hw; simpl; rewrite Hrt.
    + eapply sock_ok_frame; [apply same_sockets_ws_heartbeat_callback|done].
    + eapply sock_ok_frame; [|exact Hok].
      etransitivity; [apply same_sockets_set_timers|
                      apply same_sockets_http_retry_callback].
    + eapply sock_ok_frame; [|exact Hok].
      etransitivity; [apply same_sockets_set_timers|
                      apply same_sockets_testConnection_callback].
  - destruct (requests s !! r) as [q|]; [|done].
    destruct (req_sleeping q); [done|]. intros [= <-].
    eapply sock_ok_frame; [apply same_sockets_http_resume|done].
  - case_bool_decide; [|done]. intros [= <-].
    eapply sock_ok_frame; [|exact Hok].
    etransitivity; [apply same_sockets_set_ports|
                    apply same_sockets_native_onDisconnect].
  - case_bool_decide; [|done]. by intros [= <-].
Qed.

Lemma reachable_sock_ok P s : reachable P s → sock_ok s.
Proof.
  induction 1 as [|s e s' Hr IH Hstep]; [apply sock_ok_init|].
  eapply sock_ok_step; [by eapply reachable_wf|exact IH|exact Hstep].
Qed.

(** X14. An instance never has two connections at once: in every
    reachable state at most one socket of an instance is not closed,
    and while one is connecting or open it is the socket the [ws] field
    of the instance names and no reconnection is scheduled for the
    instance. *)
Theorem X14_one_connection_per_instance
    (P : Platform) (s : State) (k : nat) (sock : Socket) :
  reachable P s →
  sockets s !! k = Some sock →
  readyState sock ≠ CLOSED →
  (∀ k' sock', sockets s !! k' = Some sock' →
               sock_owner sock' = sock_owner sock →
               readyState sock' ≠ CLOSED → k' = k) ∧
  (∀ t, timers s !! t ≠ Some (TReconnect (sock_owner sock))) ∧
  (readyState sock = CONNECTING ∨ readyState sock = OPEN →
   ∃ w, heap s !! sock_owner sock = Some (IWs w) ∧ ws_ws w = Some k ∧
        reconnectTimeout w = None).
Proof.
  intros Hr Hk Hn. pose proof (reachable_wf _ _ Hr) as W.
  apply reachable_sock_ok in Hr.
  assert (∀ w, heap s !! sock_owner sock = Some (IWs w) →
               reconnectTimeout w = None) as Hrt.
  { intros w Hw. destruct (reconnectTimeout w) as [t|] eqn:E; [|done].
    destruct Hn.
    pose proof (sk_idle _ Hr (sock_owner sock) (ws_ws w) t (reconnectAttempts w))
      as HI.
    rewrite Hw in HI. simpl in HI. rewrite E in HI.
    exact (HI eq_refl k sock Hk eq_refl). }
  split_and!.
  - intros k' sock' Hk' Ho Hn'. by apply (sk_unique _ Hr k' k sock' sock).
  - intros t Ht. destruct (wf_reconnect _ W _ _ Ht) as (w & Hw & Hrt').
    rewrite (Hrt w Hw) in Hrt'. discriminate Hrt'.
  - intros Hlive.
    destruct (sk_current _ Hr k sock Hk) as (t & a & Hv);
      [destruct Hlive as [-> | ->]; simpl; lia|].
    destruct (heap s !! sock_owner sock) as [[w|h|n]|] eqn:Hw; try discriminate Hv.
    injection Hv as Hws _ _. exists w. split_and!; [done|done|by apply Hrt].
Qed.

Lemma X14_one_connection_witness :
  let s := default (init browser) (run [LoadSettings ∅] (init browser)) in
  ∃ w, heap s !! 1%nat = Some (IWs w) ∧ ws_ws w = Some 2%nat ∧
       reconnectTimeout w = None.
Proof.
  intros s.
  assert (reachable browser s) as Hr
    by (apply (run_reachable browser [LoadSettings ∅] (init browser));
        [apply reachable_init | vm_compute; reflexivity]).
  assert (sockets s !! 2%nat = Some {| readyState := CONNECTING; sock_owner := 1 |})
    as Hk by (vm_compute; reflexivity).
  exact (proj2 (proj2 (X14_one_connection_per_instance browser s 2 _ Hr Hk
                         ltac:(discriminate))) (or_introl eq_refl)).
Defined.

(** X15. When the browser reports that a connection has opened, the
    handler always finds that connection in the [ws] field of its
    instance: it publishes Connected, resets the reconnection counter,
    sends the Connected record over the connection that opened, and
    starts a heartbeat interval of 30000 ms. *)
Theorem X15_open_connection_is_greeted
    (P : Platform) (s : State) (k : nat) (sock : Socket) :
  reachable P s →
  sockets s !! k = Some sock →
  readyState sock = CONNECTING →
  ∃ s' w0 w,
    step (SocketOpen k) s = Some s' ∧
    heap s !! sock_owner sock = Some (IWs w0) ∧
    heap s' !! sock_owner sock = Some (IWs w) ∧
    connectionStatus s' = Connected ∧
    ws_ws w = Some k ∧
    reconnectAttempts w = 0%nat ∧
    heartbeatInterval w = Some (nextId s) ∧
    timers s' !! nextId s = Some (THeartbeat (sock_owner sock)) ∧
    trace s' =
      trace s ++ [Badge Connected; WsSend k (MsgConnected VERSION)] ++
      match heartbeatInterval w0 with Some t => [ClearInterval t] | None => [] end ++
      [SetInterval (nextId s) 30000].
Proof.
  intros Hr Hk Hc. apply reachable_sock_ok in Hr.
  destruct (sk_current _ Hr k sock Hk) as (t & a & Hv); [rewrite Hc; simpl; lia|].
  destruct (heap s !! sock_owner sock) as [[w0|h|n]|] eqn:Hw; try discriminate Hv.
  injection Hv as Hws _ _.
  set (i := sock_owner sock) in *.
  set (s1 := set_sockets (<[k := {| readyState := OPEN; sock_owner := i |}]>
                            (sockets s)) s).
  assert (set_readyState k OPEN s = s1) as Hs1
    by (unfold set_readyState; by rewrite Hk).
  set (s3 := emit (WsSend k (MsgConnected VERSION))
               (WebSocketTransport.store i
                  (WebSocketTransport.with_reconnectAttempts 0 w0)
                  (updateBadge Connected s1))).
  assert (step (SocketOpen k) s = Some (WebSocketTransport.startHeartbeat i s3)) as Hstep.
  { simpl. rewrite Hk. rewrite bool_decide_eq_true_2 by done. fold i. rewrite Hs1.
    f_equal.
    unfold WebSocketTransport.onopen, WebSocketTransport.send,
      WebSocketTransport.this, WebSocketTransport.store.
    cbv zeta. simpl. rewrite Hw. simpl.
    rewrite lookup_insert_eq. simpl. rewrite Hws. rewrite lookup_insert_eq. simpl.
    reflexivity. }
  assert (heap s3 !! i =
          Some (IWs (WebSocketTransport.with_reconnectAttempts 0 w0))) as H3
    by (unfold s3; simpl; apply lookup_insert_eq).
  destruct (startHeartbeat_result i _ s3 H3) as (Hn & Ht & Hh & Heff).
  assert (nextId s3 = nextId s) as Hn3 by reflexivity.
  assert (trace s3 = trace s ++ [Badge Connected; WsSend k (MsgConnected VERSION)])
    as Ht3 by (unfold s3; simpl; by rewrite <- app_assoc).
  rewrite Hn3 in *.
  eexists _, w0, _. split_and!; [exact Hstep|reflexivity|exact Hh| |exact Hws|reflexivity|reflexivity|exact Ht|].
  - unfold WebSocketTransport.startHeartbeat, WebSocketTransport.stopHeartbeat,
      WebSocketTransport.this. cbv zeta. rewrite H3. simpl.
    destruct (heartbeatInterval w0); simpl; rewrite ?lookup_insert_eq; simpl;
      reflexivity.
  - rewrite Heff, Ht3. simpl. by rewrite <- !app_assoc.
Qed.

Lemma X15_open_connection_witness :
  let s := default (init browser) (run [LoadSettings ∅] (init browser)) in
  ∃ s' w0 w,
    step (SocketOpen 2) s = Some s' ∧
    heap s !! 1%nat = Some (IWs w0) ∧
    heap s' !! 1%nat = Some (IWs w) ∧
    connectionStatus s' = Connected ∧
    ws_ws w = Some 2%nat ∧
    reconnectAttempts w = 0%nat ∧
    heartbeatInterval w = Some (nextId s) ∧
    timers s' !! nextId s = Some (THeartbeat 1) ∧
    trace s' =
      trace s ++ [Badge Connected; WsSend 2 (MsgConnected VERSION)] ++
      match heartbeatInterval w0 with Some t => [ClearInterval t] | None => [] end ++
      [SetInterval (nextId s) 30000].
Proof.
  intros s.
  assert (reachable browser s) as Hr
    by (apply (run_reachable browser [LoadSettings ∅] (init browser));
        [apply reachable_init | vm_compute; reflexivity]).
  assert (sockets s !! 2%nat = Some {| readyState := CONNECTING; sock_owner := 1 |})
    as Hk by (vm_compute; reflexivity).
  exact (X15_open_connection_is_greeted browser s 2 _ Hr Hk eq_refl).
Defined.

(** X16. [WebSocketTransport.disconnect] leaves its instance without a
    connection: afterwards none of the sockets that were ever created
    for the instance is connecting or open, not only the one the [ws]
    field named. *)
Theorem X16_disconnect_leaves_no_connection
    (P : Platform) (s : State) (i : nat) (w : WsObject) :
  reachable P s →
  heap s !! i = Some (IWs w) →
  ∀ k sock,
    sockets (WebSocketTransport.disconnect i s) !! k = Some sock →
    sock_owner sock = i →
    readyState sock = CLOSING ∨ readyState sock = CLOSED.
Proof.
  intros Hr Hi k sock Hk Ho. apply reachable_sock_ok in Hr.
  apply (sock_ok_ws_disconnect i) in Hr.
  destruct (ws_disconnect_first i w s Hi) as (_ & Hheap & _).
  destruct (readyState sock) eqn:R; eauto.
  all: destruct (sk_current _ Hr k sock Hk) as (t & a & Hv); [rewrite R; simpl; lia|].
  all: rewrite Ho, Hheap, lookup_insert_eq in Hv; discriminate Hv.
Qed.

Lemma X16_disconnect_witness :
  let s := default (init browser)
             (run [LoadSettings ∅; SocketOpen 2] (init browser)) in
  let sock := {| readyState := CLOSING; sock_owner := 1 |} in
  sockets (WebSocketTransport.disconnect 1 s) !! 2%nat = Some sock ∧
  (readyState sock = CLOSING ∨ readyState sock = CLOSED).
Proof.
  intros s sock.
  assert (reachable browser s) as Hr
    by (apply (run_reachable browser [LoadSettings ∅; SocketOpen 2] (init browser));
        [apply reachable_init | vm_compute; reflexivity]).
  pose (w := {| ws_url := Some (JStr "ws://localhost:8767");
                ws_ws := Some 2%nat; reconnectAttempts := 0;
                maxReconnectAttempts := 3; maxReconnectDelay := 30000;
                heartbeatInterval := Some 3%nat; reconnectTimeout := None |}).
  assert (heap s !! 1%nat = Some (IWs w)) as Hi by (vm_compute; reflexivity).
  assert (sockets (WebSocketTransport.disconnect 1 s) !! 2%nat =
          Some {| readyState := CLOSING; sock_owner := 1 |}) as Hk
    by (vm_compute; reflexivity).
  split; [exact Hk|].
  exact (X16_disconnect_leaves_no_connection browser s 1 w Hr Hi 2 _ Hk eq_refl).
Defined.

(** X20. A connection that has opened is retried one second after it
    is lost, however many attempts it took to open it: in every
    reachable state the instance of an open socket has its reconnection
    counter at 0 and no reconnection scheduled, so the close event
    publishes Disconnected, stops the heartbeat and sets a reconnect
    timer of 1000 ms. *)
Theorem X20_lost_connection_is_retried_after_one_second
    (P : Platform) (s : State) (k : nat) (sock : Socket) :
  reachable P s →
  sockets s !! k = Some sock →
  readyState sock = OPEN →
  ∃ s' w,
    step (SocketClose k) s = Some s' ∧
    heap s !! sock_owner sock = Some (IWs w) ∧
    reconnectAttempts w = 0%nat ∧
    reconnectTimeout w = None ∧
    connectionStatus s' = Disconnected ∧
    timers s' !! nextId s = Some (TReconnect (sock_owner sock)) ∧
    trace s' =
      trace s ++ [Badge Disconnected] ++
      match heartbeatInterval w with Some t => [ClearInterval t] | None => [] end ++
      [SetTimeout (nextId s) 1000].
Proof.
  intros Hr Hk Hop. pose proof (reachable_wf _ _ Hr) as W.
  apply reachable_sock_ok in Hr.
  destruct (sk_open _ Hr k sock Hk Hop) as (v & t & Hv).
  destruct (ws_view_heap _ _ _ _ _ Hv) as (w & Hw & _ & _ & Ht & Ha).
  assert (t = None) as ->.
  { destruct t as [t|]; [|done].
    pose proof (sk_idle _ Hr _ _ _ _ Hv k sock Hk eq_refl) as Hc. congruence. }
  destruct (wf_ws _ W _ _ Hw) as (HmaxA & HmaxD & _ & _).
  exists (WebSocketTransport.onclose (sock_owner sock) (set_readyState k CLOSED s)), w.
  split.
  { simpl. rewrite Hk. rewrite bool_decide_eq_false_2; [done|]. by rewrite Hop. }
  split; [done|]. split; [done|]. split; [done|].
  unfold WebSocketTransport.onclose, WebSocketTransport.stopHeartbeat,
    WebSocketTransport.scheduleReconnect, WebSocketTransport.this,
    WebSocketTransport.store, set_readyState.
  cbv zeta. rewrite Hk. simpl. rewrite Hw.
  destruct w as [url ws att maxA maxD hb rt]; simpl in *. subst att maxA maxD rt.
  destruct hb as [hb|]; repeat (simpl; rewrite ?lookup_insert_eq, ?Hw).
  all: split_and!; [reflexivity|reflexivity|].
  all: by rewrite <- ?app_assoc.
Qed.

Lemma X20_lost_connection_witness :
  let s := default (init browser)
             (run [LoadSettings ∅; SocketOpen 2] (init browser)) in
  ∃ s' w,
    step (SocketClose 2) s = Some s' ∧
    heap s !! 1%nat = Some (IWs w) ∧
    reconnectAttempts w = 0%nat ∧
    reconnectTimeout w = None ∧
    connectionStatus s' = Disconnected ∧
    timers s' !! nextId s = Some (TReconnect 1) ∧
    trace s' =
      trace s ++ [Badge Disconnected] ++
      match heartbeatInterval w with Some t => [ClearInterval t] | None => [] end ++
      [SetTimeout (nextId s) 1000].
Proof.
  intros s.
  assert (reachable browser s) as Hr
    by (apply (run_reachable browser [LoadSettings ∅; SocketOpen 2] (init browser));
        [apply reachable_init | vm_compute; reflexivity]).
  assert (sockets s !! 2%nat = Some {| readyState := OPEN; sock_owner := 1 |})
    as Hk by (vm_compute; reflexivity).
  exact (X20_lost_connection_is_retried_after_one_second browser s 2 _ Hr Hk eq_refl).
Defined.

(** * Reconfiguration and the reconnection cap *)

(** ** The trace only grows *)

#[local] Instance extends_preorder : PreOrder extends.
Proof.
  split.
  - intros s. exists []. by rewrite app_nil_r.
  - intros s1 s2 s3 [l1 H1] [l2 H2]. exists (l1 ++ l2).
    by rewrite H2, H1, <- app_assoc.
Qed.

Lemma extends_emit e s : extends s (emit e s).
Proof. by exists [e]. Qed.
#[local] Hint Resolve extends_emit : frame.

Lemma extends_set_connectionStatus v s : extends s (set_connectionStatus v s).
Proof. exists []. simpl. by rewrite app_nil_r. Qed.
#[local] Hint Resolve extends_set_connectionStatus : frame.

Lemma extends_set_heap v s : extends s (set_heap v s).
Proof. exists []. simpl. by rewrite app_nil_r. Qed.
#[local] Hint Resolve extends_set_heap : frame.

Lemma extends_set_sockets v s : extends s (set_sockets v s).
Proof. exists []. simpl. by rewrite app_nil_r. Qed.
#[local] Hint Resolve extends_set_sockets : frame.

Lemma extends_set_ports v s : extends s (set_ports v s).
Proof. exists []. simpl. by rewrite app_nil_r. Qed.
#[local] Hint Resolve extends_set_ports : frame.

Lemma extends_set_timers v s : extends s (set_timers v s).
Proof. exists []. simpl. by rewrite app_nil_r. Qed.
#[local] Hint Resolve extends_set_timers : frame.

Lemma extends_set_requests v s : extends s (set_requests v s).
Proof. exists []. simpl. by rewrite app_nil_r. Qed.
#[local] Hint Resolve extends_set_requests : frame.

Lemma extends_set_transport v s : extends s (set_transport v s).
Proof. exists []. simpl. by rewrite app_nil_r. Qed.
#[local] Hint Resolve extends_set_transport : frame.

Lemma extends_set_settings v s : extends s (set_settings v s).
Proof. exists []. simpl. by rewrite app_nil_r. Qed.
#[local] Hint Resolve extends_set_settings : frame.

Lemma extends_bump s : extends s (bump s).
Proof. exists []. simpl. by rewrite app_nil_r. Qed.
#[local] Hint Resolve extends_bump : frame.

Lemma extends_ws_store i w s : extends s (WebSocketTransport.store i w s).
Proof. exists []. simpl. by rewrite app_nil_r. Qed.
#[local] Hint Resolve extends_ws_store : frame.

Lemma extends_native_store i n s : extends s (NativeTransport.store i n s).
Proof. exists []. simpl. by rewrite app_nil_r. Qed.
#[local] Hint Resolve extends_native_store : frame.

Lemma extends_updateBadge st s : extends s (updateBadge st s).
Proof. unfold updateBadge. frame_tac. Qed.
#[local] Hint Resolve extends_updateBadge : frame.

Lemma extends_saveSettings s : extends s (saveSettings s).
Proof. unfold saveSettings. frame_tac. Qed.
#[local] Hint Resolve extends_saveSettings : frame.

Lemma extends_ws_send i m s : extends s (WebSocketTransport.send i m s).
Proof. unfold WebSocketTransport.send. frame_tac. Qed.
#[local] Hint Resolve extends_ws_send : frame.

Lemma extends_ws_stopHeartbeat i s : extends s (WebSocketTransport.stopHeartbeat i s).
Proof. unfold WebSocketTransport.stopHeartbeat. frame_tac. Qed.
#[local] Hint Resolve extends_ws_stopHeartbeat : frame.

Lemma extends_ws_startHeartbeat i s : extends s (WebSocketTransport.startHeartbeat i s).
Proof. unfold WebSocketTransport.startHeartbeat. frame_tac. Qed.
#[local] Hint Resolve extends_ws_startHeartbeat : frame.

Lemma extends_ws_scheduleReconnect i s : extends s (WebSocketTransport.scheduleReconnect i s).
Proof. unfold WebSocketTransport.scheduleReconnect. frame_tac. Qed.
#[local] Hint Resolve extends_ws_scheduleReconnect : frame.

Lemma extends_ws_connect i s : extends s (WebSocketTransport.connect i s).
Proof. unfold WebSocketTransport.connect. frame_tac. Qed.
#[local] Hint Resolve extends_ws_connect : frame.

Lemma extends_ws_onopen i s : extends s (WebSocketTransport.onopen i s).
Proof. unfold WebSocketTransport.onopen. frame_tac. Qed.
#[local] Hint Resolve extends_ws_onopen : frame.

Lemma extends_ws_onclose i s : extends s (WebSocketTransport.onclose i s).
Proof. unfold WebSocketTransport.onclose. frame_tac. Qed.
#[local] Hint Resolve extends_ws_onclose : frame.

Lemma extends_ws_onerror i s : extends s (WebSocketTransport.onerror i s).
Proof. unfold WebSocketTransport.onerror. frame_tac. Qed.
#[local] Hint Resolve extends_ws_onerror : frame.

Lemma extends_ws_socket_close k s : extends s (WebSocketTransport.socket_close k s).
Proof. unfold WebSocketTransport.socket_close. frame_tac. Qed.
#[local] Hint Resolve extends_ws_socket_close : frame.

Lemma extends_ws_disconnect i s : extends s (WebSocketTransport.disconnect i s).
Proof. unfold WebSocketTransport.disconnect. frame_tac. Qed.
#[local] Hint Resolve extends_ws_disconnect : frame.

Lemma extends_ws_reconnect_callback i s : extends s (WebSocketTransport.reconnect_callback i s).
Proof. unfold WebSocketTransport.reconnect_callback. frame_tac. Qed.
#[local] Hint Resolve extends_ws_reconnect_callback : frame.

Lemma extends_ws_heartbeat_callback i s : extends s (WebSocketTransport.heartbeat_callback i s).
Proof. unfold WebSocketTransport.heartbeat_callback. frame_tac. Qed.
#[local] Hint Resolve extends_ws_heartbeat_callback : frame.

Lemma extends_http_loop r a s : extends s (HttpTransport.loop r a s).
Proof. unfold HttpTransport.loop. frame_tac. Qed.
#[local] Hint Resolve extends_http_loop : frame.

Lemma extends_http_send i m s : extends s (HttpTransport.send i m s).
Proof. unfold HttpTransport.send. frame_tac. Qed.
#[local] Hint Resolve extends_http_send : frame.

Lemma extends_http_resume r o s : extends s (HttpTransport.resume r o s).
Proof. unfold HttpTransport.resume. frame_tac. Qed.
#[local] Hint Resolve extends_http_resume : frame.

Lemma extends_http_retry_callback r s : extends s (HttpTransport.retry_callback r s).
Proof. unfold HttpTransport.retry_callback. frame_tac. Qed.
#[local] Hint Resolve extends_http_retry_callback : frame.

Lemma extends_http_connect i s : extends s (HttpTransport.connect i s).
Proof. unfold HttpTransport.connect. frame_tac. Qed.
#[local] Hint Resolve extends_http_connect : frame.

Lemma extends_http_disconnect i s : extends s (HttpTransport.disconnect i s).
Proof. unfold HttpTransport.disconnect. frame_tac. Qed.
#[local] Hint Resolve extends_http_disconnect : frame.

Lemma extends_native_send i m s : extends s (NativeTransport.send i m s).
Proof. unfold NativeTransport.send. frame_tac. Qed.
#[local] Hint Resolve extends_native_send : frame.

Lemma extends_native_connect i s : extends s (NativeTransport.connect i s).
Proof. unfold NativeTransport.connect. frame_tac. Qed.
#[local] Hint Resolve extends_native_connect : frame.

Lemma extends_native_disconnect i s : extends s (NativeTransport.disconnect i s).
Proof. unfold NativeTransport.disconnect. frame_tac. Qed.
#[local] Hint Resolve extends_native_disconnect : frame.

Lemma extends_Transport_connect i s : extends s (Transport_connect i s).
Proof. unfold Transport_connect. frame_tac. Qed.
#[local] Hint Resolve extends_Transport_connect : frame.

Lemma extends_Transport_disconnect i s : extends s (Transport_disconnect i s).
Proof. unfold Transport_disconnect. frame_tac. Qed.
#[local] Hint Resolve extends_Transport_disconnect : frame.

Lemma extends_Transport_send i m s : extends s (Transport_send i m s).
Proof. unfold Transport_send. frame_tac. Qed.
#[local] Hint Resolve extends_Transport_send : frame.

Lemma extends_disconnectTransport s : extends s (disconnectTransport s).
Proof. unfold disconnectTransport. frame_tac. Qed.
#[local] Hint Resolve extends_disconnectTransport : frame.

Lemma extends_install obj s : extends s (install obj s).
Proof. unfold install. frame_tac. Qed.
#[local] Hint Resolve extends_install : frame.

Lemma extends_connectTransport s : extends s (connectTransport s).
Proof. unfold connectTransport. frame_tac. Qed.
#[local] Hint Resolve extends_connectTransport : frame.

Lemma extends_effects f s : extends s (f s) → trace (f s) = trace s ++ effects_of f s.
Proof. intros [l H]. by rewrite (effects_of_app f s l H). Qed.

(** ** Counting connection attempts *)

#[local] Instance steady_preorder : PreOrder steady.
Proof.
  split.
  - by intros s.
  - intros s1 s2 s3 [H1 H2] [H3 H4]. split; [congruence|].
    intros i. by rewrite H4, H2.
Qed.

Lemma connecting_emit e s :
  connecting (emit e s) =
  (connecting s + if is_connecting e then 1 else 0)%nat.
Proof.
  unfold connecting, count_status. rewrite published_emit.
  rewrite List.filter_app, length_app. f_equal.
  destruct e as [st| | | | | | | | | | | | |]; try reflexivity. by destruct st.
Qed.

Lemma attempts_of_insert i j obj (h : gmap nat Instance) :
  attempts_of (<[i := obj]> h !! j) =
  if decide (i = j) then attempts_of (Some obj) else attempts_of (h !! j).
Proof.
  destruct (decide (i = j)) as [->|].
  - by rewrite lookup_insert_eq.
  - by rewrite lookup_insert_ne.
Qed.

Lemma attempts_of_this i s w :
  WebSocketTransport.this i s = Some w →
  attempts_of (heap s !! i) = Some (reconnectAttempts w).
Proof.
  unfold WebSocketTransport.this. destruct (heap s !! i) as [[]|]; try done.
  by intros [= ->].
Qed.

Lemma attempts_of_native i s n :
  NativeTransport.this i s = Some n → attempts_of (heap s !! i) = None.
Proof. unfold NativeTransport.this. by destruct (heap s !! i) as [[]|]. Qed.

#[local] Hint Extern 1 (is_connecting _ = false) => reflexivity : frame.
#[local] Hint Extern 1 (_ ≠ Connecting) => discriminate : frame.

Lemma steady_emit e s : is_connecting e = false → steady s (emit e s).
Proof.
  intros He. split; [|done]. rewrite connecting_emit, He. lia.
Qed.
#[local] Hint Resolve steady_emit : frame.

Lemma steady_set_connectionStatus v s : steady s (set_connectionStatus v s).
Proof. done. Qed.
#[local] Hint Resolve steady_set_connectionStatus : frame.

Lemma steady_set_sockets v s : steady s (set_sockets v s).
Proof. done. Qed.
#[local] Hint Resolve steady_set_sockets : frame.

Lemma steady_set_ports v s : steady s (set_ports v s).
Proof. done. Qed.
#[local] Hint Resolve steady_set_ports : frame.

Lemma steady_set_timers v s : steady s (set_timers v s).
Proof. done. Qed.
#[local] Hint Resolve steady_set_timers : frame.

Lemma steady_set_requests v s : steady s (set_requests v s).
Proof. done. Qed.
#[local] Hint Resolve steady_set_requests : frame.

Lemma steady_set_transport v s : steady s (set_transport v s).
Proof. done. Qed.
#[local] Hint Resolve steady_set_transport : frame.

Lemma steady_bump s : steady s (bump s).
Proof. done. Qed.
#[local] Hint Resolve steady_bump : frame.

Lemma connecting_updateBadge st s :
  connecting (updateBadge st s) =
  (connecting s + if bool_decide (st = Connecting) then 1 else 0)%nat.
Proof.
  unfold updateBadge. rewrite connecting_emit.
  change (connecting (set_connectionStatus st s)) with (connecting s).
  by destruct st.
Qed.

Lemma steady_updateBadge st s : st ≠ Connecting → steady s (updateBadge st s).
Proof.
  intros Hst. split; [|done]. rewrite connecting_updateBadge.
  rewrite bool_decide_eq_false_2 by done. lia.
Qed.
#[local] Hint Resolve steady_updateBadge : frame.

(** Writing a field other than [reconnectAttempts]. *)
Lemma steady_ws_store i w s :
  attempts_of (heap s !! i) = Some (reconnectAttempts w) →
  steady s (WebSocketTransport.store i w s).
Proof.
  intros Hv. split; [done|]. intros j. simpl. rewrite attempts_of_insert.
  by destruct (decide (i = j)) as [<-|].
Qed.

Lemma steady_native_store i n s :
  attempts_of (heap s !! i) = None →
  steady s (NativeTransport.store i n s).
Proof.
  intros Hv. split; [done|]. intros j. simpl. rewrite attempts_of_insert.
  by destruct (decide (i = j)) as [<-|].
Qed.

Lemma steady_ws_send i m s : steady s (WebSocketTransport.send i m s).
Proof. unfold WebSocketTransport.send. frame_tac. Qed.
#[local] Hint Resolve steady_ws_send : frame.

Lemma steady_ws_stopHeartbeat i s :
  steady s (WebSocketTransport.stopHeartbeat i s).
Proof.
  unfold WebSocketTransport.stopHeartbeat.
  destruct (WebSocketTransport.this i s) as [w|] eqn:E; [|reflexivity].
  destruct (heartbeatInterval w) as [t|]; [|reflexivity].
  etransitivity; [|apply steady_ws_store; simpl; by apply attempts_of_this].
  frame_tac.
Qed.
#[local] Hint Resolve steady_ws_stopHeartbeat : frame.

Lemma steady_ws_scheduleReconnect i s :
  steady s (WebSocketTransport.scheduleReconnect i s).
Proof.
  unfold WebSocketTransport.scheduleReconnect.
  destruct (WebSocketTransport.this i s) as [w|] eqn:E; [|reflexivity].
  destruct (reconnectTimeout w); [reflexivity|].
  destruct (_ <=? _)%nat; [eauto with frame|]. cbv zeta.
  etransitivity; [|apply steady_ws_store; simpl; by apply attempts_of_this].
  frame_tac.
Qed.
#[local] Hint Resolve steady_ws_scheduleReconnect : frame.

Lemma steady_ws_onclose i s : steady s (WebSocketTransport.onclose i s).
Proof. unfold WebSocketTransport.onclose. frame_tac. Qed.
#[local] Hint Resolve steady_ws_onclose : frame.

Lemma steady_ws_onerror i s : steady s (WebSocketTransport.onerror i s).
Proof. unfold WebSocketTransport.onerror. frame_tac. Qed.
#[local] Hint Resolve steady_ws_onerror : frame.

Lemma steady_ws_heartbeat_callback i s :
  steady s (WebSocketTransport.heartbeat_callback i s).
Proof. unfold WebSocketTransport.heartbeat_callback. frame_tac. Qed.
#[local] Hint Resolve steady_ws_heartbeat_callback : frame.

Lemma steady_http_loop r a s : steady s (HttpTransport.loop r a s).
Proof. unfold HttpTransport.loop. frame_tac. Qed.
#[local] Hint Resolve steady_http_loop : frame.

Lemma steady_http_send i m s : steady s (HttpTransport.send i m s).
Proof. unfold HttpTransport.send. frame_tac. Qed.
#[local] Hint Resolve steady_http_send : frame.

Lemma steady_http_resume r o s : steady s (HttpTransport.resume r o s).
Proof. unfold HttpTransport.resume. frame_tac. Qed.
#[local] Hint Resolve steady_http_resume : frame.

Lemma steady_http_retry_callback r s :
  steady s (HttpTransport.retry_callback r s).
Proof. unfold HttpTransport.retry_callback. frame_tac. Qed.
#[local] Hint Resolve steady_http_retry_callback : frame.

Lemma steady_http_connect i s : steady s (HttpTransport.connect i s).
Proof. unfold HttpTransport.connect. frame_tac. Qed.
#[local] Hint Resolve steady_http_connect : frame.

Lemma steady_native_send i m s : steady s (NativeTransport.send i m s).
Proof. unfold NativeTransport.send. frame_tac. Qed.
#[local] Hint Resolve steady_native_send : frame.

Lemma steady_native_onDisconnect s : steady s (NativeTransport.onDisconnect s).
Proof. unfold NativeTransport.onDisconnect. frame_tac. Qed.
#[local] Hint Resolve steady_native_onDisconnect : frame.

Lemma steady_Transport_send i m s : steady s (Transport_send i m s).
Proof. unfold Transport_send. frame_tac. Qed.
#[local] Hint Resolve steady_Transport_send : frame.

Lemma steady_handleSubtitle m s : steady s (handleSubtitle m s).
Proof. unfold handleSubtitle. frame_tac. Qed.
#[local] Hint Resolve steady_handleSubtitle : frame.

Lemma steady_testConnection_callback s : steady s (testConnection_callback s).
Proof. unfold testConnection_callback. frame_tac. Qed.
#[local] Hint Resolve steady_testConnection_callback : frame.

Lemma steady_set_readyState k rs s : steady s (set_readyState k rs s).
Proof. unfold set_readyState. frame_tac. Qed.
#[local] Hint Resolve steady_set_readyState : frame.

(** [connect] publishes Connecting once and leaves the counters. *)
Lemma ws_connect_counts i s :
  connecting (WebSocketTransport.connect i s) = S (connecting s) ∧
  ∀ j, attempts_of (heap (WebSocketTransport.connect i s) !! j) =
       attempts_of (heap s !! j).
Proof.
  unfold WebSocketTransport.connect. cbv zeta.
  assert (connecting (updateBadge Connecting s) = S (connecting s)) as Hc
    by (rewrite connecting_updateBadge; simpl; lia).
  assert (steady (updateBadge Connecting s)
            match WebSocketTransport.this i (updateBadge Connecting s) with
            | Some w =>
                if WebSocket_accepts (platform (updateBadge Connecting s)) (ws_url w)
                then
                  WebSocketTransport.store i
                    (WebSocketTransport.with_ws
                       (Some (nextId (updateBadge Connecting s))) w)
                    (emit (WsNew (nextId (updateBadge Connecting s)) (ws_url w))
                       (set_sockets
                          (<[nextId (updateBadge Connecting s) :=
                               {| readyState := CONNECTING; sock_owner := i |}]>
                             (sockets (updateBadge Connecting s)))
                          (bump (updateBadge Connecting s))))
                else
                  WebSocketTransport.scheduleReconnect i
                    (updateBadge Disconnected (updateBadge Connecting s))
            | None => updateBadge Connecting s
            end) as [H1 H2].
  { generalize (updateBadge Connecting s). intros s1.
    destruct (WebSocketTransport.this i s1) as [w|] eqn:E; [|reflexivity].
    destruct (WebSocket_accepts _ _); [|frame_tac].
    etransitivity; [|apply steady_ws_store; simpl; by apply attempts_of_this].
    frame_tac. }
  split; [by rewrite H1|]. intros j. by rewrite H2.
Qed.

Lemma native_connect_counts i s :
  connecting (NativeTransport.connect i s) = S (connecting s) ∧
  ∀ j, attempts_of (heap (NativeTransport.connect i s) !! j) =
       attempts_of (heap s !! j).
Proof.
  unfold NativeTransport.connect. cbv zeta.
  assert (connecting (updateBadge Connecting s) = S (connecting s)) as Hc
    by (rewrite connecting_updateBadge; simpl; lia).
  assert (steady (updateBadge Connecting s)
            match NativeTransport.this i (updateBadge Connecting s) with
            | Some n =>
                if connectNative_accepts (platform (updateBadge Connecting s))
                     (hostName n)
                then
                  NativeTransport.send i (MsgConnected VERSION)
                    (updateBadge Connected
                       (NativeTransport.store i
                          {| hostName := hostName n;
                             port := Some (nextId (updateBadge Connecting s)) |}
                          (emit (ConnectNative (nextId (updateBadge Connecting s))
                                   (hostName n))
                             (set_ports
                                (<[nextId (updateBadge Connecting s) := true]>
                                   (ports (updateBadge Connecting s)))
                                (bump (updateBadge Connecting s))))))
                else updateBadge Disconnected (updateBadge Connecting s)
            | None => updateBadge Connecting s
            end) as [H1 H2].
  { generalize (updateBadge Connecting s). intros s1.
    destruct (NativeTransport.this i s1) as [n|] eqn:E; [|reflexivity].
    destruct (connectNative_accepts _ _); [|frame_tac].
    etransitivity; [|apply steady_native_send].
    etransitivity; [|apply steady_updateBadge; discriminate].
    etransitivity; [|apply steady_native_store; simpl; by eapply attempts_of_native].
    frame_tac. }
  split; [by rewrite H1|]. intros j. by rewrite H2.
Qed.

(** The reconnect timer of an instance fires. *)
Lemma reconnect_callback_counts i w s :
  heap s !! i = Some (IWs w) →
  connecting (WebSocketTransport.reconnect_callback i s) = S (connecting s) ∧
  ∀ j, attempts_of (heap (WebSocketTransport.reconnect_callback i s) !! j) =
       if decide (i = j) then Some (S (reconnectAttempts w))
       else attempts_of (heap s !! j).
Proof.
  intros Hi. unfold WebSocketTransport.reconnect_callback. cbv zeta.
  rewrite (proj2 (ws_this_heap i s w) Hi).
  destruct (ws_connect_counts i
              (WebSocketTransport.store i
                 (WebSocketTransport.with_reconnectAttempts
                    (S (reconnectAttempts w))
                    (WebSocketTransport.with_reconnectTimeout None w)) s))
    as [H1 H2].
  split; [by rewrite H1|]. intros j. rewrite H2. simpl.
  by rewrite attempts_of_insert.
Qed.

(** Constructing an instance and connecting it. *)
Lemma install_counts obj s :
  connecting (install obj s) =
    (connecting s + match obj with IHttp _ => 0 | _ => 1 end)%nat ∧
  ∀ j, attempts_of (heap (install obj s) !! j) =
       if decide (nextId s = j) then attempts_of (Some obj)
       else attempts_of (heap s !! j).
Proof.
  unfold install. cbv zeta.
  set (s0 := set_transport _ _).
  assert (heap s0 !! nextId s = Some obj) as Hs0 by apply lookup_insert_eq.
  unfold Transport_connect. rewrite Hs0.
  assert (connecting s0 = connecting s) as Hc by reflexivity.
  assert (∀ j, attempts_of (heap s0 !! j) =
               if decide (nextId s = j) then attempts_of (Some obj)
               else attempts_of (heap s !! j)) as Hh
    by (intros j; apply attempts_of_insert).
  destruct obj as [w|h|n]; cbv beta iota.
  - destruct (ws_connect_counts (nextId s) s0) as [H1 H2].
    split; [rewrite H1, Hc; lia|]. intros j. by rewrite H2.
  - destruct (steady_http_connect (nextId s) s0) as [H1 H2].
    split; [rewrite H1, Hc; lia|]. intros j. by rewrite H2.
  - destruct (native_connect_counts (nextId s) s0) as [H1 H2].
    split; [rewrite H1, Hc; lia|]. intros j. by rewrite H2.
Qed.

Lemma counted_steady a0 c0 s s' :
  steady s s' → counted a0 c0 s → counted a0 c0 s'.
Proof.
  intros [Hc Hh] (K1 & K2 & K3). split_and!.
  - intros i a. rewrite Hh, Hc. apply K1.
  - intros i j a b. rewrite !Hh. apply K2.
  - intros Hn. rewrite Hc. apply K3. intros i. rewrite <- Hh. apply Hn.
Qed.

(** The worker has loaded its settings and nothing else has happened:
    Connecting has been published once if a WebSocket instance was
    connected, and at most once otherwise. *)
Lemma counted_start P r : counted 0 1 (loadSettings r (init P)).
Proof.
  unfold loadSettings. cbv zeta.
  set (s1 := set_settings _ _).
  assert (∀ s, heap s = ∅ → (connecting s ≤ 1)%nat → counted 0 1 s) as Hempty.
  { intros s Hs Hc. split_and!.
    - intros i a. by rewrite Hs, lookup_empty.
    - intros i j a b. by rewrite Hs, lookup_empty.
    - intros _. lia. }
  destruct (truthy _);
    [|apply Hempty; [reflexivity|change (connecting s1) with 0%nat; lia]].
  unfold connectTransport. cbv zeta.
  set (s2 := disconnectTransport s1).
  assert (heap s2 = ∅) as Hh2 by reflexivity.
  assert (connecting s2 = 0%nat) as Hc2 by reflexivity.
  assert (∀ obj, constructed obj → counted 0 1 (install obj s2)) as Hinst.
  { intros obj Hobj. destruct (install_counts obj s2) as [H1 H2].
    rewrite Hc2 in H1. split_and!.
    - intros i a. rewrite H2, H1, Hh2, lookup_empty.
      destruct (decide (nextId s2 = i)); [|done].
      destruct obj as [w|h|n]; simpl; try done.
      destruct Hobj as [url ->]. simpl. intros [= <-]. lia.
    - intros i j a b. rewrite !H2, Hh2, !lookup_empty.
      destruct (decide (nextId s2 = i)), (decide (nextId s2 = j)); try done.
      congruence.
    - intros _. rewrite H1. destruct obj; lia. }
  repeat case_bool_decide; try (apply Hinst; simpl; eauto).
  apply Hempty; [done|rewrite Hc2; lia].
Qed.

Lemma counted_reconnect a0 c0 t i s :
  wf s → timers s !! t = Some (TReconnect i) → counted a0 c0 s →
  counted a0 c0
    (WebSocketTransport.reconnect_callback i (set_timers (delete t (timers s)) s)).
Proof.
  intros W Ht (K1 & K2 & K3).
  destruct (wf_reconnect _ W _ _ Ht) as (w & Hw & _).
  destruct (reconnect_callback_counts i w (set_timers (delete t (timers s)) s) Hw)
    as [Hc Hh].
  change (connecting (set_timers (delete t (timers s)) s)) with (connecting s) in Hc.
  change (heap (set_timers (delete t (timers s)) s)) with (heap s) in Hh.
  assert (attempts_of (heap s !! i) = Some (reconnectAttempts w)) as Hi
    by (by rewrite Hw).
  split_and!.
  - intros j a. rewrite Hh, Hc. destruct (decide (i = j)) as [<-|Hne].
    + intros [= <-]. specialize (K1 i _ Hi). lia.
    + intros Hj. destruct Hne. by eapply K2.
  - intros j1 j2 a b. rewrite !Hh. intros H1 H2.
    assert (∀ j x, (if decide (i = j) then Some (S (reconnectAttempts w))
                    else attempts_of (heap s !! j)) = Some x → j = i) as Hone.
    { intros j x. destruct (decide (i = j)) as [<-|]; [done|].
      intros Hj. symmetry. by eapply K2. }
    rewrite (Hone _ _ H1), (Hone _ _ H2). done.
  - intros Hn. specialize (Hn i). rewrite Hh in Hn.
    by destruct (decide (i = i)).
Qed.

(** A turn in which no connection opens keeps the count, also the
    reconnect timer, which raises both sides by one. *)
Lemma counted_step a0 c0 e s s' :
  wf s → counted a0 c0 s → refusing e = true → step e s = Some s' →
  counted a0 c0 s' ∧
  ∀ j, is_Some (attempts_of (heap s !! j)) → is_Some (attempts_of (heap s' !! j)).
Proof.
  intros W K He Hstep.
  assert (steady s s' → counted a0 c0 s' ∧
          ∀ j, is_Some (attempts_of (heap s !! j)) →
               is_Some (attempts_of (heap s' !! j))) as Hst.
  { intros Hs. split; [by eapply counted_steady|].
    intros j. by rewrite (proj2 Hs). }
  destruct e; try discriminate He; simpl in Hstep.
  - injection Hstep as <-. apply Hst. eauto with frame.
  - injection Hstep as <-. apply Hst. eauto with frame.
  - destruct (sockets s !! k) as [sock|]; [|done].
    case_bool_decide; [done|]. injection Hstep as <-. apply Hst. eauto with frame.
  - destruct (sockets s !! k) as [sock|]; [|done].
    case_bool_decide; [done|]. injection Hstep as <-. apply Hst.
    etransitivity; [apply steady_set_readyState|apply steady_ws_onclose].
  - destruct (timers s !! t) as [[i|i|r|]|] eqn:E; [| | | |done];
      injection Hstep as <-.
    + split; [by apply counted_reconnect|].
      destruct (wf_reconnect _ W _ _ E) as (w & Hw & _).
      destruct (reconnect_callback_counts i w
                  (set_timers (delete t (timers s)) s) Hw) as [_ Hh].
      intros j. rewrite Hh. destruct (decide (i = j)); [by eexists|done].
    + apply Hst. eauto with frame.
    + apply Hst.
      etransitivity; [apply steady_set_timers|apply steady_http_retry_callback].
    + apply Hst.
      etransitivity; [apply steady_set_timers|apply steady_testConnection_callback].
  - destruct (requests s !! r) as [q|]; [|done].
    destruct (req_sleeping q); [done|]. injection Hstep as <-.
    apply Hst. eauto with frame.
  - case_bool_decide; [|done]. injection Hstep as <-. apply Hst.
    etransitivity; [apply steady_set_ports|apply steady_native_onDisconnect].
  - case_bool_decide; [|done]. injection Hstep as <-. apply Hst. reflexivity.
Qed.

Lemma counted_run P a0 c0 es : ∀ s s',
  reachable P s → counted a0 c0 s →
  Forall (λ e, refusing e = true) es → run es s = Some s' →
  counted a0 c0 s' ∧
  ∀ j, is_Some (attempts_of (heap s !! j)) → is_Some (attempts_of (heap s' !! j)).
Proof.
  induction es as [|e es IH]; intros s s' Hr K Hes Hrun; simpl in Hrun.
  - injection Hrun as <-. by split.
  - destruct (step e s) as [s1|] eqn:E; [|done].
    apply Forall_cons in Hes as [He Hes].
    destruct (counted_step a0 c0 e s s1 (reachable_wf _ _ Hr) K He E) as [K1 P1].
    destruct (IH s1 s' (reachable_step _ _ _ _ Hr E) K1 Hes Hrun) as [K2 P2].
    split; [done|]. intros j Hj. by apply P2, P1.
Qed.

(** ** What a reconfiguration leaves behind *)

(** [connect] keeps the kind and the endpoint of its instance. *)
Lemma Transport_connect_keeps i obj s :
  heap s !! i = Some obj →
  ∃ obj', heap (Transport_connect i s) !! i = Some obj' ∧
          kind_of obj' = kind_of obj ∧ endpoint_of obj' = endpoint_of obj.
Proof.
  intros Hi. unfold Transport_connect. rewrite Hi. destruct obj as [w|h|n].
  - unfold WebSocketTransport.connect, WebSocketTransport.scheduleReconnect,
      WebSocketTransport.this, WebSocketTransport.store.
    cbv zeta. simpl. rewrite Hi.
    destruct (WebSocket_accepts _ _); simpl.
    + rewrite lookup_insert_eq. by eexists.
    + rewrite ?Hi. destruct (reconnectTimeout w); [by exists (IWs w)|].
      destruct (_ <=? _)%nat; simpl; [by exists (IWs w)|].
      rewrite lookup_insert_eq. by eexists.
  - assert (heap (HttpTransport.connect i s) = heap s) as ->.
    { unfold HttpTransport.connect, HttpTransport.send, HttpTransport.loop.
      cbv zeta. repeat case_match; reflexivity. }
    by exists (IHttp h).
  - unfold NativeTransport.connect, NativeTransport.send,
      NativeTransport.this, NativeTransport.store.
    cbv zeta. simpl. rewrite Hi.
    destruct (connectNative_accepts _ _); simpl; [|by exists (INative n)].
    rewrite lookup_insert_eq. simpl. rewrite lookup_insert_eq.
    rewrite bool_decide_eq_true_2 by done. simpl. rewrite lookup_insert_eq.
    by eexists.
Qed.

(** [connectTransport] with a known kind leaves a new instance of that
    kind, built on the endpoint of that kind, in the slot. *)
Lemma connectTransport_installs s :
  known_type (settings s) = true →
  ∃ obj,
    transport (connectTransport s) = Some (nextId (disconnectTransport s)) ∧
    heap (connectTransport s) !! nextId (disconnectTransport s) = Some obj ∧
    settings s !! "transportType" = Some (JStr (kind_of obj)) ∧
    endpoint_of obj = selected_endpoint (settings s).
Proof.
  intros Hk.
  assert (∀ obj, ∃ obj',
            heap (install obj (disconnectTransport s))
              !! nextId (disconnectTransport s) = Some obj' ∧
            kind_of obj' = kind_of obj ∧ endpoint_of obj' = endpoint_of obj) as Hin.
  { intros obj. unfold install. cbv zeta.
    apply Transport_connect_keeps. simpl. apply lookup_insert_eq. }
  pose proof (connectTransport_known s Hk) as Ht.
  unfold connectTransport in *. cbv zeta in *.
  rewrite (proj1 (same_config_disconnectTransport s)) in *.
  unfold known_type in Hk. unfold selected_endpoint. cbv zeta.
  destruct (bool_decide (settings s !! "transportType" = Some (JStr "websocket")))
    eqn:E1.
  { apply bool_decide_eq_true in E1.
    destruct (Hin (IWs (WebSocketTransport.new (settings s !! "wsUrl"))))
      as (obj' & H1 & H2 & H3).
    exists obj'. rewrite H2, H3. by split_and!. }
  destruct (bool_decide (settings s !! "transportType" = Some (JStr "http")))
    eqn:E2.
  { apply bool_decide_eq_true in E2.
    destruct (Hin (IHttp (HttpTransport.new (settings s !! "httpUrl"))))
      as (obj' & H1 & H2 & H3).
    exists obj'. rewrite H2, H3. by split_and!. }
  destruct (bool_decide (settings s !! "transportType" = Some (JStr "native")))
    eqn:E3; [|done].
  apply bool_decide_eq_true in E3.
  destruct (Hin (INative (NativeTransport.new (settings s !! "nativeHost"))))
    as (obj' & H1 & H2 & H3).
  exists obj'. rewrite H2, H3. by split_and!.
Qed.

(** The outcome of the block that [updateSettings] runs on a change. *)
Lemma reconfigured n s :
  wf s →
  needsReconnect (settings s) n = true →
  let m := spread (settings s) n in
  let s2 := saveSettings (set_settings m s) in
  let s' := updateSettings n s in
  (truthy (m !! "enabled") = true → known_type m = true →
   ∃ j obj, transport s' = Some j ∧ heap s !! j = None ∧
            heap s' !! j = Some obj ∧
            m !! "transportType" = Some (JStr (kind_of obj)) ∧
            endpoint_of obj = selected_endpoint m) ∧
  (truthy (m !! "enabled") = false ∨ known_type m = false →
   transport s' = None ∧ connectionStatus s' = Disconnected) ∧
  (∀ i, transport s = Some i →
     ∃ l, effects_of (updateSettings n) s =
          StorageSet m :: effects_of (Transport_disconnect i) s2 ++
          Badge Disconnected :: l).
Proof.
  intros W Hn m s2 s'.
  assert (s' = teardown_and_reconnect s2) as Hs'
    by (by apply updateSettings_changed).
  assert (settings (disconnectTransport s2) = m) as Hset
    by (by rewrite (proj1 (same_config_disconnectTransport s2))).
  split_and!.
  - intros He Hk. rewrite Hs'. unfold teardown_and_reconnect. cbv zeta.
    rewrite Hset, He.
    destruct (connectTransport_installs (disconnectTransport s2))
      as (obj & Ht & Hh & Hkind & Hend); [by rewrite Hset|].
    rewrite Hset in Hkind, Hend.
    eexists _, obj. split_and!; [exact Ht| |exact Hh|exact Hkind|exact Hend].
    pose proof (grows_disconnectTransport s2) as G1.
    pose proof (grows_disconnectTransport (disconnectTransport s2)) as G2.
    unfold grows in G1, G2.
    destruct (heap s !! nextId (disconnectTransport (disconnectTransport s2)))
      as [x|] eqn:E; [|done].
    pose proof (wf_heap_fresh _ W _ _ E) as Hlt.
    change (nextId s2) with (nextId s) in G1. lia.
  - intros Hcase. rewrite Hs'. unfold teardown_and_reconnect. cbv zeta.
    rewrite Hset. destruct (truthy (m !! "enabled")) eqn:He.
    + destruct Hcase as [|Hk]; [done|].
      rewrite connectTransport_unknown by (by rewrite Hset).
      split; [apply transport_disconnectTransport|done].
    + split; [apply transport_disconnectTransport|done].
  - intros i Hi.
    assert (extends (disconnectTransport s2) s') as [l Hl].
    { rewrite Hs'. unfold teardown_and_reconnect. cbv zeta.
      destruct (truthy _); [apply extends_connectTransport|reflexivity]. }
    exists l. apply effects_of_app. fold s'. rewrite Hl.
    unfold disconnectTransport. cbv zeta.
    change (transport s2) with (transport s). rewrite Hi.
    change (trace (updateBadge Disconnected
                     (set_transport None (Transport_disconnect i s2))))
      with (trace (Transport_disconnect i s2) ++ [Badge Disconnected]).
    rewrite (extends_effects (Transport_disconnect i) s2)
      by apply extends_Transport_disconnect.
    change (trace s2) with (trace s ++ [StorageSet m]).
    rewrite <- !app_assoc. reflexivity.
Qed.





(** An open event resets the reconnection counter of the instance that
    owns the socket. *)
Lemma open_resets_counter P s k sock s' :
  reachable P s → sockets s !! k = Some sock →
  step (SocketOpen k) s = Some s' →
  ∃ w, heap s' !! sock_owner sock = Some (IWs w) ∧ reconnectAttempts w = 0%nat.
Proof.
  intros Hr Hk Hstep. simpl in Hstep. rewrite Hk in Hstep.
  case_bool_decide as Hc; [|done]. injection Hstep as <-.
  apply reachable_sock_ok in Hr.
  destruct (sk_current _ Hr k sock Hk) as (t & a & Hv); [rewrite Hc; simpl; lia|].
  destruct (heap s !! sock_owner sock) as [[w0|h|n]|] eqn:Hw; try discriminate Hv.
  injection Hv as Hws _ _.
  set (i := sock_owner sock) in *.
  set (s1 := set_sockets (<[k := {| readyState := OPEN; sock_owner := i |}]>
                            (sockets s)) s).
  assert (set_readyState k OPEN s = s1) as Hs1
    by (unfold set_readyState; by rewrite Hk).
  set (s3 := emit (WsSend k (MsgConnected VERSION))
               (WebSocketTransport.store i
                  (WebSocketTransport.with_reconnectAttempts 0 w0)
                  (updateBadge Connected s1))).
  assert (WebSocketTransport.onopen i (set_readyState k OPEN s) =
          WebSocketTransport.startHeartbeat i s3) as Hopen.
  { rewrite Hs1.
    unfold WebSocketTransport.onopen, WebSocketTransport.send,
      WebSocketTransport.this, WebSocketTransport.store.
    cbv zeta. simpl. rewrite Hw. simpl.
    rewrite lookup_insert_eq. simpl. rewrite Hws. rewrite lookup_insert_eq. simpl.
    reflexivity. }
  assert (heap s3 !! i =
          Some (IWs (WebSocketTransport.with_reconnectAttempts 0 w0))) as H3
    by (unfold s3; simpl; apply lookup_insert_eq).
  destruct (startHeartbeat_result i _ s3 H3) as (_ & _ & Hh & _).
  rewrite Hopen. eexists. split; [exact Hh|reflexivity].
Qed.

(** C1 (as amended). The cap counts reconnections, not connect cycles.
    The counter of an instance never exceeds 3, a reconnect timer is
    pending only while it is below 3, at 3 [scheduleReconnect] sets no
    timer and only publishes Disconnected, and an instance never has two
    reconnect timers pending.  While no connection opens and nobody
    reconfigures or tests, each Connecting that is published is a
    reconnection that raises the counter by one: a worker that has just
    started publishes Connecting at most four times (the initial connect
    and three reconnections), and after the fourth no reconnect timer is
    pending; after a state with one WebSocket instance at most as many
    more as the counter lacks to 3.  Against an endpoint that refuses
    every connection the published statuses hold Connecting exactly
    four times; after the fourth failure no event of the worker itself
    can occur, until "Test Connection" makes the manager connect a new
    instance.  An open event sets the counter of its instance back to
    0; after a connection that had opened is lost, the third failed
    reconnection is the last. *)
Theorem C1_three_reconnections_then_stop :
  (∀ P s i w, reachable P s → heap s !! i = Some (IWs w) →
     (reconnectAttempts w ≤ 3)%nat ∧
     (is_Some (reconnectTimeout w) → (reconnectAttempts w < 3)%nat) ∧
     (reconnectTimeout w = None → (3 ≤ reconnectAttempts w)%nat →
      WebSocketTransport.scheduleReconnect i s = updateBadge Disconnected s ∧
      timers (WebSocketTransport.scheduleReconnect i s) = timers s) ∧
     (is_Some (reconnectTimeout w) →
      WebSocketTransport.scheduleReconnect i s = s) ∧
     (∀ t1 t2, timers s !! t1 = Some (TReconnect i) →
               timers s !! t2 = Some (TReconnect i) → t1 = t2)) ∧
  (∀ P r es s,
     Forall (λ e, refusing e = true) es →
     run (LoadSettings r :: es) (init P) = Some s →
     (count_status Connecting (published s) ≤ 4)%nat ∧
     (∀ i w, heap s !! i = Some (IWs w) →
        count_status Connecting (published s) = S (reconnectAttempts w)) ∧
     (count_status Connecting (published s) = 4%nat →
      ∀ t i, timers s !! t ≠ Some (TReconnect i))) ∧
  (∀ P s0 es s i w0,
     reachable P s0 → single_ws s0 → heap s0 !! i = Some (IWs w0) →
     Forall (λ e, refusing e = true) es →
     run es s0 = Some s →
     ∃ w, heap s !! i = Some (IWs w) ∧
          (count_status Connecting (published s) + reconnectAttempts w0 =
           count_status Connecting (published s0) + reconnectAttempts w)%nat ∧
          (reconnectAttempts w ≤ 3)%nat ∧
          (reconnectAttempts w = 3%nat →
           ∀ t, timers s !! t ≠ Some (TReconnect i))) ∧
  (∀ P s k sock s',
     reachable P s → sockets s !! k = Some sock →
     step (SocketOpen k) s = Some s' →
     ∃ w, heap s' !! sock_owner sock = Some (IWs w) ∧
          reconnectAttempts w = 0%nat) ∧
  (∃ s, run refused_forever (init browser) = Some s ∧
     published s =
       [Disconnected;
        Connecting; Disconnected; Disconnected;
        Connecting; Disconnected; Disconnected;
        Connecting; Disconnected; Disconnected;
        Connecting; Disconnected; Disconnected; Disconnected] ∧
     count_status Connecting (published s) = 4%nat ∧
     connectionStatus s = Disconnected ∧
     timers s = ∅ ∧
     (∀ e, external e = false → step e s = None) ∧
     option_map (λ s', (transport s', connectionStatus s',
                        count_status Connecting (published s')))
       (step OnTestConnection s) = Some (Some 9%nat, Connecting, 5%nat)) ∧
  (∃ s, run lost_then_refused (init browser) = Some s ∧
     published s =
       [Disconnected; Connecting; Connected; Disconnected;
        Connecting; Disconnected; Disconnected;
        Connecting; Disconnected; Disconnected;
        Connecting; Disconnected; Disconnected; Disconnected] ∧
     connectionStatus s = Disconnected ∧
     timers s = ∅).
Proof.
  assert (∀ P s t i w, reachable P s → heap s !! i = Some (IWs w) →
            (3 ≤ reconnectAttempts w)%nat →
            timers s !! t ≠ Some (TReconnect i)) as Hstop.
  { intros P s t i w Hr Hi Ha Ht. apply reachable_wf in Hr.
    destruct (wf_reconnect _ Hr _ _ Ht) as (w' & Hw' & Hrt).
    rewrite Hi in Hw'. injection Hw' as <-.
    destruct (wf_ws _ Hr _ _ Hi) as (_ & _ & _ & Hlt).
    assert (reconnectAttempts w < 3)%nat by (apply Hlt; by eexists). lia. }
  split_and!.
  - intros P s i w Hr Hi. apply reachable_wf in Hr.
    destruct (wf_ws _ Hr _ _ Hi) as (Hmax & _ & Hle & Hlt).
    split_and!; try done.
    + intros Ht Ha.
      rewrite (scheduleReconnect_exhausted i w s Hi Ht) by lia. done.
    + intros [t Ht]. by apply (scheduleReconnect_pending i w t).
    + intros t1 t2. by apply reconnect_timer_unique.
  - intros P r es s Hes Hrun. simpl in Hrun.
    assert (reachable P (loadSettings r (init P))) as Hr0
      by (apply (reachable_step P (init P) (LoadSettings r));
          [apply reachable_init|reflexivity]).
    pose proof (run_reachable P es _ _ Hr0 Hrun) as Hr.
    destruct (counted_run P 0 1 es _ _ Hr0 (counted_start P r) Hes Hrun)
      as [(K1 & K2 & K3) _].
    fold (connecting s).
    assert (∀ i w, heap s !! i = Some (IWs w) →
                   connecting s = S (reconnectAttempts w)) as Heq.
    { intros i w Hi. specialize (K1 i (reconnectAttempts w)).
      rewrite Hi in K1. specialize (K1 eq_refl). lia. }
    assert (∀ i w, heap s !! i = Some (IWs w) → (reconnectAttempts w ≤ 3)%nat)
      as Hle.
    { intros i w Hi. by destruct (wf_ws _ (reachable_wf _ _ Hr) _ _ Hi) as (_ & _ & ? & _). }
    split_and!.
    + destruct (decide (Exists (λ kv, is_Some (attempts_of (Some kv.2)))
                               (map_to_list (heap s))))
        as [Hex|Hno].
      * apply Exists_exists in Hex as ([i obj] & Hin & a & Hi).
        apply elem_of_map_to_list in Hin. simpl in Hi.
        destruct obj as [w|h|n]; try discriminate Hi.
        rewrite (Heq i w Hin). pose proof (Hle i w Hin). lia.
      * assert (connecting s + 0 ≤ 1)%nat; [|lia]. apply K3. intros i.
        destruct (heap s !! i) as [obj|] eqn:E; [|done].
        destruct (attempts_of (Some obj)) eqn:E'; [|done].
        destruct Hno. apply Exists_exists. exists (i, obj).
        split; [by apply elem_of_map_to_list|]. simpl. by eexists.
    + exact Heq.
    + intros H4 t i Ht.
      destruct (wf_reconnect _ (reachable_wf _ _ Hr) _ _ Ht) as (w & Hw & _).
      apply (Hstop P s t i w Hr Hw); [|done].
      pose proof (Heq i w Hw). lia.
  - intros P s0 es s i w0 Hr0 Hone Hi0 Hes Hrun.
    pose proof (run_reachable P es _ _ Hr0 Hrun) as Hr.
    assert (attempts_of (heap s0 !! i) = Some (reconnectAttempts w0)) as Ha0
      by (by rewrite Hi0).
    assert (counted (reconnectAttempts w0) (connecting s0) s0) as K0.
    { split_and!; [|done|].
      - intros j a Hj. rewrite (Hone j i _ _ Hj Ha0) in Hj.
        rewrite Ha0 in Hj. injection Hj as <-. lia.
      - intros Hn. by rewrite Hn in Ha0. }
    destruct (counted_run P _ _ es _ _ Hr0 K0 Hes Hrun) as [(K1 & _ & _) Hp].
    destruct (Hp i) as [a Ha]; [by eexists|].
    destruct (heap s !! i) as [[w|h|n]|] eqn:E; try discriminate Ha.
    exists w. fold (connecting s) (connecting s0).
    split_and!; [done| | |].
    + apply (K1 i). by rewrite E.
    + by destruct (wf_ws _ (reachable_wf _ _ Hr) _ _ E) as (_ & _ & ? & _).
    + intros H3 t. apply (Hstop P s t i w Hr E). lia.
  - apply open_resets_counter.
  - eexists. split; [vm_compute; reflexivity|].
    do 4 (split; [vm_compute; reflexivity|]).
    split; [|vm_compute; reflexivity].
    apply quiescent; [vm_compute; reflexivity ..|].
    apply map_Forall_to_list. vm_compute. repeat constructor.
  - eexists. split; [vm_compute; reflexivity|].
    split_and!; vm_compute; reflexivity.
Qed.

Lemma C1_three_reconnections_witness :
  let s := default (init browser) (run refused_forever (init browser)) in
  WebSocketTransport.scheduleReconnect 1 s = updateBadge Disconnected s.
Proof.
  intros s.
  assert (reachable browser s) as Hr
    by (apply (run_reachable browser refused_forever (init browser));
        [apply reachable_init | vm_compute; reflexivity]).
  pose (w := {| ws_url := Some (JStr "ws://localhost:8767");
                ws_ws := Some 8%nat; reconnectAttempts := 3;
                maxReconnectAttempts := 3; maxReconnectDelay := 30000;
                heartbeatInterval := None; reconnectTimeout := None |}).
  assert (heap s !! 1%nat = Some (IWs w)) as Hi by (vm_compute; reflexivity).
  destruct (proj1 C1_three_reconnections_then_stop browser s 1%nat w Hr Hi)
    as (_ & _ & Hstop & _).
  exact (proj1 (Hstop eq_refl (le_n 3))).
Defined.

(** * Properties of the settings page *)

Section OptionsPageProperties.

Import OptionsPage.

Variable trim : string → string.

Lemma read_form_settings f st :
  OptionsPage.settings (read_form trim f st) =
  <["nativeHost" := JStr (trim (nativeHostEl f))]>
    (<["httpUrl" := JStr (trim (httpUrlEl f))]>
       (<["wsUrl" := JStr (trim (wsUrlEl f))]>
          (<["transportType" := JStr (transportTypeEl f)]>
             (<["enabled" := JBool (enabledEl f)]> (OptionsPage.settings st))))).
Proof. reflexivity. Qed.

Lemma read_form_checked f st :
  complaint trim f = None →
  endpoint_checked (OptionsPage.settings (read_form trim f st)).
Proof.
  unfold complaint, endpoint_checked. rewrite read_form_settings.
  rewrite lookup_insert_ne by done. rewrite lookup_insert_ne by done.
  rewrite lookup_insert_ne by done. rewrite lookup_insert_eq.
  destruct (String.eqb (transportTypeEl f) "websocket").
  { destruct (String.prefix "ws://" _) eqn:E1, (String.prefix "wss://" _) eqn:E2;
      simpl; try done; intros _; eexists;
      (split; [by rewrite lookup_insert_ne, lookup_insert_ne, lookup_insert_eq|]);
      by rewrite E1, E2. }
  destruct (String.eqb (transportTypeEl f) "http").
  { destruct (String.prefix "http://" _) eqn:E1, (String.prefix "https://" _) eqn:E2;
      simpl; try done; intros _; eexists;
      (split; [by rewrite lookup_insert_ne, lookup_insert_eq|]);
      by rewrite E1, E2. }
  destruct (String.eqb (transportTypeEl f) "native"); [|done].
  destruct (String.eqb_spec (trim (nativeHostEl f)) EmptyString); [done|].
  intros _. eexists. split; [by rewrite lookup_insert_eq|done].
Qed.

(** X10. [handleSave] first copies the form into the page's settings
    and only then validates.  When the endpoint of the selected
    transport fails the test, it shows one alert and neither stores nor
    sends anything, but the settings keep the rejected values.  When
    the test passes, it stores an object with the five values of the
    form and a checked endpoint, and sends the same object to the
    worker if the storage answers before any other handler runs. *)
Theorem X10_handleSave_validates_after_copying
    (f : Form) (st : OptionsPage.State) :
  let m := OptionsPage.settings (read_form trim f st) in
  OptionsPage.settings (handleSave trim f st) = m ∧
  (∀ msg, complaint trim f = Some msg →
     log (handleSave trim f st) = log st ++ [Alert msg] ∧
     awaiting_storage (handleSave trim f st) = awaiting_storage st) ∧
  (complaint trim f = None →
   endpoint_checked m ∧
   log (handleSave trim f st) = log st ++ [StorageSet m] ∧
   ∃ st', saveSettings_stored true (handleSave trim f st) = Some st' ∧
          log st' = log st ++ [StorageSet m; SendUpdateSettings m]).
Proof.
  intros m. unfold handleSave. cbv zeta. fold m.
  destruct (complaint trim f) as [msg|] eqn:Hc.
  - split_and!; [done| |done]. by intros ? [= <-].
  - split_and!; [done|done|]. intros _.
    split; [by apply read_form_checked|]. split; [done|].
    eexists. split; [reflexivity|]. simpl. by rewrite <- app_assoc.
Qed.

(** X11. The validation of [handleSave] can be bypassed: after a save
    that was rejected, toggling the "enabled" checkbox stores and sends
    the settings with the rejected values, because
    [handleEnabledChange] saves without validating. *)
Theorem X11_rejected_values_are_sent_on_toggle
    (f g : Form) (msg : string) (st : OptionsPage.State) :
  complaint trim f = Some msg →
  let m := <["enabled" := JBool (enabledEl g)]>
             (OptionsPage.settings (read_form trim f st)) in
  (∃ st', OptionsPage.run trim
            [SaveClicked f; EnabledChanged g; StorageAnswered true] st = Some st' ∧
          log st' = log st ++ [Alert msg; StorageSet m; SendUpdateSettings m]) ∧
  m !! "transportType" = Some (JStr (transportTypeEl f)) ∧
  m !! "wsUrl" = Some (JStr (trim (wsUrlEl f))) ∧
  m !! "httpUrl" = Some (JStr (trim (httpUrlEl f))) ∧
  m !! "nativeHost" = Some (JStr (trim (nativeHostEl f))).
Proof.
  intros Hc m. split_and!.
  - simpl. unfold handleSave. cbv zeta. rewrite Hc.
    eexists. split; [reflexivity|]. simpl. by rewrite <- !app_assoc.
  - unfold m. by rewrite read_form_settings; repeat (rewrite lookup_insert_ne by done);
      rewrite lookup_insert_eq.
  - unfold m. by rewrite read_form_settings; repeat (rewrite lookup_insert_ne by done);
      rewrite lookup_insert_eq.
  - unfold m. by rewrite read_form_settings; repeat (rewrite lookup_insert_ne by done);
      rewrite lookup_insert_eq.
  - unfold m. by rewrite read_form_settings; repeat (rewrite lookup_insert_ne by done);
      rewrite lookup_insert_eq.
Qed.

(** X12. [saveSettings] reads the [settings] variable again after it
    has awaited the storage.  If the transport selection changes while
    a validated save waits for the storage, the worker is sent an
    object that was neither validated nor stored. *)
Theorem X12_message_may_differ_from_what_was_stored
    (f g : Form) (st : OptionsPage.State) :
  complaint trim f = None →
  let m := OptionsPage.settings (read_form trim f st) in
  ∃ st', OptionsPage.run trim
           [SaveClicked f; TransportTypeChanged g; StorageAnswered true] st
         = Some st' ∧
         log st' = log st ++
           [StorageSet m;
            SendUpdateSettings (<["transportType" := JStr (transportTypeEl g)]> m)].
Proof.
  intros Hc m. simpl. unfold handleSave. cbv zeta. rewrite Hc.
  eexists. split; [reflexivity|]. simpl. by rewrite <- !app_assoc.
Qed.

Lemma has_compared_fields_insert k v m :
  has_compared_fields m → has_compared_fields (<[k := v]> m).
Proof.
  unfold has_compared_fields. intros H. eapply Forall_impl; [exact H|].
  cbv beta. intros k' Hk'. destruct (decide (k = k')) as [->|].
  - rewrite lookup_insert_eq. by eexists.
  - by rewrite lookup_insert_ne.
Qed.

Lemma page_complete_emit e st :
  (∀ v, e = SendUpdateSettings v → has_compared_fields v) →
  page_complete st → page_complete (OptionsPage.emit e st).
Proof.
  intros He [Hs Hl]. split; [done|]. intros v. simpl.
  rewrite elem_of_app.
  intros [Hin|Hin%list_elem_of_singleton]; eauto.
Qed.

Lemma page_complete_step e st st' :
  page_complete st → OptionsPage.step trim e st = Some st' → page_complete st'.
Proof.
  intros HP. pose proof HP as [Hs Hl].
  destruct e as [result|f|f|f|ok|ok]; simpl.
  - intros [= <-]. split; [by apply has_compared_fields_spread|done].
  - intros [= <-]. unfold handleEnabledChange.
    assert (page_complete (assign "enabled" (JBool (enabledEl f)) st)) as H1
      by (split; [by apply has_compared_fields_insert|done]).
    eapply (page_complete_emit (StorageSet _)) in H1; [|done].
    destruct H1 as [H1 H2]. split; [exact H1|exact H2].
  - intros [= <-]. split; [by apply has_compared_fields_insert|done].
  - intros [= <-]. unfold handleSave. cbv zeta.
    assert (page_complete (read_form trim f st)) as H1.
    { split; [|done]. rewrite read_form_settings.
      by repeat apply has_compared_fields_insert. }
    destruct (complaint trim f).
    + by apply page_complete_emit.
    + eapply (page_complete_emit (StorageSet _)) in H1; [|done].
      destruct H1 as [H1 H2]. split; [exact H1|exact H2].
  - unfold saveSettings_stored. destruct (awaiting_storage st); [done|].
    destruct ok; intros [= <-]; [|by split].
    assert (page_complete
              {| OptionsPage.settings := OptionsPage.settings st; log := log st;
                 awaiting_storage := n; awaiting_reply := awaiting_reply st |}) as H1
      by (by split).
    apply (page_complete_emit (SendUpdateSettings (OptionsPage.settings st))) in H1.
    + destruct H1. by split.
    + by intros ? [= <-].
  - unfold saveSettings_replied. destruct (awaiting_reply st); [done|].
    destruct ok; intros [= <-]; [|by split].
    apply page_complete_emit; [done|by split].
Qed.

(** X13. Every settings object that the page sends to the worker, in
    any sequence of loads, toggles, type changes, saves and answers,
    carries all five properties that the worker's [updateSettings]
    compares, so for a message of this page the worker reconnects
    exactly when one of the five values differs from its own. *)
Theorem X13_page_sends_complete_settings
    (es : list OptionsPage.event) (st : OptionsPage.State)
    (v : gmap string jsval) :
  OptionsPage.run trim es OptionsPage.init = Some st →
  SendUpdateSettings v ∈ log st →
  has_compared_fields v ∧
  ∀ old, needsReconnect old v = false ↔
         Forall (λ k, v !! k = old !! k) compared_fields.
Proof.
  intros Hrun Hin.
  assert (has_compared_fields v) as Hv.
  { assert (page_complete OptionsPage.init) as H0.
    { split.
      - unfold has_compared_fields, compared_fields.
        repeat (constructor; [eexists; reflexivity|]). constructor.
      - intros v'. simpl. by rewrite elem_of_nil. }
    revert Hrun H0. generalize OptionsPage.init.
    induction es as [|e es IH]; intros st0; simpl.
    - intros [= <-] [_ Hl]. by apply Hl.
    - destruct (OptionsPage.step trim e st0) as [st1|] eqn:E; [|done].
      intros Hrun H0. apply (IH st1 Hrun). by eapply page_complete_step. }
  split; [done|]. intros old. by apply needsReconnect_false.
Qed.

End OptionsPageProperties.

Lemma X10_handleSave_witness :
  let f := {| OptionsPage.enabledEl := true;
              OptionsPage.transportTypeEl := "websocket";
              OptionsPage.wsUrlEl := "localhost:8767";
              OptionsPage.httpUrlEl := EmptyString;
              OptionsPage.nativeHostEl := EmptyString |} in
  OptionsPage.log (OptionsPage.handleSave id f OptionsPage.init) =
  [OptionsPage.Alert "WebSocket URL must start with ws:// or wss://"].
Proof.
  intros f.
  apply (X10_handleSave_validates_after_copying id f OptionsPage.init).
  reflexivity.
Defined.

Lemma X11_rejected_values_witness :
  let f := {| OptionsPage.enabledEl := true;
              OptionsPage.transportTypeEl := "http";
              OptionsPage.wsUrlEl := "ws://localhost:8767";
              OptionsPage.httpUrlEl := "localhost";
              OptionsPage.nativeHostEl := EmptyString |} in
  <["enabled" := JBool false]>
    (OptionsPage.settings (OptionsPage.read_form id f OptionsPage.init))
  !! "httpUrl" = Some (JStr "localhost").
Proof.
  intros f.
  pose (g := {| OptionsPage.enabledEl := false;
                OptionsPage.transportTypeEl := "http";
                OptionsPage.wsUrlEl := "ws://localhost:8767";
                OptionsPage.httpUrlEl := "localhost";
                OptionsPage.nativeHostEl := EmptyString |}).
  exact (proj1 (proj2 (proj2 (proj2
    (X11_rejected_values_are_sent_on_toggle id f g
       "HTTP URL must start with http:// or https://" OptionsPage.init eq_refl))))).
Defined.

Lemma X12_message_may_differ_witness :
  let f := {| OptionsPage.enabledEl := true;
              OptionsPage.transportTypeEl := "websocket";
              OptionsPage.wsUrlEl := "ws://localhost:8767";
              OptionsPage.httpUrlEl := "localhost";
              OptionsPage.nativeHostEl := EmptyString |} in
  let g := {| OptionsPage.enabledEl := true;
              OptionsPage.transportTypeEl := "http";
              OptionsPage.wsUrlEl := "ws://localhost:8767";
              OptionsPage.httpUrlEl := "localhost";
              OptionsPage.nativeHostEl := EmptyString |} in
  ∃ st', OptionsPage.run id
           [OptionsPage.SaveClicked f; OptionsPage.TransportTypeChanged g;
            OptionsPage.StorageAnswered true] OptionsPage.init = Some st' ∧
         OptionsPage.log st' =
           [OptionsPage.StorageSet
              (OptionsPage.settings (OptionsPage.read_form id f OptionsPage.init));
            OptionsPage.SendUpdateSettings
              (<["transportType" := JStr "http"]>
                 (OptionsPage.settings (OptionsPage.read_form id f OptionsPage.init)))].
Proof.
  intros f g.
  exact (X12_message_may_differ_from_what_was_stored id f g OptionsPage.init eq_refl).
Defined.

Lemma X13_page_sends_witness :
  has_compared_fields
    (<["enabled" := JBool false]> OptionsPage.default_settings).
Proof.
  pose (g := {| OptionsPage.enabledEl := false;
                OptionsPage.transportTypeEl := "websocket";
                OptionsPage.wsUrlEl := EmptyString;
                OptionsPage.httpUrlEl := EmptyString;
                OptionsPage.nativeHostEl := EmptyString |}).
  eapply (X13_page_sends_complete_settings id
           [OptionsPage.EnabledChanged g; OptionsPage.StorageAnswered true]).
  - reflexivity.
  - simpl. rewrite !elem_of_cons. right. left. reflexivity.
Defined.

(** ** The worker and the settings page *)

Lemma storage_get_lookup defaults stored k :
  storage_get defaults stored !! k =
  (λ d, default d (stored !! k)) <$> defaults !! k.
Proof.
  unfold storage_get. rewrite map_lookup_imap.
  by destruct (defaults !! k).
Qed.

Lemma spread_storage_get defaults stored k :
  spread defaults (storage_get defaults stored) !! k =
  (λ d, default d (stored !! k)) <$> defaults !! k.
Proof.
  unfold spread. rewrite lookup_union, storage_get_lookup.
  by destruct (defaults !! k).
Qed.

Lemma settings_loadSettings r s :
  settings (loadSettings r s) = spread (settings s) r.
Proof.
  unfold loadSettings. cbv zeta. destruct (truthy _); [|done].
  by destruct (same_config_connectTransport
                 (set_settings (spread (settings s) r) s)) as [-> _].
Qed.

(** X17. The worker and the settings page start from different default
    WebSocket URLs (port 8767 and port 8765).  As long as no [wsUrl] is
    stored, the page holds another URL than the worker and agrees with
    it on everything else, so whatever the page then sends without an
    edit of the URL makes the worker drop its connection and connect to
    port 8765. *)
Theorem X17_page_and_worker_disagree_on_default_wsUrl
    (stored : gmap string jsval) (s : State) :
  settings s = default_settings →
  stored !! "wsUrl" = None →
  let worker := settings (loadSettings (storage_get (settings s) stored) s) in
  let page :=
    OptionsPage.settings
      (OptionsPage.loadSettings
         (storage_get OptionsPage.default_settings stored) OptionsPage.init) in
  worker !! "wsUrl" = Some (JStr "ws://localhost:8767") ∧
  page !! "wsUrl" = Some (JStr "ws://localhost:8765") ∧
  (∀ k, k ≠ "wsUrl" → page !! k = worker !! k) ∧
  needsReconnect worker page = true.
Proof.
  intros Hs Hst worker page.
  assert (∀ k, worker !! k =
               (λ d, default d (stored !! k)) <$> default_settings !! k) as Hw.
  { intros k. unfold worker. rewrite settings_loadSettings, Hs.
    apply spread_storage_get. }
  assert (∀ k, page !! k =
               (λ d, default d (stored !! k)) <$> OptionsPage.default_settings !! k)
    as Hp by (intros k; apply spread_storage_get).
  assert (worker !! "wsUrl" = Some (JStr "ws://localhost:8767")) as Hw1
    by (rewrite Hw, Hst; reflexivity).
  assert (page !! "wsUrl" = Some (JStr "ws://localhost:8765")) as Hp1
    by (rewrite Hp, Hst; reflexivity).
  split_and!; [done|done| |].
  - intros k Hk. rewrite Hw, Hp. f_equal.
    unfold default_settings, OptionsPage.default_settings.
    destruct (decide (k = "enabled")) as [->|]; [done|].
    destruct (decide (k = "transportType")) as [->|]; [done|].
    destruct (decide (k = "httpUrl")) as [->|]; [done|].
    destruct (decide (k = "nativeHost")) as [->|]; [done|].
    by repeat (rewrite lookup_insert_ne by done).
  - unfold needsReconnect. rewrite Hw1, Hp1.
    assert (strict_ne (Some (JStr "ws://localhost:8767"))
                      (Some (JStr "ws://localhost:8765")) = true) as -> by reflexivity.
    by rewrite !orb_true_r.
Qed.

Lemma X17_page_and_worker_witness :
  needsReconnect
    (settings (loadSettings (storage_get (settings (init browser)) ∅) (init browser)))
    (OptionsPage.settings
       (OptionsPage.loadSettings
          (storage_get OptionsPage.default_settings ∅) OptionsPage.init)) = true.
Proof.
  apply (X17_page_and_worker_disagree_on_default_wsUrl ∅ (init browser));
    reflexivity.
Defined.

(** ** The HTTP transport: witnesses *)

Lemma http_attempts_bounded_witness :
  let s := default (init browser)
             (run [LoadSettings {["transportType" := JStr "http"]};
                   FetchSettled 2 ResponseNotOk; FetchSettled 2 ResponseNotOk;
                   FetchSettled 2 ResponseNotOk] (init browser)) in
  (fetches_of 2 (trace s) ≤ 3)%nat.
Proof.
  intros s. apply (http_attempts_bounded browser).
  apply (run_reachable browser
           [LoadSettings {["transportType" := JStr "http"]};
            FetchSettled 2 ResponseNotOk; FetchSettled 2 ResponseNotOk;
            FetchSettled 2 ResponseNotOk] (init browser));
    [apply reachable_init | vm_compute; reflexivity].
Defined.

Lemma http_rejected_backoff_witness :
  let s := default (init browser)
             (run [LoadSettings {["transportType" := JStr "http"]}] (init browser)) in
  effects_of (HttpTransport.resume 2 FetchRejected) s = [SetTimeout 3 1000].
Proof.
  intros s.
  assert (reachable browser s) as Hr
    by (apply (run_reachable browser
                 [LoadSettings {["transportType" := JStr "http"]}] (init browser));
        [apply reachable_init | vm_compute; reflexivity]).
  pose (q := {| req_this := 1; req_msg := MsgConnected VERSION;
                req_attempt := 0; req_sleeping := false |}).
  assert (requests s !! 2%nat = Some q) as Hq by (vm_compute; reflexivity).
  exact (proj1 (proj1 (http_rejected_backoff browser s 2 q Hr Hq eq_refl)
                  ltac:(simpl; lia))).
Defined.

(** * Properties of the content script *)

Section ContentScriptProperties.

Import ContentScript.

Variable trim : string → string.
Variable parseInt10 : string → option Z.
Context {VideoContext : Type}.
Variable floor_ms : VideoContext → Z.
Variable double_add : Z → Z → Z.

#[local] Abbreviation handle :=
  (handleSubtitleChange trim parseInt10 floor_ms double_add).
#[local] Abbreviation observe :=
  (ContentScript.observe trim parseInt10 floor_ms double_add).

Lemma append_empty (a b : string) :
  (a ++ b)%string = EmptyString → a = EmptyString ∧ b = EmptyString.
Proof. destruct a; [done|discriminate]. Qed.

(** [join] gives the empty string only for no element or for a single
    empty one. *)
Lemma concat_newline_empty (l : list string) :
  String.concat newline l = EmptyString ↔ l = [] ∨ l = [EmptyString].
Proof.
  split.
  - destruct l as [|x [|y l]]; simpl.
    + by left.
    + intros ->. by right.
    + intros H. apply append_empty in H as [_ H]. discriminate H.
  - intros [-> | ->]; reflexivity.
Qed.

Lemma handle_sends m st st' msg :
  handle m st = (st', Some msg) →
  ∃ spans, mut_container m = Some spans ∧
    msg_text msg = joined (map (line_of trim parseInt10) spans) ∧
    msg_lines msg = map (line_of trim parseInt10) spans ∧
    msg_text msg ≠ EmptyString ∧
    msg_text msg ≠ currentSubtitle st ∧
    lastSentTime st + DEBOUNCE_MS ≤ mut_now m ∧
    currentSubtitle st' = msg_text msg ∧
    lastSentTime st' = mut_now m.
Proof.
  unfold handleSubtitleChange. destruct (mut_container m) as [spans|]; [|done].
  cbv zeta.
  destruct (String.eqb_spec (joined (map (line_of trim parseInt10) spans))
              (currentSubtitle st)) as [|Hne]; [done|].
  destruct (Z.ltb_spec (mut_now m - lastSentTime st) DEBOUNCE_MS); [done|].
  simpl.
  destruct (String.eqb_spec (joined (map (line_of trim parseInt10) spans))
              EmptyString) as [|Hne0]; [done|].
  simpl. intros [= <- <-]. exists spans. simpl. split_and!; try done. lia.
Qed.

Lemma handle_time m st st' out :
  handle m st = (st', out) →
  lastSentTime st ≤ lastSentTime st' ∧
  (is_Some out → lastSentTime st' = mut_now m ∧
                 lastSentTime st + DEBOUNCE_MS ≤ mut_now m).
Proof.
  destruct out as [msg|].
  - intros H.
    destruct (handle_sends _ _ _ _ H) as (_ & _ & _ & _ & _ & _ & Hgap & _ & Hlast).
    unfold DEBOUNCE_MS in *. split; [lia|]. intros _. split; [done|lia].
  - unfold handleSubtitleChange. destruct (mut_container m) as [spans|].
    + cbv zeta.
      destruct (String.eqb _ (currentSubtitle st)); simpl.
      { intros [= <-]. split; [lia|]. by intros [? ?]. }
      destruct (Z.ltb_spec (mut_now m - lastSentTime st) DEBOUNCE_MS).
      { intros [= <-]. split; [lia|]. by intros [? ?]. }
      unfold DEBOUNCE_MS in *.
      destruct (negb _); [done|]. intros [= <-]. simpl. split; [lia|].
      by intros [? ?].
    + intros [= <-]. split; [lia|]. by intros [? ?].
Qed.

Lemma observe_spaced ms : ∀ st st' out,
  observe ms st = (st', out) →
  lastSentTime st ≤ lastSentTime st' ∧
  spaced DEBOUNCE_MS out ∧
  (∀ t msg, (t, msg) ∈ out → lastSentTime st + DEBOUNCE_MS ≤ t ∧
                              msg_text msg ≠ EmptyString).
Proof.
  induction ms as [|m ms IH]; intros st st' out; simpl.
  - intros [= <- <-]. split_and!; [lia|done|]. intros t msg H.
    by apply elem_of_nil in H.
  - destruct (handle m st) as [st1 o] eqn:Hm.
    destruct (observe ms st1) as [st2 rest] eqn:Hrest.
    intros [= <- <-].
    destruct (handle_time _ _ _ _ Hm) as (Hle1 & Hsent).
    destruct (IH _ _ _ Hrest) as (Hle2 & Hsp & Hall).
    destruct o as [msg|].
    + destruct (Hsent (mk_is_Some _ _ eq_refl)) as (Hnow & Hgap).
      destruct (handle_sends _ _ _ _ Hm) as (spans & _ & _ & _ & Hne & _ & _ & _ & _).
      split_and!; [lia| |].
      * simpl. split; [|done].
        destruct rest as [|[t2 msg2] rest']; [done|].
        destruct (Hall t2 msg2) as (H2 & _); [apply elem_of_cons; by left|]. lia.
      * intros t msg' Hin. apply elem_of_cons in Hin as [[= -> ->]|Hin].
        { split; [lia|done]. }
        destruct (Hall _ _ Hin) as (? & ?). split; [lia|done].
    + split_and!; [lia|done|].
      intros t msg' Hin. destruct (Hall _ _ Hin) as (? & ?).
      split; [lia|done].
Qed.

(** X8. Whatever the page does, the messages the content script sends
    are at least [DEBOUNCE_MS] = 50 ms apart by the clock readings of
    the callbacks that send them (the first one at least 50 ms after
    time 0), and none carries an empty text. *)
Theorem X8_messages_are_debounced (ms : list (@Mutation VideoContext)) :
  let out := snd (observe ms (ContentScript.init)) in
  spaced 50 out ∧
  ∀ t msg, (t, msg) ∈ out → 50 ≤ t ∧ msg_text msg ≠ EmptyString.
Proof.
  intros out. subst out.
  destruct (observe ms ContentScript.init) as [st' out] eqn:H.
  destruct (observe_spaced ms _ _ _ H) as (_ & Hsp & Hall).
  split; [exact Hsp|]. intros t msg Hin.
  destruct (Hall t msg Hin) as (Ht & ?). simpl in Ht.
  unfold DEBOUNCE_MS in Ht. split; [lia|done].
Qed.

(** X9. A change is handed to the worker exactly when a container was
    found, the joined text differs from the last accepted one, at least
    50 ms have passed since the last accepted change, and the text is
    not empty.  The text is empty only for a container without spans or
    with a single span whose trimmed text is empty, so a container with
    two empty spans yields a line break, which is sent.  An accepted
    empty text is not sent but is remembered, with its time. *)
Theorem X9_when_a_change_is_sent (m : @Mutation VideoContext) (st : State) :
  (is_Some (snd (handle m st)) ↔
   ∃ spans, mut_container m = Some spans ∧
     let text := joined (map (line_of trim parseInt10) spans) in
     text ≠ currentSubtitle st ∧
     lastSentTime st + 50 ≤ mut_now m ∧
     ¬ (spans = [] ∨ ∃ sp, spans = [sp] ∧ trim (textContent sp) = EmptyString)) ∧
  (∀ spans, mut_container m = Some spans →
     joined (map (line_of trim parseInt10) spans) = EmptyString →
     currentSubtitle st ≠ EmptyString →
     lastSentTime st + 50 ≤ mut_now m →
     handle m st =
       ({| currentSubtitle := EmptyString; lastSentTime := mut_now m |}, None)).
Proof.
  assert (∀ spans, joined (map (line_of trim parseInt10) spans) = EmptyString ↔
            (spans = [] ∨ ∃ sp, spans = [sp] ∧ trim (textContent sp) = EmptyString))
    as Hempty.
  { intros spans. unfold joined. rewrite concat_newline_empty. split.
    - intros [H | H].
      + left. destruct spans; [done|discriminate H].
      + right. destruct spans as [|sp [|? ?]]; try discriminate H.
        exists sp. split; [done|]. by injection H.
    - intros [-> | (sp & -> & H)]; [by left|]. right. simpl. by rewrite H. }
  split.
  - split.
    + intros [msg Hmsg]. destruct (handle m st) as [st' o] eqn:Hm.
      simpl in Hmsg. subst o.
      destruct (handle_sends _ _ _ _ Hm)
        as (spans & Hc & Htext & _ & Hne & Hcur & Hgap & _).
      exists spans. split; [done|]. cbv zeta. rewrite <- Htext.
      split_and!; [done|done|]. rewrite <- Hempty, <- Htext. done.
    + intros (spans & Hc & Hcur & Hgap & Hne).
      unfold handleSubtitleChange. rewrite Hc. cbv zeta.
      rewrite <- Hempty in Hne.
      destruct (String.eqb_spec (joined (map (line_of trim parseInt10) spans))
                  (currentSubtitle st)); [done|].
      destruct (Z.ltb_spec (mut_now m - lastSentTime st) DEBOUNCE_MS) as [Hlt|];
        [unfold DEBOUNCE_MS in Hlt; lia|].
      simpl.
      destruct (String.eqb_spec (joined (map (line_of trim parseInt10) spans))
                  EmptyString); [done|].
      simpl. by eexists.
  - intros spans Hc Htext Hcur Hgap.
    unfold handleSubtitleChange. rewrite Hc. cbv zeta. rewrite Htext.
    destruct (String.eqb_spec EmptyString (currentSubtitle st)); [done|].
    destruct (Z.ltb_spec (mut_now m - lastSentTime st) DEBOUNCE_MS) as [Hlt|];
      [unfold DEBOUNCE_MS in Hlt; lia|].
    reflexivity.
Qed.

End ContentScriptProperties.

Lemma X9_when_a_change_is_sent_witness :
  let m := {| ContentScript.mut_container :=
                Some [ {| ContentScript.textContent := EmptyString;
                          ContentScript.dataset_track := "0" |};
                       {| ContentScript.textContent := EmptyString;
                          ContentScript.dataset_track := "1" |} ];
              ContentScript.mut_now := 1000;
              ContentScript.mut_video := tt;
              ContentScript.mut_stamp := 1000 |} in
  is_Some (snd (ContentScript.handleSubtitleChange id (λ _, Some 0) (λ _ : unit, 0)
                  Z.add m ContentScript.init)).
Proof.
  intros m.
  apply (X9_when_a_change_is_sent id (λ _, Some 0) (λ _ : unit, 0) Z.add m
           ContentScript.init).
  eexists. split; [reflexivity|]. cbv zeta. split_and!.
  - discriminate.
  - simpl. lia.
  - intros [H | (sp & H & _)]; discriminate H.
Defined.
